(** * Retention of date-partitioned OpenSearch indices: backuper/backuperV6.py

    A shallow embedding of [list_backup_delete_old_indices] and
    [list_delete_old_indices] and of the Python library functions they rely
    on, followed by the properties of the retention state machine.

    Conventions of the embedding.
    - Python [int] is [Z]; the float returned by [check_disk_space] is the
      rational it denotes ([Q]); [str] is the [string] of its UTF-8 bytes.
    - The dict returned by [indices.get_alias] is the list of its items in
      iteration order, with pairwise distinct keys.
    - The cluster, the disk and the clock are a [World]: every call is
      answered as a function of the history of calls made so far, and every
      call, sleep and printed line is appended to that history.
    - [list_backup_delete_old_indices w] and [list_delete_old_indices w]
      are the two functions run with a client that could be built, whose
      answers are those of [w]; [Entry] holds the two functions from their
      first line, with the construction of the client inside the [try].
    - An exception is a value of [exn]; what is not an [Exception]
      (KeyboardInterrupt, SystemExit) and a failing [print] are left out.
    - The [while] loop runs on fuel; [wait_for_snapshot_run] and
      [wait_for_snapshot_fuel] show that the fuel given is enough. *)

From Stdlib Require Import ZArith List String Ascii Bool Lia QArith.
From Stdlib Require Import Sorted Permutation.
Import ListNotations.

Local Open Scope string_scope.
Local Open Scope Z_scope.
Local Open Scope list_scope.

(* ------------------------------------------------------------------ *)
(** ** Exceptions and results *)

(** The exceptions the program can meet.  All of them derive from
    [Exception]; [RequestError], [ConnectionError] and
    [AuthorizationException] are the opensearchpy classes named in the
    [except] clauses (each standing for its subclasses too),
    [SnapshotFailed] is the [Exception] raised on line 106 with its
    message, [OtherException] any other exception. *)
Inductive exn : Type :=
| ConnectionError
| AuthorizationException
| RequestError
| ValueError
| OverflowError
| KeyError
| IndexError
| SnapshotFailed (index_name state : string)
| OtherException.

Inductive Res (A : Type) : Type :=
| Ok (a : A)
| Raise (e : exn).
Arguments Ok {A} a.
Arguments Raise {A} e.

(* ------------------------------------------------------------------ *)
(** ** datetime *)

Module Datetime.

Record datetime : Type := mkdt {
  year : Z; month : Z; day : Z;
  hour : Z; minute : Z; second : Z; microsecond : Z
}.

Record timedelta : Type := mktd {
  days : Z; seconds : Z; microseconds : Z
}.

(** [datetime._is_leap], [_days_before_year], [_days_in_month],
    [_days_before_month], [_ymd2ord] of CPython's [datetime] module. *)
Definition is_leap (y : Z) : bool :=
  (y mod 4 =? 0) && (negb (y mod 100 =? 0) || (y mod 400 =? 0)).

Definition days_before_year (y : Z) : Z :=
  let y' := y - 1 in
  y' * 365 + y' / 4 - y' / 100 + y' / 400.

Definition days_in_month (y m : Z) : Z :=
  if m =? 2 then (if is_leap y then 29 else 28)
  else if (m =? 4) || (m =? 6) || (m =? 9) || (m =? 11) then 30
  else 31.

Fixpoint days_before_month_aux (y : Z) (k : nat) : Z :=
  match k with
  | O => 0
  | S k' => days_before_month_aux y k' + days_in_month y (Z.of_nat k)
  end.

Definition days_before_month (y m : Z) : Z :=
  days_before_month_aux y (Z.to_nat (m - 1)).

Definition ymd2ord (y m d : Z) : Z :=
  days_before_year y + days_before_month y m + d.

Definition toordinal (t : datetime) : Z :=
  ymd2ord (year t) (month t) (day t).

(** The [timedelta] constructor normalises so that
    [0 <= microseconds < 10^6] and [0 <= seconds < 86400]. *)
Definition new_timedelta (d s us : Z) : timedelta :=
  let s1 := s + us / 1000000 in
  mktd (d + s1 / 86400) (s1 mod 86400) (us mod 1000000).

(** [datetime.__sub__] on two naive datetimes. *)
Definition sub (a b : datetime) : timedelta :=
  let secs1 := second a + minute a * 60 + hour a * 3600 in
  let secs2 := second b + minute b * 60 + hour b * 3600 in
  new_timedelta (toordinal a - toordinal b) (secs1 - secs2)
                (microsecond a - microsecond b).

(** Comparison of datetimes is the comparison of the tuples
    (year, month, day, hour, minute, second, microsecond). *)
Definition to_tuple (t : datetime) : list Z :=
  [year t; month t; day t; hour t; minute t; second t; microsecond t].

Fixpoint lex_cmp (a b : list Z) : comparison :=
  match a, b with
  | [], [] => Eq
  | [], _ :: _ => Lt
  | _ :: _, [] => Gt
  | x :: a', y :: b' =>
      match x ?= y with
      | Eq => lex_cmp a' b'
      | c => c
      end
  end.

Definition cmp (a b : datetime) : comparison := lex_cmp (to_tuple a) (to_tuple b).

Definition ltb (a b : datetime) : bool :=
  match cmp a b with Lt => true | _ => false end.

(** [datetime(year, month, day)]: the constructor checks the ranges and
    raises [ValueError] outside them. *)
Definition make_date (y m d : Z) : Res datetime :=
  if (1 <=? y) && (y <=? 9999) && (1 <=? m) && (m <=? 12)
     && (1 <=? d) && (d <=? days_in_month y m)
  then Ok (mkdt y m d 0 0 0 0)
  else Raise ValueError.

End Datetime.

Import Datetime.

(* ------------------------------------------------------------------ *)
(** ** str.rsplit and datetime.strptime *)

Definition hyphen : ascii := "-"%char.

(** [s.rsplit("-", 1)[-1]]: what follows the last hyphen, the whole string
    when it has none. *)
Definition rsplit_last (s : string) : string :=
  string_of_list_ascii
    (fold_left (fun acc c => if Ascii.eqb c hyphen then [] else acc ++ [c])
               (list_ascii_of_string s) []).

(** A [str] is the [string] of its UTF-8 bytes.  [utf8_decode] reads the
    first character: its code point and the bytes after it. *)
Definition utf8_decode (s : list ascii) : option (Z * list ascii) :=
  let byte (c : ascii) := Z.of_nat (nat_of_ascii c) in
  let cont (c : ascii) :=
    if (128 <=? byte c) && (byte c <=? 191) then Some (byte c - 128) else None in
  match s with
  | [] => None
  | a :: s1 =>
      if byte a <? 128 then Some (byte a, s1)
      else if (194 <=? byte a) && (byte a <=? 223) then
        match s1 with
        | b :: s2 =>
            match cont b with
            | Some b => Some ((byte a - 192) * 64 + b, s2)
            | None => None
            end
        | _ => None
        end
      else if (224 <=? byte a) && (byte a <=? 239) then
        match s1 with
        | b :: c :: s3 =>
            match cont b, cont c with
            | Some b, Some c =>
                let cp := (byte a - 224) * 4096 + b * 64 + c in
                if (2048 <=? cp) && negb ((55296 <=? cp) && (cp <=? 57343))
                then Some (cp, s3) else None
            | _, _ => None
            end
        | _ => None
        end
      else if (240 <=? byte a) && (byte a <=? 244) then
        match s1 with
        | b :: c :: d :: s4 =>
            match cont b, cont c, cont d with
            | Some b, Some c, Some d =>
                let cp := (byte a - 240) * 262144 + b * 4096 + c * 64 + d in
                if (65536 <=? cp) && (cp <=? 1114111)
                then Some (cp, s4) else None
            | _, _, _ => None
            end
        | _ => None
        end
      else None
  end.

(** The decimal digits (category Nd) of Unicode 14.0, the table of
    CPython 3.11: each script has its ten digits in a row, and the list
    holds the code point of each zero. *)
Definition decimal_zeros : list Z :=
  [48; 1632; 1776; 1984; 2406; 2534; 2662; 2790; 2918; 3046; 3174; 3302;
   3430; 3558; 3664; 3792; 3872; 4160; 4240; 6112; 6160; 6470; 6608; 6784;
   6800; 6992; 7088; 7232; 7248; 42528; 43216; 43264; 43472; 43504; 43600;
   44016; 65296; 66720; 68912; 69734; 69872; 69942; 70096; 70384; 70736;
   70864; 71248; 71360; 71472; 71904; 72016; 72784; 73040; 73120; 92768;
   92864; 93008; 120782; 120792; 120802; 120812; 120822; 123200; 123632;
   125264; 130032].

(** The value [int] gives a decimal digit. *)
Definition decimal_value (cp : Z) : option Z :=
  match find (fun zero => (zero <=? cp) && (cp <? zero + 10)) decimal_zeros with
  | Some zero => Some (cp - zero)
  | None => None
  end.

(** The pieces of a regular expression: each takes what it matches from the
    front of the string and gives the rest. *)
Definition then_ {A B} (x : option (A * list ascii))
    (k : A -> list ascii -> option B) : option B :=
  match x with
  | Some (a, rest) => k a rest
  | None => None
  end.

Definition orelse {A} (x y : option A) : option A :=
  match x with
  | Some _ => x
  | None => y
  end.

(** [\d]: a decimal digit of any script, with its value. *)
Definition match_digit (s : list ascii) : option (Z * list ascii) :=
  then_ (utf8_decode s) (fun cp rest =>
    match decimal_value cp with
    | Some v => Some (v, rest)
    | None => None
    end).

Definition digit_val (c : ascii) : option Z :=
  let n := Z.of_nat (nat_of_ascii c) in
  if (48 <=? n) && (n <=? 57) then Some (n - 48) else None.

(** [[lo-hi]]: one of the digits [0] to [9] of ASCII, between [lo] and
    [hi]. *)
Definition match_range (lo hi : Z) (s : list ascii) : option (Z * list ascii) :=
  match s with
  | c :: rest =>
      match digit_val c with
      | Some v => if (lo <=? v) && (v <=? hi) then Some (v, rest) else None
      | None => None
      end
  | [] => None
  end.

(** A literal character. *)
Definition match_char (c : ascii) (s : list ascii) : option (unit * list ascii) :=
  match s with
  | c' :: rest => if Ascii.eqb c' c then Some (tt, rest) else None
  | [] => None
  end.

(** [_strptime] turns the format ["%Y.%m.%d"] into the regular expression
      (?P<Y>\d\d\d\d)\.(?P<m>1[0-2]|0[1-9]|[1-9])\.
      (?P<d>3[0-1]|[1-2]\d|0[1-9]|[1-9]| [1-9])
    matches it at the start of the string and raises [ValueError] when it
    does not match or when text remains after the match.  The groups are
    converted with [int]. *)

(** Group [Y]: four digits. *)
Definition match_Y (s : list ascii) : option (Z * list ascii) :=
  then_ (match_digit s) (fun a s1 =>
  then_ (match_digit s1) (fun b s2 =>
  then_ (match_digit s2) (fun c s3 =>
  then_ (match_digit s3) (fun d s4 =>
  Some (a * 1000 + b * 100 + c * 10 + d, s4))))).

(** An escaped dot. *)
Definition match_dot (s : list ascii) : option (list ascii) :=
  then_ (match_char "."%char s) (fun _ rest => Some rest).

(** Group [m] followed by the dot: the alternatives [1[0-2]], [0[1-9]],
    [[1-9]] are tried in this order, and the matcher backtracks to the next
    one when the dot does not follow. *)
Definition match_m_dot (s : list ascii) : option (Z * list ascii) :=
  let dot (m : Z) (rest : list ascii) :=
    then_ (match_char "."%char rest) (fun _ rest' => Some (m, rest')) in
  orelse
    (then_ (match_range 1 1 s) (fun a s1 =>
     then_ (match_range 0 2 s1) (fun b s2 => dot (10 * a + b) s2)))
  (orelse
    (then_ (match_range 0 0 s) (fun a s1 =>
     then_ (match_range 1 9 s1) (fun b s2 => dot (10 * a + b) s2)))
    (then_ (match_range 1 9 s) dot)).

(** Group [d], the last of the pattern: the first alternative that matches
    is taken, whatever follows. *)
Definition match_d (s : list ascii) : option (Z * list ascii) :=
  orelse
    (then_ (match_range 3 3 s) (fun a s1 =>
     then_ (match_range 0 1 s1) (fun b s2 => Some (10 * a + b, s2))))
  (orelse
    (then_ (match_range 1 2 s) (fun a s1 =>
     then_ (match_digit s1) (fun b s2 => Some (10 * a + b, s2))))
  (orelse
    (then_ (match_range 0 0 s) (fun a s1 =>
     then_ (match_range 1 9 s1) (fun b s2 => Some (10 * a + b, s2))))
  (orelse
    (match_range 1 9 s)
    (then_ (match_char " "%char s) (fun _ s1 => match_range 1 9 s1))))).

(** [datetime.datetime.strptime(s, "%Y.%m.%d")]. *)
Definition strptime (s : string) : Res datetime :=
  match match_Y (list_ascii_of_string s) with
  | None => Raise ValueError
  | Some (y, s1) =>
      match match_dot s1 with
      | None => Raise ValueError
      | Some s2 =>
          match match_m_dot s2 with
          | None => Raise ValueError
          | Some (m, s3) =>
              match match_d s3 with
              | None => Raise ValueError
              | Some (d, []) => make_date y m d
              | Some (d, _ :: _) => Raise ValueError (* unconverted data remains *)
              end
          end
      end
  end.

(* ------------------------------------------------------------------ *)
(** ** The index classifier (lines 49-66 and 152-169) *)

(** The value stored under an index name in the alias listing; the program
    never looks at it. *)
Definition index_info : Type := list string.

Fixpoint distinct (l : list string) : bool :=
  match l with
  | [] => true
  | x :: r => negb (existsb (String.eqb x) r) && distinct r
  end.

(** A Python dict with string keys, as the list of its items in iteration
    order. *)
Record dict : Type := mkdict {
  items : list (string * index_info);
  keys_distinct : distinct (map fst items) = true
}.

Definition bindR {A B} (r : Res A) (k : A -> Res B) : Res B :=
  match r with
  | Ok a => k a
  | Raise e => Raise e
  end.

(** [try: body  except ValueError: handler]. *)
Definition except_ValueError {A} (body : Res A) (handler : Res A) : Res A :=
  match body with
  | Raise ValueError => handler
  | r => r
  end.

Section Classifier.

Variable current_date : datetime.

(** The body of the loop of lines 54-63, in list_backup_delete_old_indices. *)
Definition backup_classify_item (redundancy_period_days : Z)
    (old_indices : list (string * datetime)) (item : string * index_info)
  : Res (list (string * datetime)) :=
  let index_name := fst item in
  let index_date_str := rsplit_last index_name in
  except_ValueError
    (bindR (strptime index_date_str) (fun creation_date =>
       if days (sub current_date creation_date) >? redundancy_period_days
       then Ok (old_indices ++ [(index_name, creation_date)])
       else Ok old_indices))
    (Ok old_indices).

Fixpoint backup_classify (redundancy_period_days : Z)
    (its : list (string * index_info)) (old_indices : list (string * datetime))
  : Res (list (string * datetime)) :=
  match its with
  | [] => Ok old_indices
  | item :: rest =>
      bindR (backup_classify_item redundancy_period_days old_indices item)
            (backup_classify redundancy_period_days rest)
  end.

(** The body of the loop of lines 157-166, in list_delete_old_indices. *)
Definition delete_classify_item (days_ : Z)
    (old_indices : list (string * datetime)) (item : string * index_info)
  : Res (list (string * datetime)) :=
  let index_name := fst item in
  let index_date_str := rsplit_last index_name in
  except_ValueError
    (bindR (strptime index_date_str) (fun creation_date =>
       if days (sub current_date creation_date) >? days_
       then Ok (old_indices ++ [(index_name, creation_date)])
       else Ok old_indices))
    (Ok old_indices).

Fixpoint delete_classify (days_ : Z)
    (its : list (string * index_info)) (old_indices : list (string * datetime))
  : Res (list (string * datetime)) :=
  match its with
  | [] => Ok old_indices
  | item :: rest =>
      bindR (delete_classify_item days_ old_indices item)
            (delete_classify days_ rest)
  end.

End Classifier.

(** [old_indices.sort(key=lambda x: x[1])]: list.sort is a stable sort, here
    by ascending creation date.  A stable sort has one possible result; it
    is computed by insertion, an element going in front of the first one
    that does not come strictly before it. *)
Fixpoint insert_by_date (x : string * datetime) (l : list (string * datetime))
  : list (string * datetime) :=
  match l with
  | [] => [x]
  | y :: l' =>
      if Datetime.ltb (snd y) (snd x) then y :: insert_by_date x l'
      else x :: l
  end.

Fixpoint sort_by_date (l : list (string * datetime)) : list (string * datetime) :=
  match l with
  | [] => []
  | x :: l' => insert_by_date x (sort_by_date l')
  end.

(** The list [old_indices] after line 66, respectively line 169. *)
Definition backup_old_indices (current_date : datetime) (redundancy_period_days : Z)
    (indices : dict) : Res (list (string * datetime)) :=
  bindR (backup_classify current_date redundancy_period_days (items indices) [])
        (fun old_indices => Ok (sort_by_date old_indices)).

Definition delete_old_indices (current_date : datetime) (days_ : Z)
    (indices : dict) : Res (list (string * datetime)) :=
  bindR (delete_classify current_date days_ (items indices) [])
        (fun old_indices => Ok (sort_by_date old_indices)).

(* ------------------------------------------------------------------ *)
(** ** The world: cluster client, disk monitor, clock, console *)

(** The response of [snapshot.status]: what the program reads of it is
    [snapshot_status["snapshots"][0]["state"]]. *)
Record snapshot_info : Type := mksnap { state : option string }.
Record status_response : Type := mkstatus { snapshots : option (list snapshot_info) }.

Definition status_state (r : status_response) : Res string :=
  match snapshots r with
  | None => Raise KeyError
  | Some [] => Raise IndexError
  | Some (s :: _) =>
      match state s with
      | None => Raise KeyError
      | Some st => Ok st
      end
  end.

(** The lines printed by the two functions. *)
Inductive message : Type :=
| MsgOlderThan (days_ : Z)                                   (* lines 68, 171 *)
| MsgIndex (index_name : string)                             (* lines 70, 173 *)
| MsgDiskBefore (threshold : Z)                              (* line 74 *)
| MsgSnapshotCreated (index_name snapshot_name : string)     (* line 95 *)
| MsgWaiting (snapshot_name : string)                        (* line 109 *)
| MsgTimedOut (index_name : string)                          (* line 114 *)
| MsgDeletedAfterSnapshot (index_name : string)              (* line 119 *)
| MsgDiskAfter (threshold : Z) (index_name : string)         (* line 123 *)
| MsgFailedSnapshot (index_name : string) (e : exn)          (* line 129 *)
| MsgErrorProcessing (index_name : string) (e : exn)         (* line 131 *)
| MsgConnectionError (e : exn)                               (* lines 134, 186 *)
| MsgAuthorization (e : exn)                                 (* lines 136, 188 *)
| MsgRequestError (e : exn)                                  (* lines 138, 190 *)
| MsgErrorRetrieving (e : exn)                               (* lines 140, 192 *)
| MsgDeleted (index_name : string)                           (* line 179 *)
| MsgFailedDelete (index_name : string) (e : exn)            (* line 181 *)
| MsgErrorDeleting (index_name : string) (e : exn).          (* line 183 *)

(** What the program does to the outside, with the answer it got. *)
Inductive event : Type :=
| EGetAlias (r : Res dict)
| EDisk (r : Res Q)
| ECreate (repository snapshot index_name : string) (r : Res unit)
| EStatus (repository snapshot : string) (r : Res status_response)
| ESleep (secs : Z)
| EDelete (index_name : string) (r : Res unit)
| EPrint (m : message).

Definition history : Type := list event.

(** The answers of the outside.  [disk_percent] is the float returned by
    [check_disk_space("/")], as the rational it denotes: the float division
    of [used] by [total] is left to the world, and so are the failures of
    [shutil.disk_usage]. *)
Record World : Type := mkWorld {
  now : datetime;
  get_alias : history -> Res dict;
  disk_percent : history -> Res Q;
  snapshot_create : history -> string -> string -> string -> Res unit;
  snapshot_status : history -> string -> string -> Res status_response;
  indices_delete : history -> string -> Res unit
}.

(* ------------------------------------------------------------------ *)
(** ** A state and exception monad over the history *)

Definition M (A : Type) : Type := history -> history * Res A.

Definition ret {A} (a : A) : M A := fun h => (h, Ok a).

Definition raise {A} (e : exn) : M A := fun h => (h, Raise e).

Definition bind {A B} (m : M A) (k : A -> M B) : M B :=
  fun h =>
    match m h with
    | (h', Ok a) => k a h'
    | (h', Raise e) => (h', Raise e)
    end.

Definition lift {A} (r : Res A) : M A := fun h => (h, r).

Definition emit (e : event) : M unit := fun h => (h ++ [e], Ok tt).

(** [try: body  except Exception as e: handler e]. *)
Definition try_except {A} (body : M A) (handler : exn -> M A) : M A :=
  fun h =>
    match body h with
    | (h', Raise e) => handler e h'
    | r => r
    end.

Notation "x <- m ;; k" := (bind m (fun x => k))
  (at level 61, m at next level, right associativity).
Notation "m ;; k" := (bind m (fun _ => k))
  (at level 61, right associativity).

Definition Qgtb (a b : Q) : bool := negb (Qle_bool a b).

(** [t.strftime('%Y%m%d%H%M%S')], for a year of four digits. *)
Definition digit_char (n : Z) : ascii := ascii_of_nat (48 + Z.to_nat (n mod 10)).

Definition pad2 (n : Z) : list ascii := [digit_char (n / 10); digit_char n].

Definition strftime (t : datetime) : string :=
  string_of_list_ascii
    (digit_char (year t / 1000) :: digit_char (year t / 100) :: pad2 (year t)
     ++ pad2 (month t) ++ pad2 (day t)
     ++ pad2 (hour t) ++ pad2 (minute t) ++ pad2 (second t)).

Definition snapshot_name_of (current_date : datetime) (index_name : string) : string :=
  String.append "snapshot-"
    (String.append index_name (String.append "-" (strftime current_date))).
Arguments snapshot_name_of : simpl never.

(** The exception of [time.sleep(secs)], if it raises one. *)
Definition sleep_refusal (secs : Z) : option exn :=
  if (secs <? -9223372036) || (9223372036 <? secs) then Some OverflowError
  else if secs <? 0 then Some ValueError
  else None.

(** How an iteration of a [for] loop ends: at its end or by [continue]
    ([Next]), or by [return] ([Return]). *)
Inductive flow : Type := Next | Return.

(* ------------------------------------------------------------------ *)
(** ** The two functions *)

Section Program.

Variable w : World.

(** The calls to the outside: each asks the world and records the call
    with its answer. *)
Definition indices_get_alias : M dict :=
  fun h => let r := get_alias w h in (h ++ [EGetAlias r], r).

Definition check_disk_space : M Q :=
  fun h => let r := disk_percent w h in (h ++ [EDisk r], r).

Definition snapshot_create_call (repository snapshot index_name : string) : M unit :=
  fun h =>
    let r := snapshot_create w h repository snapshot index_name in
    (h ++ [ECreate repository snapshot index_name r], r).

Definition snapshot_status_call (repository snapshot : string) : M status_response :=
  fun h =>
    let r := snapshot_status w h repository snapshot in
    (h ++ [EStatus repository snapshot r], r).

Definition indices_delete_call (index_name : string) : M unit :=
  fun h =>
    let r := indices_delete w h index_name in
    (h ++ [EDelete index_name r], r).

(** [time.sleep(secs)] for an [int]: the length is first turned into a
    count of nanoseconds on 64 bits, with [OverflowError] when
    [secs * 10^9] does not fit; a negative length is then refused with
    [ValueError]. *)
Definition sleep (secs : Z) : M unit :=
  match sleep_refusal secs with
  | Some e => raise e
  | None => emit (ESleep secs)
  end.

Definition print (m : message) : M unit := emit (EPrint m).

Fixpoint print_indices (old_indices : list (string * datetime)) : M unit :=
  match old_indices with
  | [] => ret tt
  | (index_name, _) :: rest => print (MsgIndex index_name) ;; print_indices rest
  end.

Section Backup.

Variable repository_name : string.
Variables redundancy_period_days disk_usage_threshold : Z.
Variables snapshot_retry_interval snapshot_max_retries : Z.

(** The [while] loop of lines 99-111; its value is [retries] when the loop
    is left.  [fuel] bounds the number of iterations. *)
Fixpoint wait_for_snapshot (fuel : nat) (index_name snapshot_name : string)
    (retries : Z) : M Z :=
  match fuel with
  | O => ret retries
  | S fuel' =>
      if retries <? snapshot_max_retries then
        snapshot_status <- snapshot_status_call repository_name snapshot_name ;;
        st <- lift (status_state snapshot_status) ;;
        if String.eqb st "SUCCESS" then ret retries
        else if String.eqb st "FAILED" || String.eqb st "PARTIAL" then
          raise (SnapshotFailed index_name st)
        else
          print (MsgWaiting snapshot_name) ;;
          sleep snapshot_retry_interval ;;
          wait_for_snapshot fuel' index_name snapshot_name (retries + 1)
      else ret retries
  end.

(** One iteration of the loop of lines 80-131. *)
Definition process_index (current_date : datetime) (index_name : string) : M flow :=
  let snapshot_name := snapshot_name_of current_date index_name in
  try_except
    (snapshot_create_call repository_name snapshot_name index_name ;;
     print (MsgSnapshotCreated index_name snapshot_name) ;;
     retries <- wait_for_snapshot (Z.to_nat snapshot_max_retries)
                                  index_name snapshot_name 0 ;;
     if retries >=? snapshot_max_retries then
       print (MsgTimedOut index_name) ;;
       ret Next
     else
       indices_delete_call index_name ;;
       print (MsgDeletedAfterSnapshot index_name) ;;
       used <- check_disk_space ;;
       if Qgtb used (inject_Z disk_usage_threshold) then
         print (MsgDiskAfter disk_usage_threshold index_name) ;;
         ret Return
       else ret Next)
    (fun e =>
       match e with
       | RequestError => print (MsgFailedSnapshot index_name e) ;; ret Next
       | _ => print (MsgErrorProcessing index_name e) ;; ret Next
       end).

Fixpoint backup_loop (current_date : datetime)
    (old_indices : list (string * datetime)) : M flow :=
  match old_indices with
  | [] => ret Next
  | (index_name, _) :: rest =>
      f <- process_index current_date index_name ;;
      match f with
      | Next => backup_loop current_date rest
      | Return => ret Return
      end
  end.

(** [list_backup_delete_old_indices], lines 30-140, run with the client
    that lines 42-47 built, whose answers are those of [w]: the listing
    call of line 49 and what follows it, inside the [try] of line 41.
    [host], [port], [username] and [password] only configure that client.
    The function from its first line, with the construction of the client,
    is [Entry.list_backup_delete_old_indices] below. *)
Definition list_backup_delete_old_indices : M unit :=
  try_except
    (indices <- indices_get_alias ;;
     let current_date := now w in
     old_indices <- lift (backup_old_indices current_date
                            redundancy_period_days indices) ;;
     print (MsgOlderThan redundancy_period_days) ;;
     print_indices old_indices ;;
     used <- check_disk_space ;;
     if Qgtb used (inject_Z disk_usage_threshold) then
       print (MsgDiskBefore disk_usage_threshold)
     else
       backup_loop current_date old_indices ;;
       ret tt)
    (fun e =>
       match e with
       | ConnectionError => print (MsgConnectionError e)
       | AuthorizationException => print (MsgAuthorization e)
       | RequestError => print (MsgRequestError e)
       | _ => print (MsgErrorRetrieving e)
       end).

End Backup.

(** One iteration of the loop of lines 176-183. *)
Definition delete_index (index_name : string) : M unit :=
  try_except
    (indices_delete_call index_name ;;
     print (MsgDeleted index_name))
    (fun e =>
       match e with
       | RequestError => print (MsgFailedDelete index_name e)
       | _ => print (MsgErrorDeleting index_name e)
       end).

Fixpoint delete_loop (old_indices : list (string * datetime)) : M unit :=
  match old_indices with
  | [] => ret tt
  | (index_name, _) :: rest => delete_index index_name ;; delete_loop rest
  end.

(** [list_delete_old_indices], lines 143-192, run with the client that
    lines 145-150 built; with the construction of the client it is
    [Entry.list_delete_old_indices] below. *)
Definition list_delete_old_indices (days_ : Z) : M unit :=
  try_except
    (indices <- indices_get_alias ;;
     let current_date := now w in
     old_indices <- lift (delete_old_indices current_date days_ indices) ;;
     print (MsgOlderThan days_) ;;
     print_indices old_indices ;;
     delete_loop old_indices)
    (fun e =>
       match e with
       | ConnectionError => print (MsgConnectionError e)
       | AuthorizationException => print (MsgAuthorization e)
       | RequestError => print (MsgRequestError e)
       | _ => print (MsgErrorRetrieving e)
       end).

End Program.

(* ------------------------------------------------------------------ *)
(** ** The two functions from their first line (lines 41-47 and 144-150) *)

(** [OpenSearch(hosts=[{"host": host, "port": port}],
    http_auth=(username, password), use_ssl=True, verify_certs=False,
    timeout=60)] sends nothing to the cluster.  It raises when no
    connection can be set up from its arguments (an empty host), and
    otherwise gives the client; the answers the run then gets, from that
    client, the disk and the clock, are a [World]. *)
Definition client_constructor : Type :=
  string -> Z -> string -> string -> Res World.

Module Entry.

Section Entry.

Variable OpenSearch : client_constructor.
Variable host : string.
Variable port : Z.
Variables username password : string.

(** [list_backup_delete_old_indices], lines 30-140: the client is built
    inside the [try], so the handlers of lines 133-140 also catch what its
    construction raises. *)
Definition list_backup_delete_old_indices (repository_name : string)
    (redundancy_period_days disk_usage_threshold : Z)
    (snapshot_retry_interval snapshot_max_retries : Z) : M unit :=
  try_except
    (client <- lift (OpenSearch host port username password) ;;
     indices <- indices_get_alias client ;;
     let current_date := now client in
     old_indices <- lift (backup_old_indices current_date
                            redundancy_period_days indices) ;;
     print (MsgOlderThan redundancy_period_days) ;;
     print_indices old_indices ;;
     used <- check_disk_space client ;;
     if Qgtb used (inject_Z disk_usage_threshold) then
       print (MsgDiskBefore disk_usage_threshold)
     else
       backup_loop client repository_name disk_usage_threshold
                   snapshot_retry_interval snapshot_max_retries
                   current_date old_indices ;;
       ret tt)
    (fun e =>
       match e with
       | ConnectionError => print (MsgConnectionError e)
       | AuthorizationException => print (MsgAuthorization e)
       | RequestError => print (MsgRequestError e)
       | _ => print (MsgErrorRetrieving e)
       end).

(** [list_delete_old_indices], lines 143-192. *)
Definition list_delete_old_indices (days_ : Z) : M unit :=
  try_except
    (client <- lift (OpenSearch host port username password) ;;
     indices <- indices_get_alias client ;;
     let current_date := now client in
     old_indices <- lift (delete_old_indices current_date days_ indices) ;;
     print (MsgOlderThan days_) ;;
     print_indices old_indices ;;
     delete_loop client old_indices)
    (fun e =>
       match e with
       | ConnectionError => print (MsgConnectionError e)
       | AuthorizationException => print (MsgAuthorization e)
       | RequestError => print (MsgRequestError e)
       | _ => print (MsgErrorRetrieving e)
       end).

End Entry.

End Entry.

(* ------------------------------------------------------------------ *)
(** ** main (lines 195-263) *)

(** The exceptions of the start-up: the two configparser classes that the
    [except] clauses of lines 220-225 name, and any other exception (the
    [ValueError] of [getint] on a value that is no integer, an
    interpolation error, a parsing error of [config.read]). *)
Inductive startup_exn : Type :=
| NoSectionError
| NoOptionError
| OtherStartupError.

Inductive CRes (A : Type) : Type :=
| COk (a : A)
| CRaise (e : startup_exn).
Arguments COk {A} a.
Arguments CRaise {A} e.

Definition bindC {A B} (r : CRes A) (k : A -> CRes B) : CRes B :=
  match r with
  | COk a => k a
  | CRaise e => CRaise e
  end.

(** What [parser.parse_args()] gives: the namespace with [days] and
    [action], or [SystemExit] with its status when argparse refuses the
    command line or prints its help. *)
Inductive parsed_args : Type :=
| Args (days_ : Z) (action : string)
| ArgsExit (status : Z).

(** The file system, the configuration file as configparser reads it and
    the command line: [path_exists] is [os.path.exists], [config_read] is
    [config.read], [config_get] and [config_getint] are [config.get] and
    [config.getint] on a section and an option. *)
Record Startup : Type := mkStartup {
  path_exists : string -> bool;
  config_read : string -> CRes unit;
  config_get : string -> string -> CRes string;
  config_getint : string -> string -> CRes Z;
  parse_args : parsed_args
}.

(** The values of lines 212-219. *)
Record settings : Type := mksettings {
  host : string;
  port : Z;
  username : string;
  password : string;
  repository_name : string;
  snapshot_retry_interval : Z;
  snapshot_max_retries : Z;
  disk_usage_threshold : Z
}.

(** The lines printed by [main]. *)
Inductive main_message : Type :=
| MsgBanner                                 (* line 196 *)
| MsgConfigNotFound (config_file : string)  (* line 204 *)
| MsgConfigurationError                     (* line 221 *)
| MsgMissingOption                          (* line 224 *)
| MsgActionError (e : exn).                 (* line 263 *)

(** What [main] does: its own printed lines, and the events of the
    function it calls. *)
Inductive main_event : Type :=
| MPrint (m : main_message)
| Core (e : event).

(** How [main] ends: it returns, an exception leaves it, or argparse
    exits. *)
Inductive main_outcome : Type :=
| Returned
| Uncaught (e : startup_exn)
| Exited (status : Z).

(** Lines 212-219: the eight reads, in their order; the first one that
    raises ends them. *)
Definition read_settings (s : Startup) : CRes settings :=
  bindC (config_get s "OpenSearch" "host") (fun host =>
  bindC (config_getint s "OpenSearch" "port") (fun port =>
  bindC (config_get s "OpenSearch" "username") (fun username =>
  bindC (config_get s "OpenSearch" "password") (fun password =>
  bindC (config_get s "OpenSearch" "repository_name") (fun repository_name =>
  bindC (config_getint s "Snapshot" "snapshot_retry_interval")
        (fun snapshot_retry_interval =>
  bindC (config_getint s "Snapshot" "snapshot_max_retries")
        (fun snapshot_max_retries =>
  bindC (config_getint s "Snapshot" "disk_usage_threshold")
        (fun disk_usage_threshold =>
  COk (mksettings host port username password repository_name
         snapshot_retry_interval snapshot_max_retries
         disk_usage_threshold))))))))).

(** Lines 247-263: the call of the selected function, from an empty
    history, inside [try ... except Exception].  [w] holds the answers the
    function gets with the client it builds from [host], [port],
    [username] and [password]. *)
Definition perform_action (w : World) (st : settings)
    (redundancy_period_days : Z) (action : string) : list main_event :=
  let '(h, r) :=
    if String.eqb action "backup_delete" then
      list_backup_delete_old_indices w (repository_name st)
        redundancy_period_days (disk_usage_threshold st)
        (snapshot_retry_interval st) (snapshot_max_retries st) []
    else if String.eqb action "delete" then
      list_delete_old_indices w redundancy_period_days []
    else ([], Ok tt) in
  match r with
  | Ok _ => map Core h
  | Raise e => map Core h ++ [MPrint (MsgActionError e)]
  end.

Definition main (s : Startup) (w : World) : list main_event * main_outcome :=
  let banner := [MPrint MsgBanner] in
  let config_file := "config.ini" in
  if negb (path_exists s config_file) then
    (banner ++ [MPrint (MsgConfigNotFound config_file)], Returned)
  else
    match config_read s config_file with
    | CRaise e => (banner, Uncaught e)
    | COk _ =>
        match read_settings s with
        | CRaise NoSectionError =>
            (banner ++ [MPrint MsgConfigurationError], Returned)
        | CRaise NoOptionError =>
            (banner ++ [MPrint MsgMissingOption], Returned)
        | CRaise e => (banner, Uncaught e)
        | COk st =>
            match parse_args s with
            | ArgsExit status => (banner, Exited status)
            | Args days_ action =>
                let redundancy_period_days := days_ in
                (banner ++ perform_action w st redundancy_period_days action,
                 Returned)
            end
        end
    end.

(* ------------------------------------------------------------------ *)
(** * The vocabulary of the properties *)

(** ** The stale list *)

(** [x] is not after [y]. *)
Definition date_le (x y : string * datetime) : Prop :=
  Datetime.ltb (snd y) (snd x) = false.

(** What one item of the listing contributes to [old_indices]. *)
Definition stale_entry (current_date : datetime) (threshold : Z)
    (item : string * index_info) : list (string * datetime) :=
  match strptime (rsplit_last (fst item)) with
  | Ok creation_date =>
      if days (sub current_date creation_date) >? threshold
      then [(fst item, creation_date)] else []
  | Raise _ => []
  end.

(** The stale list, as a value: the two classifiers never raise. *)
Definition stale_list (now : datetime) (thr : Z) (indices : dict)
  : list (string * datetime) :=
  sort_by_date (flat_map (stale_entry now thr) (items indices)).

(** [name] is in the stale list a classifier computed. *)
Definition classified_stale (r : Res (list (string * datetime))) (name : string)
  : Prop :=
  exists old_indices, r = Ok old_indices /\ In name (map fst old_indices).

(** The date token as the specification words it: a year of four digits,
    a month of two digits and a day of two digits, joined by dots. *)
Definition spec_yyyy_mm_dd (token : string) : bool :=
  match list_ascii_of_string token with
  | [y1; y2; y3; y4; p; m1; m2; q; d1; d2] =>
      forallb (fun c => match digit_val c with Some _ => true | None => false end)
              [y1; y2; y3; y4; m1; m2; d1; d2]
      && Ascii.eqb p "."%char && Ascii.eqb q "."%char
  | _ => false
  end.

(** ** The runs of the snapshot waiter, of one iteration and of the loop *)

Definition failed_state (st : string) : Prop := st = "FAILED" \/ st = "PARTIAL".

Definition in_progress (st : string) : Prop :=
  st <> "SUCCESS" /\ st <> "FAILED" /\ st <> "PARTIAL".

(** The line printed by the handlers of lines 128-131. *)
Definition failure_message (index_name : string) (e : exn) : message :=
  match e with
  | RequestError => MsgFailedSnapshot index_name e
  | _ => MsgErrorProcessing index_name e
  end.

(** The line printed by the handlers of lines 133-140 and 185-192. *)
Definition fatal_message (e : exn) : message :=
  match e with
  | ConnectionError => MsgConnectionError e
  | AuthorizationException => MsgAuthorization e
  | RequestError => MsgRequestError e
  | _ => MsgErrorRetrieving e
  end.

(** The line printed by the handlers of lines 180-183. *)
Definition delete_message (index_name : string) (r : Res unit) : message :=
  match r with
  | Ok _ => MsgDeleted index_name
  | Raise RequestError => MsgFailedDelete index_name RequestError
  | Raise e => MsgErrorDeleting index_name e
  end.

(** The lines of 68-70 and 171-173. *)
Definition listing_events (days_ : Z) (l : list (string * datetime)) : list event :=
  EPrint (MsgOlderThan days_) :: map (fun x => EPrint (MsgIndex (fst x))) l.

Section RunRelations.

Variable w : World.
Variable repository_name : string.
Variables disk_usage_threshold snapshot_retry_interval snapshot_max_retries : Z.
Variable current_date : datetime.

Let snap (index_name : string) : string := snapshot_name_of current_date index_name.

(** [wait_run i h r evs res]: entered with history [h] and [retries = r],
    the [while] loop for index [i] adds the events [evs] and ends with
    [res], the final value of [retries] or the exception raised. *)
Inductive wait_run (i : string) : history -> Z -> list event -> Res Z -> Prop :=
| wait_exhausted h r :
    snapshot_max_retries <= r ->
    wait_run i h r [] (Ok r)
| wait_status_raised h r e :
    r < snapshot_max_retries ->
    snapshot_status w h repository_name (snap i) = Raise e ->
    wait_run i h r [EStatus repository_name (snap i) (Raise e)] (Raise e)
| wait_malformed h r resp e :
    r < snapshot_max_retries ->
    snapshot_status w h repository_name (snap i) = Ok resp ->
    status_state resp = Raise e ->
    wait_run i h r [EStatus repository_name (snap i) (Ok resp)] (Raise e)
| wait_success h r resp :
    r < snapshot_max_retries ->
    snapshot_status w h repository_name (snap i) = Ok resp ->
    status_state resp = Ok "SUCCESS" ->
    wait_run i h r [EStatus repository_name (snap i) (Ok resp)] (Ok r)
| wait_failed h r resp st :
    r < snapshot_max_retries ->
    snapshot_status w h repository_name (snap i) = Ok resp ->
    status_state resp = Ok st ->
    failed_state st ->
    wait_run i h r [EStatus repository_name (snap i) (Ok resp)]
             (Raise (SnapshotFailed i st))
| wait_sleep_refused h r resp st e :
    r < snapshot_max_retries ->
    snapshot_status w h repository_name (snap i) = Ok resp ->
    status_state resp = Ok st ->
    in_progress st ->
    sleep_refusal snapshot_retry_interval = Some e ->
    wait_run i h r [EStatus repository_name (snap i) (Ok resp);
                    EPrint (MsgWaiting (snap i))]
             (Raise e)
| wait_again h r resp st evs res :
    r < snapshot_max_retries ->
    snapshot_status w h repository_name (snap i) = Ok resp ->
    status_state resp = Ok st ->
    in_progress st ->
    sleep_refusal snapshot_retry_interval = None ->
    wait_run i (h ++ [EStatus repository_name (snap i) (Ok resp);
                      EPrint (MsgWaiting (snap i));
                      ESleep snapshot_retry_interval]) (r + 1) evs res ->
    wait_run i h r (EStatus repository_name (snap i) (Ok resp)
                    :: EPrint (MsgWaiting (snap i))
                    :: ESleep snapshot_retry_interval :: evs) res.

(** The first two events of an iteration whose snapshot request is
    acknowledged. *)
Definition created (i : string) : list event :=
  [ECreate repository_name (snap i) i (Ok tt);
   EPrint (MsgSnapshotCreated i (snap i))].

(** The last events of an iteration that deleted its index. *)
Definition deleted (i : string) : list event :=
  [EDelete i (Ok tt); EPrint (MsgDeletedAfterSnapshot i)].

(** [body_run i h evs f]: entered with history [h], the iteration for index
    [i] adds the events [evs] and ends the way [f] says. *)
Inductive body_run (i : string) (h : history) : list event -> flow -> Prop :=
| body_create_rejected e :
    snapshot_create w h repository_name (snap i) i = Raise e ->
    body_run i h [ECreate repository_name (snap i) i (Raise e);
                  EPrint (failure_message i e)] Next
| body_wait_raised evs e :
    snapshot_create w h repository_name (snap i) i = Ok tt ->
    wait_run i (h ++ created i) 0 evs (Raise e) ->
    body_run i h (created i ++ evs ++ [EPrint (failure_message i e)]) Next
| body_timed_out evs r :
    snapshot_create w h repository_name (snap i) i = Ok tt ->
    wait_run i (h ++ created i) 0 evs (Ok r) ->
    snapshot_max_retries <= r ->
    body_run i h (created i ++ evs ++ [EPrint (MsgTimedOut i)]) Next
| body_delete_rejected evs r e :
    snapshot_create w h repository_name (snap i) i = Ok tt ->
    wait_run i (h ++ created i) 0 evs (Ok r) ->
    r < snapshot_max_retries ->
    indices_delete w (h ++ created i ++ evs) i = Raise e ->
    body_run i h (created i ++ evs
                  ++ [EDelete i (Raise e); EPrint (failure_message i e)]) Next
| body_disk_raised evs r e :
    snapshot_create w h repository_name (snap i) i = Ok tt ->
    wait_run i (h ++ created i) 0 evs (Ok r) ->
    r < snapshot_max_retries ->
    indices_delete w (h ++ created i ++ evs) i = Ok tt ->
    disk_percent w (h ++ created i ++ evs ++ deleted i) = Raise e ->
    body_run i h (created i ++ evs ++ deleted i
                  ++ [EDisk (Raise e); EPrint (failure_message i e)]) Next
| body_disk_exceeded evs r q :
    snapshot_create w h repository_name (snap i) i = Ok tt ->
    wait_run i (h ++ created i) 0 evs (Ok r) ->
    r < snapshot_max_retries ->
    indices_delete w (h ++ created i ++ evs) i = Ok tt ->
    disk_percent w (h ++ created i ++ evs ++ deleted i) = Ok q ->
    Qgtb q (inject_Z disk_usage_threshold) = true ->
    body_run i h (created i ++ evs ++ deleted i
                  ++ [EDisk (Ok q); EPrint (MsgDiskAfter disk_usage_threshold i)])
             Return
| body_done evs r q :
    snapshot_create w h repository_name (snap i) i = Ok tt ->
    wait_run i (h ++ created i) 0 evs (Ok r) ->
    r < snapshot_max_retries ->
    indices_delete w (h ++ created i ++ evs) i = Ok tt ->
    disk_percent w (h ++ created i ++ evs ++ deleted i) = Ok q ->
    Qgtb q (inject_Z disk_usage_threshold) = false ->
    body_run i h (created i ++ evs ++ deleted i ++ [EDisk (Ok q)]) Next.

(** [loop_run h l evs f]: entered with history [h], the loop of lines 80-131
    over the list [l] adds the events [evs]; [f] is [Return] when an
    iteration left the function. *)
Inductive loop_run : history -> list (string * datetime) -> list event -> flow -> Prop :=
| loop_end h :
    loop_run h [] [] Next
| loop_return h i d rest evs :
    body_run i h evs Return ->
    loop_run h ((i, d) :: rest) evs Return
| loop_next h i d rest evs evs' f :
    body_run i h evs Next ->
    loop_run (h ++ evs) rest evs' f ->
    loop_run h ((i, d) :: rest) (evs ++ evs') f.

End RunRelations.

(** ** The runs of the two functions *)

Section WholeRunRelations.

Variable w : World.
Variable repository_name : string.
Variables disk_usage_threshold snapshot_retry_interval snapshot_max_retries : Z.
Variable redundancy_period_days : Z.

(** The history when the disk is sampled on line 73. *)
Definition at_gate (h : history) (d : dict) : history :=
  h ++ EGetAlias (Ok d)
    :: listing_events redundancy_period_days
         (stale_list (now w) redundancy_period_days d).

(** [backup_run h evs]: called with history [h],
    [list_backup_delete_old_indices] adds the events [evs]. *)
Inductive backup_run (h : history) : list event -> Prop :=
| backup_listing_failed e :
    get_alias w h = Raise e ->
    backup_run h [EGetAlias (Raise e); EPrint (fatal_message e)]
| backup_disk_failed d e :
    get_alias w h = Ok d ->
    disk_percent w (at_gate h d) = Raise e ->
    backup_run h (EGetAlias (Ok d)
                  :: listing_events redundancy_period_days
                       (stale_list (now w) redundancy_period_days d)
                  ++ [EDisk (Raise e); EPrint (fatal_message e)])
| backup_gate_closed d q :
    get_alias w h = Ok d ->
    disk_percent w (at_gate h d) = Ok q ->
    Qgtb q (inject_Z disk_usage_threshold) = true ->
    backup_run h (EGetAlias (Ok d)
                  :: listing_events redundancy_period_days
                       (stale_list (now w) redundancy_period_days d)
                  ++ [EDisk (Ok q); EPrint (MsgDiskBefore disk_usage_threshold)])
| backup_processed d q evs f :
    get_alias w h = Ok d ->
    disk_percent w (at_gate h d) = Ok q ->
    Qgtb q (inject_Z disk_usage_threshold) = false ->
    loop_run w repository_name disk_usage_threshold snapshot_retry_interval
             snapshot_max_retries (now w) (at_gate h d ++ [EDisk (Ok q)])
             (stale_list (now w) redundancy_period_days d) evs f ->
    backup_run h (EGetAlias (Ok d)
                  :: listing_events redundancy_period_days
                       (stale_list (now w) redundancy_period_days d)
                  ++ EDisk (Ok q) :: evs).

(** The events of the loop of lines 176-183, entered with history [h]. *)
Fixpoint delete_events (h : history) (l : list (string * datetime)) : list event :=
  match l with
  | [] => []
  | (i, _) :: rest =>
      let evs := [EDelete i (indices_delete w h i);
                  EPrint (delete_message i (indices_delete w h i))] in
      evs ++ delete_events (h ++ evs) rest
  end.

(** The events [list_delete_old_indices] adds to the history [h]. *)
Definition delete_run_events (h : history) : list event :=
  match get_alias w h with
  | Raise e => [EGetAlias (Raise e); EPrint (fatal_message e)]
  | Ok d =>
      EGetAlias (Ok d)
      :: listing_events redundancy_period_days
           (stale_list (now w) redundancy_period_days d)
      ++ delete_events (at_gate h d) (stale_list (now w) redundancy_period_days d)
  end.

End WholeRunRelations.

(** A run of either function starts from the empty history. *)
Definition backup_trace (w : World) (repository_name : string)
    (redundancy_period_days disk_usage_threshold : Z)
    (snapshot_retry_interval snapshot_max_retries : Z) : history :=
  fst (list_backup_delete_old_indices w repository_name redundancy_period_days
         disk_usage_threshold snapshot_retry_interval snapshot_max_retries []).

Definition delete_trace (w : World) (days_ : Z) : history :=
  fst (list_delete_old_indices w days_ []).

(** The exception [e] leaves the function and reaches its caller. *)
Definition propagates_to_caller (run : history * Res unit) (e : exn) : Prop :=
  snd run = Raise e.

(** ** What a history shows *)

Definition is_delete (e : event) : bool :=
  match e with EDelete _ _ => true | _ => false end.

Definition is_status (e : event) : bool :=
  match e with EStatus _ _ _ => true | _ => false end.

(** The indices for which a snapshot was requested, in the order of the
    requests, and those for which a delete was requested. *)
Definition created_names (t : list event) : list string :=
  flat_map (fun e => match e with ECreate _ _ i _ => [i] | _ => [] end) t.

Definition deleted_names (t : list event) : list string :=
  flat_map (fun e => match e with EDelete i _ => [i] | _ => [] end) t.

(** [observes_state s st e]: [e] is a status poll of snapshot [s] that
    reported the state [st]. *)
Definition observes_state (s st : string) (e : event) : Prop :=
  match e with
  | EStatus _ s' (Ok resp) => s' = s /\ status_state resp = Ok st
  | _ => False
  end.

(** [refers cd j e]: the event [e] concerns the index [j] (or its snapshot,
    named with the batch timestamp [cd]). *)
Definition refers (cd : datetime) (j : string) (e : event) : Prop :=
  match e with
  | ECreate _ _ k _ => k = j
  | EDelete k _ => k = j
  | EStatus _ s _ => s = snapshot_name_of cd j
  | EPrint (MsgIndex k)
  | EPrint (MsgSnapshotCreated k _)
  | EPrint (MsgTimedOut k)
  | EPrint (MsgDeletedAfterSnapshot k)
  | EPrint (MsgDiskAfter _ k)
  | EPrint (MsgFailedSnapshot k _)
  | EPrint (MsgErrorProcessing k _)
  | EPrint (MsgDeleted k)
  | EPrint (MsgFailedDelete k _)
  | EPrint (MsgErrorDeleting k _) => k = j
  | EPrint (MsgWaiting s) => s = snapshot_name_of cd j
  | _ => False
  end.

(** [failure_event cd i e]: the event [e] shows a failure of the processing
    of index [i]: its snapshot request rejected, a poll of its snapshot
    that reported FAILED or PARTIAL, its polling timed out, or its delete
    rejected. *)
Definition failure_event (cd : datetime) (i : string) (e : event) : Prop :=
  match e with
  | ECreate _ _ k (Raise _) => k = i
  | EStatus _ s (Ok resp) =>
      s = snapshot_name_of cd i
      /\ exists st, status_state resp = Ok st /\ failed_state st
  | EPrint (MsgTimedOut k) => k = i
  | EDelete k (Raise _) => k = i
  | _ => False
  end.

(** Events that only the loop of lines 80-131 makes: calls to the cluster,
    sleeps and the time-out line. *)
Definition loop_event (e : event) : bool :=
  match e with
  | ECreate _ _ _ _ | EStatus _ _ _ | ESleep _ | EDelete _ _ => true
  | EPrint (MsgTimedOut _) => true
  | _ => false
  end.

(** The events of the waiter: polls of the snapshot, waiting lines, sleeps. *)
Definition wait_event (repository_name : string) (snapshot_retry_interval : Z)
    (cd : datetime) (i : string) (e : event) : Prop :=
  (exists r, e = EStatus repository_name (snapshot_name_of cd i) r)
  \/ e = EPrint (MsgWaiting (snapshot_name_of cd i))
  \/ e = ESleep snapshot_retry_interval.

(** A day of the calendar at midnight, as [strptime] returns them. *)
Definition calendar_day (t : datetime) : Prop :=
  1 <= month t <= 12
  /\ 1 <= day t <= days_in_month (year t) (month t)
  /\ hour t = 0 /\ minute t = 0 /\ second t = 0 /\ microsecond t = 0.

(** ** Counting the calls of a history *)

Definition is_get_alias (e : event) : bool :=
  match e with EGetAlias _ => true | _ => false end.

Definition is_disk (e : event) : bool :=
  match e with EDisk _ => true | _ => false end.

Definition is_create (e : event) : bool :=
  match e with ECreate _ _ _ _ => true | _ => false end.

Definition is_sleep (e : event) : bool :=
  match e with ESleep _ => true | _ => false end.

Definition is_print (e : event) : bool :=
  match e with EPrint _ => true | _ => false end.

(** A delete request that the cluster acknowledged. *)
Definition is_deleted (e : event) : bool :=
  match e with EDelete _ (Ok _) => true | _ => false end.

Definition count (p : event -> bool) (t : list event) : nat :=
  List.length (filter p t).

(** The seconds slept. *)
Definition slept (t : list event) : Z :=
  fold_right (fun e acc => match e with ESleep secs => secs + acc | _ => acc end)
             0 t.

(** ** Clusters and listings used as examples *)

Definition boundary_dict : dict :=
  mkdict [("logs-2023.10.03", []); ("logs-2023.10.02", [])] eq_refl.

Definition scenario_dict : dict :=
  mkdict [("logs-2023.06.01", []); ("metrics-bad-name", []); ("logs-2023.01.01", [])]
         eq_refl.

(** A cluster that lists [scenario_dict] at noon of 2024-01-01, acknowledges
    every request and reports every snapshot as done at once, with a disk
    half full. *)
Definition scenario_world : World :=
  mkWorld (mkdt 2024 1 1 12 0 0 0)
          (fun _ => Ok scenario_dict)
          (fun _ => Ok (50 # 1)%Q)
          (fun _ _ _ _ => Ok tt)
          (fun _ _ _ => Ok (mkstatus (Some [mksnap (Some "SUCCESS")])))
          (fun _ _ => Ok tt).

(** The same cluster with a disk 96% full. *)
Definition full_disk_world : World :=
  mkWorld (mkdt 2024 1 1 12 0 0 0)
          (fun _ => Ok scenario_dict)
          (fun _ => Ok (96 # 1)%Q)
          (fun _ _ _ _ => Ok tt)
          (fun _ _ _ => Ok (mkstatus (Some [mksnap (Some "SUCCESS")])))
          (fun _ _ => Ok tt).

(** A cluster that cannot be reached: every call raises [ConnectionError]. *)
Definition unreachable_world : World :=
  mkWorld (mkdt 2024 1 1 12 0 0 0)
          (fun _ => Raise ConnectionError)
          (fun _ => Ok (50 # 1)%Q)
          (fun _ _ _ _ => Raise ConnectionError)
          (fun _ _ _ => Raise ConnectionError)
          (fun _ _ => Raise ConnectionError).

(** A cluster whose snapshots stay in progress for ever. *)
Definition stuck_world : World :=
  mkWorld (mkdt 2024 1 1 12 0 0 0)
          (fun _ => Ok scenario_dict)
          (fun _ => Ok (50 # 1)%Q)
          (fun _ _ _ _ => Ok tt)
          (fun _ _ _ => Ok (mkstatus (Some [mksnap (Some "IN_PROGRESS")])))
          (fun _ _ => Ok tt).

(** A cluster whose snapshots are reported PARTIAL at the first poll. *)
Definition partial_world : World :=
  mkWorld (mkdt 2024 1 1 12 0 0 0)
          (fun _ => Ok scenario_dict)
          (fun _ => Ok (50 # 1)%Q)
          (fun _ _ _ _ => Ok tt)
          (fun _ _ _ => Ok (mkstatus (Some [mksnap (Some "PARTIAL")])))
          (fun _ _ => Ok tt).

(** A cluster whose disk is above 90% once something was done after the
    gate of line 73: the sample depends on the history. *)
Definition filling_world : World :=
  mkWorld (mkdt 2024 1 1 12 0 0 0)
          (fun _ => Ok scenario_dict)
          (fun h => if (List.length h <=? 4)%nat then Ok (50 # 1)%Q
                    else Ok (96 # 1)%Q)
          (fun _ _ _ _ => Ok tt)
          (fun _ _ _ => Ok (mkstatus (Some [mksnap (Some "SUCCESS")])))
          (fun _ _ => Ok tt).

(** A cluster with one index, whose month and day have one digit. *)
Definition short_date_dict : dict := mkdict [("a-2023.1.1", [])] eq_refl.

Definition short_date_world : World :=
  mkWorld (mkdt 2024 1 1 12 0 0 0)
          (fun _ => Ok short_date_dict)
          (fun _ => Ok (50 # 1)%Q)
          (fun _ _ _ _ => Ok tt)
          (fun _ _ _ => Ok (mkstatus (Some [mksnap (Some "SUCCESS")])))
          (fun _ _ => Ok tt).

(** The digit three of full width (U+FF13) and the Arabic-Indic digit five
    (U+0665), in UTF-8. *)
Definition fullwidth_three : string :=
  String (ascii_of_nat 239) (String (ascii_of_nat 188)
    (String (ascii_of_nat 147) EmptyString)).

Definition arabic_indic_five : string :=
  String (ascii_of_nat 217) (String (ascii_of_nat 165) EmptyString).

(** Two indices with the same date token. *)
Definition same_token_dict : dict :=
  mkdict [("logs-2023.01.01", []); ("metrics-2023.01.01", [])] eq_refl.

(** A constructor that builds a client for any host but the empty one. *)
Definition scenario_constructor : client_constructor :=
  fun host _ _ _ =>
    if String.eqb host "" then Raise OtherException else Ok scenario_world.

(** ** The start-up of main *)

Definition raised {A} (r : CRes A) : option startup_exn :=
  match r with
  | COk _ => None
  | CRaise e => Some e
  end.

(** The outcomes of the eight reads of lines 212-219, in the order of the
    source. *)
Definition setting_reads (s : Startup) : list (option startup_exn) :=
  [ raised (config_get s "OpenSearch" "host");
    raised (config_getint s "OpenSearch" "port");
    raised (config_get s "OpenSearch" "username");
    raised (config_get s "OpenSearch" "password");
    raised (config_get s "OpenSearch" "repository_name");
    raised (config_getint s "Snapshot" "snapshot_retry_interval");
    raised (config_getint s "Snapshot" "snapshot_max_retries");
    raised (config_getint s "Snapshot" "disk_usage_threshold") ].

(** The exception of the first read that raises, if one does. *)
Definition first_error (s : Startup) : option startup_exn :=
  fold_right (fun r later => match r with Some e => Some e | None => later end)
             None (setting_reads s).

Definition is_core (ev : main_event) : bool :=
  match ev with Core _ => true | MPrint _ => false end.


(** The events of the function that [action] selects, run from an empty
    history with the values of the configuration. *)
Definition selected_trace (w : World) (st : settings) (days_ : Z)
    (action : string) : history :=
  if String.eqb action "backup_delete" then
    backup_trace w (repository_name st) days_ (disk_usage_threshold st)
                 (snapshot_retry_interval st) (snapshot_max_retries st)
  else if String.eqb action "delete" then delete_trace w days_
  else [].

(** A complete config.ini. *)
Definition complete_config_get (section option : string) : CRes string :=
  if String.eqb section "OpenSearch" then
    if String.eqb option "host" then COk "10.0.0.5"
    else if String.eqb option "username" then COk "admin"
    else if String.eqb option "password" then COk "secret"
    else if String.eqb option "repository_name" then COk "repo"
    else CRaise NoOptionError
  else CRaise NoSectionError.

Definition complete_config_getint (section option : string) : CRes Z :=
  if String.eqb section "OpenSearch" then
    if String.eqb option "port" then COk 9200 else CRaise NoOptionError
  else if String.eqb section "Snapshot" then
    if String.eqb option "snapshot_retry_interval" then COk 5
    else if String.eqb option "snapshot_max_retries" then COk 3
    else if String.eqb option "disk_usage_threshold" then COk 90
    else CRaise NoOptionError
  else CRaise NoSectionError.

(** [--days 90 --action delete] with a complete config.ini. *)
Definition delete_startup : Startup :=
  mkStartup (fun _ => true) (fun _ => COk tt)
            complete_config_get complete_config_getint
            (Args 90 "delete").

(** The same command line with a config.ini whose port is no integer. *)
Definition bad_port_startup : Startup :=
  mkStartup (fun _ => true) (fun _ => COk tt)
            complete_config_get
            (fun section option =>
               if String.eqb option "port" then CRaise OtherStartupError
               else complete_config_getint section option)
            (Args 90 "delete").

(* ------------------------------------------------------------------ *)
(** * Properties *)

Ltac norm_hist := repeat (progress (repeat rewrite <- app_assoc; cbn [app])).

(** ** The embedding at work *)

Example rsplit_last_examples :
  rsplit_last "logs-2023.01.01" = "2023.01.01"
  /\ rsplit_last "metrics-bad-name" = "name"
  /\ rsplit_last "nohyphen" = "nohyphen"
  /\ rsplit_last "trailing-" = "".
Proof. repeat split. Qed.

(** [strptime] takes months and days of one digit and a day padded with a
    space; it refuses text after the day, a day the month does not have and
    the year 0. *)
Example strptime_examples :
  strptime "2023.01.01" = Ok (mkdt 2023 1 1 0 0 0 0)
  /\ strptime "2023.1.5" = Ok (mkdt 2023 1 5 0 0 0 0)
  /\ strptime "2023.01. 5" = Ok (mkdt 2023 1 5 0 0 0 0)
  /\ strptime "2024.02.29" = Ok (mkdt 2024 2 29 0 0 0 0)
  /\ strptime "2023.02.29" = Raise ValueError
  /\ strptime "2023.01.011" = Raise ValueError
  /\ strptime "2023.13.01" = Raise ValueError
  /\ strptime "0000.01.01" = Raise ValueError
  /\ strptime "name" = Raise ValueError.
Proof. repeat split. Qed.

(** [\d] takes the decimal digits of every script: in the year and as the
    second digit of a day from 10 to 29, and nowhere else. *)
Example strptime_unicode_digits :
  strptime (String.append "202" (String.append fullwidth_three ".01.01"))
  = Ok (mkdt 2023 1 1 0 0 0 0)
  /\ strptime (String.append "2023.01.2" arabic_indic_five)
     = Ok (mkdt 2023 1 25 0 0 0 0)
  /\ strptime (String.append "2023.01.0" arabic_indic_five) = Raise ValueError
  /\ strptime (String.append "2023.0" (String.append fullwidth_three ".01"))
     = Raise ValueError.
Proof. repeat split. Qed.

Example sleep_refusal_examples :
  sleep_refusal 5 = None
  /\ sleep_refusal 0 = None
  /\ sleep_refusal (-1) = Some ValueError
  /\ sleep_refusal 9223372036 = None
  /\ sleep_refusal 9223372037 = Some OverflowError
  /\ sleep_refusal (-9223372037) = Some OverflowError.
Proof. repeat split. Qed.

(** With an empty host no client is built: the function prints the line of
    line 140 (192) and calls nothing; with a host it runs with the
    client. *)
Example entry_examples :
  Entry.list_delete_old_indices scenario_constructor "" 9200 "admin" "secret"
    90 []
  = ([EPrint (MsgErrorRetrieving OtherException)], Ok tt)
  /\ Entry.list_backup_delete_old_indices scenario_constructor "" 9200 "admin"
       "secret" "repo" 90 90 5 3 []
     = ([EPrint (MsgErrorRetrieving OtherException)], Ok tt)
  /\ Entry.list_delete_old_indices scenario_constructor "10.0.0.5" 9200
       "admin" "secret" 90 []
     = list_delete_old_indices scenario_world 90 [].
Proof. repeat split. Qed.

Example toordinal_examples :
  toordinal (mkdt 1 1 1 0 0 0 0) = 1
  /\ toordinal (mkdt 2024 1 1 0 0 0 0) = 738886
  /\ sub (mkdt 2024 1 1 12 30 0 0) (mkdt 2023 6 1 0 0 0 0) = mktd 214 45000 0
  /\ sub (mkdt 2023 6 1 0 0 0 0) (mkdt 2023 6 1 0 0 0 1) = mktd (-1) 86399 999999.
Proof. repeat split. Qed.

(** Indices of June and January 2023 and one without a date, on
    2024-01-01 with a threshold of 90 days: the dated ones are stale, the
    oldest first. *)
Example stale_list_example :
  backup_old_indices (mkdt 2024 1 1 12 0 0 0) 90 scenario_dict
  = Ok [("logs-2023.01.01", mkdt 2023 1 1 0 0 0 0);
        ("logs-2023.06.01", mkdt 2023 6 1 0 0 0 0)].
Proof. reflexivity. Qed.

(** The delete mode on the same listing: one delete call for each stale
    index, no snapshot call. *)
Example delete_run_example :
  list_delete_old_indices scenario_world 90 []
  = ([EGetAlias (Ok scenario_dict);
      EPrint (MsgOlderThan 90);
      EPrint (MsgIndex "logs-2023.01.01");
      EPrint (MsgIndex "logs-2023.06.01");
      EDelete "logs-2023.01.01" (Ok tt);
      EPrint (MsgDeleted "logs-2023.01.01");
      EDelete "logs-2023.06.01" (Ok tt);
      EPrint (MsgDeleted "logs-2023.06.01")],
     Ok tt).
Proof. reflexivity. Qed.

(** The backup mode when the first poll reports PARTIAL: no delete. *)
Example partial_run_example :
  created_names (backup_trace partial_world "repo" 90 90 5 3)
  = ["logs-2023.01.01"; "logs-2023.06.01"]
  /\ deleted_names (backup_trace partial_world "repo" 90 90 5 3) = []
  /\ snapshot_name_of (now partial_world) "logs-2023.01.01"
     = "snapshot-logs-2023.01.01-20240101120000".
Proof. repeat split. Qed.

(** ** The comparison of datetimes is a total order *)

Lemma lex_cmp_refl (a : list Z) : lex_cmp a a = Eq.
Proof.
  induction a as [|x a IH]; simpl; [reflexivity|].
  now rewrite Z.compare_refl.
Qed.

Lemma lex_cmp_eq (a b : list Z) : lex_cmp a b = Eq -> a = b.
Proof.
  revert b; induction a as [|x a IH]; intros [|y b] H; simpl in H;
    try discriminate; [reflexivity|].
  destruct (Z.compare_spec x y) as [E|L|G]; try discriminate.
  subst y. f_equal. now apply IH.
Qed.

Lemma lex_cmp_antisym (a b : list Z) : lex_cmp b a = CompOpp (lex_cmp a b).
Proof.
  revert b; induction a as [|x a IH]; intros [|y b]; simpl; try reflexivity.
  rewrite (Z.compare_antisym x y).
  destruct (x ?= y); simpl; auto.
Qed.

Lemma lex_cmp_lt_trans (a b c : list Z) :
  lex_cmp a b = Lt -> lex_cmp b c = Lt -> lex_cmp a c = Lt.
Proof.
  revert b c; induction a as [|x a IH]; intros [|y b] [|z c] H1 H2;
    simpl in *; try discriminate; try reflexivity.
  destruct (Z.compare_spec x y) as [E1|L1|G1]; try discriminate;
  destruct (Z.compare_spec y z) as [E2|L2|G2]; try discriminate.
  - subst. rewrite Z.compare_refl. eauto.
  - subst. now apply Z.compare_lt_iff in L2 as ->.
  - subst. now apply Z.compare_lt_iff in L1 as ->.
  - assert (L : x < z) by lia. now apply Z.compare_lt_iff in L as ->.
Qed.

Lemma ltb_irrefl (a : datetime) : Datetime.ltb a a = false.
Proof. unfold Datetime.ltb, cmp. now rewrite lex_cmp_refl. Qed.

Lemma ltb_asym (a b : datetime) :
  Datetime.ltb a b = true -> Datetime.ltb b a = false.
Proof.
  unfold Datetime.ltb, cmp. rewrite (lex_cmp_antisym (to_tuple a)).
  destruct (lex_cmp (to_tuple a) (to_tuple b)); simpl; congruence.
Qed.

(** [a <= b <= c] gives [a <= c], where [x <= y] is "not [y < x]". *)
Lemma leb_trans (a b c : datetime) :
  Datetime.ltb b a = false -> Datetime.ltb c b = false -> Datetime.ltb c a = false.
Proof.
  unfold Datetime.ltb, cmp. intros H1 H2.
  destruct (lex_cmp (to_tuple c) (to_tuple a)) eqn:E; try reflexivity.
  exfalso.
  destruct (lex_cmp (to_tuple b) (to_tuple a)) eqn:E1; try discriminate.
  - apply lex_cmp_eq in E1. rewrite E1, E in H2. discriminate.
  - destruct (lex_cmp (to_tuple c) (to_tuple b)) eqn:E2; try discriminate.
    + apply lex_cmp_eq in E2. rewrite E2 in E. congruence.
    + rewrite lex_cmp_antisym in E1. rewrite lex_cmp_antisym in E2.
      destruct (lex_cmp (to_tuple a) (to_tuple b)) eqn:F1; try discriminate.
      destruct (lex_cmp (to_tuple b) (to_tuple c)) eqn:F2; try discriminate.
      pose proof (lex_cmp_lt_trans _ _ _ F1 F2) as F.
      rewrite lex_cmp_antisym, F in E. discriminate.
Qed.

(** ** The sort *)

Lemma insert_by_date_perm x l : Permutation (insert_by_date x l) (x :: l).
Proof.
  induction l as [|y l IH]; simpl; [reflexivity|].
  destruct (Datetime.ltb (snd y) (snd x)); [|reflexivity].
  rewrite IH. apply perm_swap.
Qed.

Lemma sort_by_date_perm l : Permutation (sort_by_date l) l.
Proof.
  induction l as [|x l IH]; simpl; [reflexivity|].
  rewrite insert_by_date_perm. now constructor.
Qed.

Lemma insert_by_date_sorted x l :
  StronglySorted date_le l -> StronglySorted date_le (insert_by_date x l).
Proof.
  induction 1 as [|y l Hs IH Hall]; simpl.
  - repeat constructor.
  - destruct (Datetime.ltb (snd y) (snd x)) eqn:E.
    + constructor; [exact IH|].
      rewrite Forall_forall in *. intros z Hz.
      apply (Permutation_in _ (insert_by_date_perm x l)) in Hz.
      destruct Hz as [<-|Hz]; [|auto].
      unfold date_le. now apply ltb_asym.
    + constructor; [now constructor|].
      constructor; [exact E|].
      rewrite Forall_forall in *. intros z Hz.
      unfold date_le in *. eapply leb_trans; [exact E|auto].
Qed.

Lemma sort_by_date_sorted l : StronglySorted date_le (sort_by_date l).
Proof.
  induction l; simpl; [constructor|]. now apply insert_by_date_sorted.
Qed.

(** The sort is stable: entries of equal date keep their order. *)
Lemma insert_by_date_stable (f : string * datetime -> bool) x l :
  (forall y, f y = true -> Datetime.ltb (snd y) (snd x) = false) ->
  filter f (insert_by_date x l) = filter f (x :: l).
Proof.
  intros Hf. induction l as [|y l IH]; [reflexivity|].
  cbn [insert_by_date].
  destruct (Datetime.ltb (snd y) (snd x)) eqn:E; [|reflexivity].
  cbn [filter] in *. rewrite IH.
  destruct (f y) eqn:Fy; [|reflexivity].
  apply Hf in Fy. congruence.
Qed.

Lemma sort_by_date_stable (k : datetime) l :
  let same y := negb (Datetime.ltb (snd y) k) && negb (Datetime.ltb k (snd y)) in
  filter same (sort_by_date l) = filter same l.
Proof.
  intros same. induction l as [|x l IH]; [reflexivity|].
  cbn [sort_by_date filter].
  destruct (same x) eqn:Sx.
  - rewrite insert_by_date_stable.
    + cbn [filter]. now rewrite Sx, IH.
    + intros y Sy. unfold same in Sx, Sy.
      apply andb_prop in Sx as [Sx1 Sx2]. apply andb_prop in Sy as [Sy1 Sy2].
      apply negb_true_iff in Sx1, Sx2, Sy1, Sy2.
      eapply leb_trans; [exact Sx2|exact Sy1].
  - rewrite <- IH. clear IH.
    induction (sort_by_date l) as [|y s IHs]; cbn [insert_by_date filter].
    + now rewrite Sx.
    + destruct (Datetime.ltb (snd y) (snd x)); cbn [filter].
      * rewrite IHs. reflexivity.
      * now rewrite Sx.
Qed.

(** ** The classifier *)

Lemma make_date_raises y m d e : make_date y m d = Raise e -> e = ValueError.
Proof. unfold make_date. destruct (_ && _); congruence. Qed.

(** [strptime] raises nothing but [ValueError]. *)
Lemma strptime_raises s e : strptime s = Raise e -> e = ValueError.
Proof.
  unfold strptime.
  destruct (match_Y _) as [[y s1]|]; [|congruence].
  destruct (match_dot s1) as [s2|]; [|congruence].
  destruct (match_m_dot s2) as [[m s3]|]; [|congruence].
  destruct (match_d s3) as [[d [|c s4]]|]; try congruence.
  apply make_date_raises.
Qed.

(** What [strptime] returns is a date at midnight. *)
Lemma strptime_midnight s t :
  strptime s = Ok t ->
  hour t = 0 /\ minute t = 0 /\ second t = 0 /\ microsecond t = 0.
Proof.
  unfold strptime.
  destruct (match_Y _) as [[y s1]|]; [|congruence].
  destruct (match_dot s1) as [s2|]; [|congruence].
  destruct (match_m_dot s2) as [[m s3]|]; [|congruence].
  destruct (match_d s3) as [[d [|c s4]]|]; try congruence.
  unfold make_date. destruct (_ && _); [|congruence].
  intros [= <-]. simpl. auto.
Qed.

Lemma backup_classify_item_eq now thr old item :
  backup_classify_item now thr old item = Ok (old ++ stale_entry now thr item).
Proof.
  unfold backup_classify_item, stale_entry, except_ValueError, bindR.
  destruct (strptime _) as [cd|e] eqn:E.
  - destruct (_ >? _); [reflexivity|now rewrite app_nil_r].
  - apply strptime_raises in E as ->. now rewrite app_nil_r.
Qed.

Lemma delete_classify_item_eq now thr old item :
  delete_classify_item now thr old item = Ok (old ++ stale_entry now thr item).
Proof.
  unfold delete_classify_item, stale_entry, except_ValueError, bindR.
  destruct (strptime _) as [cd|e] eqn:E.
  - destruct (_ >? _); [reflexivity|now rewrite app_nil_r].
  - apply strptime_raises in E as ->. now rewrite app_nil_r.
Qed.

Lemma backup_classify_eq now thr its old :
  backup_classify now thr its old = Ok (old ++ flat_map (stale_entry now thr) its).
Proof.
  revert old; induction its as [|item its IH]; intros old; simpl.
  - now rewrite app_nil_r.
  - rewrite backup_classify_item_eq. simpl. rewrite IH. now rewrite <- app_assoc.
Qed.

Lemma delete_classify_eq now thr its old :
  delete_classify now thr its old = Ok (old ++ flat_map (stale_entry now thr) its).
Proof.
  revert old; induction its as [|item its IH]; intros old; simpl.
  - now rewrite app_nil_r.
  - rewrite delete_classify_item_eq. simpl. rewrite IH. now rewrite <- app_assoc.
Qed.

Lemma backup_old_indices_eq now thr d :
  backup_old_indices now thr d = Ok (stale_list now thr d).
Proof. unfold backup_old_indices. now rewrite backup_classify_eq. Qed.

Lemma delete_old_indices_eq now thr d :
  delete_old_indices now thr d = Ok (stale_list now thr d).
Proof. unfold delete_old_indices. now rewrite delete_classify_eq. Qed.

Lemma in_stale_list now thr d name cd :
  In (name, cd) (stale_list now thr d) <->
  (exists info, In (name, info) (items d)) /\
  strptime (rsplit_last name) = Ok cd /\
  days (sub now cd) > thr.
Proof.
  unfold stale_list. split.
  - intros H. apply (Permutation_in _ (sort_by_date_perm _)) in H.
    apply in_flat_map in H as [[n info] [Hin Hs]].
    unfold stale_entry in Hs. cbn [fst] in Hs.
    destruct (strptime (rsplit_last n)) as [c|] eqn:E; [|contradiction].
    destruct (_ >? _) eqn:G; [|contradiction].
    destruct Hs as [[= -> ->]|[]].
    rewrite Z.gtb_ltb in G. apply Z.ltb_lt in G.
    split; [eauto|]. split; [assumption|lia].
  - intros [[info Hin] [E G]].
    apply (Permutation_in _ (Permutation_sym (sort_by_date_perm _))).
    apply in_flat_map. exists (name, info). split; [assumption|].
    unfold stale_entry. cbn [fst]. rewrite E.
    assert (G' : (days (sub now cd) >? thr) = true)
      by (rewrite Z.gtb_ltb; apply Z.ltb_lt; lia).
    rewrite G'. now left.
Qed.

Lemma in_stale_names now thr d name :
  In name (map fst (stale_list now thr d)) ->
  exists cd, In (name, cd) (stale_list now thr d).
Proof.
  intros H. apply in_map_iff in H as [[n cd] [E H]]. simpl in E. subst n. eauto.
Qed.

Lemma distinct_NoDup l : distinct l = true -> NoDup l.
Proof.
  induction l as [|x l IH]; simpl; intros H; [constructor|].
  apply andb_prop in H as [H1 H2]. constructor; [|auto].
  intros Hin. apply negb_true_iff in H1.
  assert (existsb (String.eqb x) l = true); [|congruence].
  apply existsb_exists. exists x. split; [assumption|apply String.eqb_refl].
Qed.

Lemma stale_entries_NoDup now thr its :
  NoDup (map fst its) -> NoDup (map fst (flat_map (stale_entry now thr) its)).
Proof.
  induction its as [|[n info] its IH]; simpl; intros H; [constructor|].
  inversion H as [|? ? Hn Hr]; subst.
  rewrite map_app. unfold stale_entry at 1. simpl.
  destruct (strptime _); [|simpl; auto].
  destruct (_ >? _); [|simpl; auto].
  simpl. constructor; [|auto].
  intros Hin. apply Hn.
  apply in_map_iff in Hin as [[m cd] [E Hin]]. simpl in E. subst m.
  apply in_flat_map in Hin as [[m info'] [Hin Hs]].
  unfold stale_entry in Hs. cbn [fst] in Hs.
  destruct (strptime _); [|contradiction].
  destruct (_ >? _); [|contradiction].
  destruct Hs as [[= -> _]|[]].
  apply in_map_iff. now exists (n, info').
Qed.

(** The names of the stale list are pairwise distinct. *)
Lemma stale_list_NoDup now thr d : NoDup (map fst (stale_list now thr d)).
Proof.
  unfold stale_list.
  eapply Permutation_NoDup.
  - apply Permutation_map. apply Permutation_sym, sort_by_date_perm.
  - apply stale_entries_NoDup. apply distinct_NoDup, keys_distinct.
Qed.

Lemma sorted_suffix (l1 l2 : list (string * datetime)) :
  StronglySorted date_le (l1 ++ l2) -> StronglySorted date_le l2.
Proof.
  induction l1 as [|x l1 IH]; simpl; [auto|].
  intros H. apply StronglySorted_inv in H as [H _]. auto.
Qed.

(** In a list sorted by date, an entry of strictly earlier date comes first. *)
Lemma sorted_precedes l A B :
  StronglySorted date_le l -> In A l -> In B l ->
  Datetime.ltb (snd A) (snd B) = true ->
  exists l1 l2 l3, l = l1 ++ A :: l2 ++ B :: l3.
Proof.
  intros Hs HA HB Hlt.
  apply in_split in HA as [l1 [l2 ->]].
  apply in_app_or in HB as [HB|[HB|HB]].
  - exfalso. apply in_split in HB as [m1 [m2 ->]].
    rewrite <- app_assoc in Hs. simpl in Hs.
    apply sorted_suffix in Hs.
    apply StronglySorted_inv in Hs as [_ Hall].
    rewrite Forall_forall in Hall.
    specialize (Hall A). unfold date_le in Hall.
    rewrite Hall in Hlt; [discriminate|].
    apply in_or_app. right. now left.
  - subst B. rewrite ltb_irrefl in Hlt. discriminate.
  - apply in_split in HB as [m1 [m2 ->]]. now exists l1, m1, m2.
Qed.

(** ** The functions run as the relations say *)

Section Runs.

Variable w : World.
Variable repository_name : string.
Variables disk_usage_threshold snapshot_retry_interval snapshot_max_retries : Z.
Variable current_date : datetime.

Local Abbreviation snap := (snapshot_name_of current_date).
Local Abbreviation wait_run := (wait_run w repository_name snapshot_retry_interval
                               snapshot_max_retries current_date).
Local Abbreviation body_run := (body_run w repository_name disk_usage_threshold
                               snapshot_retry_interval snapshot_max_retries current_date).
Local Abbreviation loop_run := (loop_run w repository_name disk_usage_threshold
                               snapshot_retry_interval snapshot_max_retries current_date).
Local Abbreviation created := (created repository_name current_date).

Lemma state_cases (st : string) :
  st = "SUCCESS" \/ failed_state st \/ in_progress st.
Proof.
  unfold failed_state, in_progress.
  destruct (String.eqb_spec st "SUCCESS"); [auto|].
  destruct (String.eqb_spec st "FAILED"); [auto|].
  destruct (String.eqb_spec st "PARTIAL"); auto.
Qed.

(** The loop ends, and [max - retries] iterations of fuel are enough. *)
Lemma wait_for_snapshot_run (i : string) (fuel : nat) :
  forall h r,
    (Z.to_nat (snapshot_max_retries - r) <= fuel)%nat ->
    exists evs res,
      wait_for_snapshot w repository_name snapshot_retry_interval
        snapshot_max_retries fuel i (snap i) r h = (h ++ evs, res)
      /\ wait_run i h r evs res.
Proof.
  induction fuel as [|fuel IH]; intros h r Hfuel.
  - exists [], (Ok r). split; [cbn; now rewrite app_nil_r|].
    apply wait_exhausted. lia.
  - cbn [wait_for_snapshot].
    destruct (r <? snapshot_max_retries) eqn:Hc.
    2:{ exists [], (Ok r). split; [cbn; now rewrite app_nil_r|].
        apply wait_exhausted. apply Z.ltb_ge in Hc. lia. }
    apply Z.ltb_lt in Hc.
    unfold bind at 1, snapshot_status_call.
    destruct (snapshot_status w h repository_name (snap i)) as [resp|e] eqn:Hs.
    2:{ eexists _, _. split; [reflexivity|]. now apply wait_status_raised. }
    unfold bind at 1, lift.
    destruct (status_state resp) as [st|e] eqn:Hst.
    2:{ eexists _, _. split; [reflexivity|]. now apply wait_malformed. }
    destruct (state_cases st) as [->|[Hf|Hp]].
    + cbn. eexists _, _. split; [reflexivity|]. now apply wait_success.
    + assert (String.eqb st "SUCCESS" = false) as ->
        by (destruct Hf as [-> | ->]; reflexivity).
      assert (String.eqb st "FAILED" || String.eqb st "PARTIAL" = true) as ->
        by (destruct Hf as [-> | ->]; reflexivity).
      eexists _, _. split; [reflexivity|]. now apply wait_failed with (st := st).
    + pose proof Hp as (P1 & P2 & P3).
      apply String.eqb_neq in P1, P2, P3. rewrite P1, P2, P3. cbn [orb].
      unfold bind at 1, print, emit.
      unfold bind at 1, sleep.
      destruct (sleep_refusal snapshot_retry_interval) as [e|] eqn:Hi.
      * unfold raise. norm_hist.
        eexists _, _. split; [reflexivity|].
        now apply wait_sleep_refused with (st := st).
      * unfold emit. norm_hist.
        destruct (IH (h ++ [EStatus repository_name (snap i) (Ok resp);
                            EPrint (MsgWaiting (snap i));
                            ESleep snapshot_retry_interval]) (r + 1))
          as (evs & res & Heq & Hrun); [lia|].
        rewrite Heq. norm_hist.
        eexists _, _. split; [reflexivity|].
        now apply wait_again with (st := st).
Qed.

Lemma process_index_run (i : string) (h : history) :
  exists evs f,
    process_index w repository_name disk_usage_threshold snapshot_retry_interval
      snapshot_max_retries current_date i h = (h ++ evs, Ok f)
    /\ body_run i h evs f.
Proof.
  unfold process_index, try_except. fold (snap i).
  unfold bind at 1, snapshot_create_call.
  destruct (snapshot_create w h repository_name (snap i) i) as [[]|e] eqn:Hc.
  2:{ exists [ECreate repository_name (snap i) i (Raise e);
              EPrint (failure_message i e)], Next.
      split; [|now apply body_create_rejected].
      destruct e; cbn; unfold created, deleted; norm_hist; reflexivity. }
  unfold bind at 1, print, emit.
  unfold bind at 1.
  destruct (wait_for_snapshot_run i (Z.to_nat snapshot_max_retries)
              ((h ++ [ECreate repository_name (snap i) i (Ok tt)])
                 ++ [EPrint (MsgSnapshotCreated i (snap i))]) 0)
    as (evs & res & Heq & Hrun); [lia|].
  rewrite Heq. clear Heq.
  replace ((h ++ [ECreate repository_name (snap i) i (Ok tt)])
             ++ [EPrint (MsgSnapshotCreated i (snap i))])
    with (h ++ created i) in * by (unfold created; now norm_hist).
  destruct res as [r|e].
  2:{ exists (created i ++ evs ++ [EPrint (failure_message i e)]), Next.
      split; [|now apply body_wait_raised].
      destruct e; cbn; unfold created, deleted; norm_hist; reflexivity. }
  destruct (r >=? snapshot_max_retries) eqn:Hr.
  { exists (created i ++ evs ++ [EPrint (MsgTimedOut i)]), Next.
    split; [cbn; unfold created, deleted; norm_hist; reflexivity|].
    apply body_timed_out with (r := r); auto.
    rewrite Z.geb_leb in Hr. now apply Z.leb_le in Hr. }
  assert (Hlt : r < snapshot_max_retries)
    by (rewrite Z.geb_leb in Hr; apply Z.leb_gt in Hr; lia).
  unfold bind at 1, indices_delete_call.
  replace ((h ++ created i) ++ evs) with (h ++ created i ++ evs)
    by now rewrite app_assoc.
  destruct (indices_delete w (h ++ created i ++ evs) i) as [[]|e] eqn:Hd.
  2:{ exists (created i ++ evs
              ++ [EDelete i (Raise e); EPrint (failure_message i e)]), Next.
      split; [|now apply body_delete_rejected with (r := r)].
      destruct e; cbn; unfold created, deleted; norm_hist; reflexivity. }
  unfold bind at 1, print, emit.
  unfold bind at 1, check_disk_space.
  replace (((h ++ created i ++ evs) ++ [EDelete i (Ok tt)])
             ++ [EPrint (MsgDeletedAfterSnapshot i)])
    with (h ++ created i ++ evs ++ deleted i)
    by (unfold deleted; now norm_hist).
  destruct (disk_percent w (h ++ created i ++ evs ++ deleted i)) as [q|e] eqn:Hq.
  2:{ exists (created i ++ evs ++ deleted i
              ++ [EDisk (Raise e); EPrint (failure_message i e)]), Next.
      split; [|now apply body_disk_raised with (r := r)].
      destruct e; cbn; unfold created, deleted; norm_hist; reflexivity. }
  destruct (Qgtb q (inject_Z disk_usage_threshold)) eqn:Hg.
  - exists (created i ++ evs ++ deleted i
            ++ [EDisk (Ok q); EPrint (MsgDiskAfter disk_usage_threshold i)]), Return.
    split; [cbn; unfold created, deleted; norm_hist; reflexivity|].
    now apply body_disk_exceeded with (r := r).
  - exists (created i ++ evs ++ deleted i ++ [EDisk (Ok q)]), Next.
    split; [cbn; unfold created, deleted; norm_hist; reflexivity|].
    now apply body_done with (r := r).
Qed.

Lemma backup_loop_run (l : list (string * datetime)) :
  forall h, exists evs f,
    backup_loop w repository_name disk_usage_threshold snapshot_retry_interval
      snapshot_max_retries current_date l h = (h ++ evs, Ok f)
    /\ loop_run h l evs f.
Proof.
  induction l as [|[i d] rest IH]; intros h.
  - exists [], Next. split; [cbn; now rewrite app_nil_r|constructor].
  - cbn [backup_loop]. unfold bind at 1.
    destruct (process_index_run i h) as (evs & f & Heq & Hb).
    rewrite Heq. destruct f.
    + destruct (IH (h ++ evs)) as (evs' & f' & Heq' & Hl).
      rewrite Heq'. exists (evs ++ evs'), f'.
      split; [now rewrite app_assoc|]. now apply loop_next.
    + exists evs, Return. split; [reflexivity|]. now apply loop_return.
Qed.

End Runs.

Section WholeRuns.

Variable w : World.
Variable repository_name : string.
Variables disk_usage_threshold snapshot_retry_interval snapshot_max_retries : Z.
Variable redundancy_period_days : Z.

Local Abbreviation at_gate := (at_gate w redundancy_period_days).
Local Abbreviation backup_run := (backup_run w repository_name disk_usage_threshold
    snapshot_retry_interval snapshot_max_retries redundancy_period_days).
Local Abbreviation delete_events := (delete_events w).
Local Abbreviation delete_run_events := (delete_run_events w redundancy_period_days).

Lemma print_indices_run (l : list (string * datetime)) :
  forall h, print_indices l h
            = (h ++ map (fun x => EPrint (MsgIndex (fst x))) l, Ok tt).
Proof.
  induction l as [|[i d] l IH]; intros h; cbn.
  - now rewrite app_nil_r.
  - unfold bind, print, emit. rewrite IH. now norm_hist.
Qed.

Lemma fatal_handler_run (e : exn) (h : history) :
  match e with
  | ConnectionError => print (MsgConnectionError e)
  | AuthorizationException => print (MsgAuthorization e)
  | RequestError => print (MsgRequestError e)
  | _ => print (MsgErrorRetrieving e)
  end h = (h ++ [EPrint (fatal_message e)], Ok tt).
Proof. destruct e; reflexivity. Qed.

Lemma list_backup_delete_old_indices_run (h : history) :
  exists evs,
    list_backup_delete_old_indices w repository_name redundancy_period_days
      disk_usage_threshold snapshot_retry_interval snapshot_max_retries h
    = (h ++ evs, Ok tt)
    /\ backup_run h evs.
Proof.
  unfold list_backup_delete_old_indices, try_except.
  unfold bind at 1, indices_get_alias.
  destruct (get_alias w h) as [d|e] eqn:Hg.
  2:{ rewrite fatal_handler_run. norm_hist.
      eexists. split; [reflexivity|]. now apply backup_listing_failed. }
  unfold bind at 1, lift. rewrite backup_old_indices_eq.
  unfold bind at 1, print, emit.
  unfold bind at 1. rewrite print_indices_run.
  unfold bind at 1, check_disk_space.
  replace (((h ++ [EGetAlias (Ok d)]) ++ [EPrint (MsgOlderThan redundancy_period_days)])
             ++ map (fun x => EPrint (MsgIndex (fst x)))
                  (stale_list (now w) redundancy_period_days d))
    with (at_gate h d) by (unfold at_gate, listing_events; now norm_hist).
  destruct (disk_percent w (at_gate h d)) as [q|e] eqn:Hq.
  2:{ rewrite fatal_handler_run. unfold at_gate. norm_hist.
      eexists. split; [reflexivity|]. now apply backup_disk_failed. }
  destruct (Qgtb q (inject_Z disk_usage_threshold)) eqn:Hgt.
  - unfold print, emit, at_gate. norm_hist.
    eexists. split; [reflexivity|]. now apply backup_gate_closed.
  - unfold bind at 1.
    destruct (backup_loop_run w repository_name disk_usage_threshold
                snapshot_retry_interval snapshot_max_retries (now w)
                (stale_list (now w) redundancy_period_days d)
                (at_gate h d ++ [EDisk (Ok q)])) as (evs & f & Heq & Hl).
    rewrite Heq. unfold ret, at_gate. norm_hist.
    eexists. split; [reflexivity|].
    now apply backup_processed with (f := f).
Qed.

Lemma delete_index_run (i : string) (h : history) :
  delete_index w i h
  = (h ++ [EDelete i (indices_delete w h i);
           EPrint (delete_message i (indices_delete w h i))], Ok tt).
Proof.
  unfold delete_index, try_except, bind, indices_delete_call, print, emit.
  destruct (indices_delete w h i) as [[]|e]; [now norm_hist|].
  destruct e; now norm_hist.
Qed.

Lemma delete_loop_run (l : list (string * datetime)) :
  forall h, delete_loop w l h = (h ++ delete_events h l, Ok tt).
Proof.
  induction l as [|[i d] l IH]; intros h; cbn [delete_loop delete_events].
  - unfold ret. now rewrite app_nil_r.
  - unfold bind. rewrite delete_index_run, IH. now norm_hist.
Qed.

Lemma list_delete_old_indices_run (h : history) :
  list_delete_old_indices w redundancy_period_days h
  = (h ++ delete_run_events h, Ok tt).
Proof.
  unfold list_delete_old_indices, try_except, delete_run_events.
  unfold bind at 1, indices_get_alias.
  destruct (get_alias w h) as [d|e] eqn:Hg.
  2:{ rewrite fatal_handler_run. now norm_hist. }
  unfold bind at 1, lift. rewrite delete_old_indices_eq.
  unfold bind at 1, print, emit.
  unfold bind at 1. rewrite print_indices_run, delete_loop_run.
  unfold at_gate, listing_events. now norm_hist.
Qed.

End WholeRuns.

(** ** Snapshot names *)

Lemma append_inj_l (a x y : string) :
  String.append a x = String.append a y -> x = y.
Proof. induction a as [|c a IH]; simpl; [auto|]. intros [= H]. auto. Qed.

Lemma append_length (a b : string) :
  String.length (String.append a b) = (String.length a + String.length b)%nat.
Proof. induction a as [|c a IH]; simpl; [reflexivity|]. now rewrite IH. Qed.

Lemma append_inj_r (s x y : string) :
  String.append x s = String.append y s -> x = y.
Proof.
  revert y; induction x as [|c x IH]; intros [|c' y] H; simpl in H.
  - reflexivity.
  - exfalso. apply (f_equal String.length) in H. simpl in H.
    rewrite append_length in H. lia.
  - exfalso. apply (f_equal String.length) in H. simpl in H.
    rewrite append_length in H. lia.
  - injection H as -> H. f_equal. auto.
Qed.

(** Distinct indices get distinct snapshot names. *)
Lemma snapshot_name_of_inj cd i j :
  snapshot_name_of cd i = snapshot_name_of cd j -> i = j.
Proof.
  unfold snapshot_name_of. intros H.
  apply append_inj_l in H. now apply append_inj_r in H.
Qed.

Lemma failure_event_refers cd i e : failure_event cd i e -> refers cd i e.
Proof.
  destruct e as [| |? ? ? [|]|? ? [|]| |? [|]|[]]; simpl; tauto.
Qed.

(** ** Facts about the runs *)

Section RunFacts.

Variable w : World.
Variable repository_name : string.
Variables disk_usage_threshold snapshot_retry_interval snapshot_max_retries : Z.
Variable cd : datetime.

Local Abbreviation wait_run := (wait_run w repository_name snapshot_retry_interval
                               snapshot_max_retries cd).
Local Abbreviation body_run := (body_run w repository_name disk_usage_threshold
                               snapshot_retry_interval snapshot_max_retries cd).
Local Abbreviation loop_run := (loop_run w repository_name disk_usage_threshold
                               snapshot_retry_interval snapshot_max_retries cd).
Local Abbreviation wait_event := (wait_event repository_name snapshot_retry_interval cd).

Lemma wait_run_events i h r evs res :
  wait_run i h r evs res -> Forall (wait_event i) evs.
Proof.
  unfold wait_event.
  induction 1;
    repeat match goal with
      | |- Forall _ [] => constructor
      | |- Forall _ (_ :: _) =>
          constructor;
          [first [left; eexists; reflexivity
                 |right; left; reflexivity
                 |right; right; reflexivity]|]
      end;
    assumption.
Qed.

Lemma state_kinds_disjoint (st : string) :
  (st = "SUCCESS" -> failed_state st -> False)
  /\ (st = "SUCCESS" -> in_progress st -> False)
  /\ (failed_state st -> in_progress st -> False).
Proof.
  unfold failed_state, in_progress. repeat split.
  - intros -> [H|H]; discriminate.
  - intros -> (H & _). congruence.
  - intros [-> | ->] (_ & H1 & H2); congruence.
Qed.

(** The world answers as a function of the history, so the waiter has one
    run. *)
Lemma wait_run_deterministic i h r evs res :
  wait_run i h r evs res ->
  forall evs' res', wait_run i h r evs' res' -> evs = evs' /\ res = res'.
Proof.
  induction 1; intros evs' res' H'; inversion H'; subst; try lia;
    repeat match goal with
      | H1 : ?x = Ok _, H2 : ?x = Raise _ |- _ => rewrite H1 in H2; discriminate H2
      | H1 : ?x = Ok _, H2 : ?x = Ok _ |- _ =>
          rewrite H1 in H2; injection H2 as H2; subst
      | H1 : ?x = Raise _, H2 : ?x = Raise _ |- _ =>
          rewrite H1 in H2; injection H2 as H2; subst
      | H1 : ?x = Some _, H2 : ?x = None |- _ => rewrite H1 in H2; discriminate H2
      | H1 : ?x = Some _, H2 : ?x = Some _ |- _ =>
          rewrite H1 in H2; injection H2 as H2; subst
      end;
    try (split; reflexivity);
    try (exfalso;
         match goal with
         | Hf : failed_state ?st, Hp : in_progress ?st |- _ =>
             exact (proj2 (proj2 (state_kinds_disjoint st)) Hf Hp)
         | Hf : failed_state "SUCCESS" |- _ =>
             exact (proj1 (state_kinds_disjoint _) eq_refl Hf)
         | Hp : in_progress "SUCCESS" |- _ =>
             exact (proj1 (proj2 (state_kinds_disjoint _)) eq_refl Hp)
         end).
  match goal with
  | IH : forall evs' res', wait_run _ _ _ evs' res' -> _, Hw : wait_run _ _ _ _ _ |- _ =>
      destruct (IH _ _ Hw) as [-> ->]
  end.
  split; reflexivity.
Qed.

(** Any fuel of at least [max - retries] iterations gives the same run of
    the [while] loop. *)
Lemma wait_for_snapshot_fuel i fuel fuel' h r :
  (Z.to_nat (snapshot_max_retries - r) <= fuel)%nat ->
  (Z.to_nat (snapshot_max_retries - r) <= fuel')%nat ->
  wait_for_snapshot w repository_name snapshot_retry_interval
    snapshot_max_retries fuel i (snapshot_name_of cd i) r h
  = wait_for_snapshot w repository_name snapshot_retry_interval
      snapshot_max_retries fuel' i (snapshot_name_of cd i) r h.
Proof.
  intros H1 H2.
  destruct (wait_for_snapshot_run w repository_name snapshot_retry_interval
              snapshot_max_retries cd i fuel h r H1) as (evs & res & -> & Hr).
  destruct (wait_for_snapshot_run w repository_name snapshot_retry_interval
              snapshot_max_retries cd i fuel' h r H2) as (evs' & res' & -> & Hr').
  destruct (wait_run_deterministic _ _ _ _ _ Hr _ _ Hr') as [-> ->].
  reflexivity.
Qed.

(** With no budget left the waiter does nothing. *)
Lemma wait_run_no_budget i h r evs res :
  wait_run i h r evs res -> snapshot_max_retries <= r ->
  evs = [] /\ res = Ok r.
Proof. destruct 1; intros; try lia. auto. Qed.

(** The waiter leaves the loop below the budget only on a poll that
    reported SUCCESS, and that poll is its last event. *)
Lemma wait_run_success i h r evs r' :
  wait_run i h r evs (Ok r') -> r' < snapshot_max_retries ->
  exists pre resp,
    evs = pre ++ [EStatus repository_name (snapshot_name_of cd i) (Ok resp)]
    /\ status_state resp = Ok "SUCCESS".
Proof.
  intros H. remember (Ok r') as res eqn:E.
  induction H; intros Hlt; try discriminate.
  - injection E as <-. lia.
  - exists [], resp. auto.
  - destruct (IHwait_run E Hlt) as (pre & resp' & -> & Hs).
    exists (EStatus repository_name (snapshot_name_of cd i) (Ok resp)
            :: EPrint (MsgWaiting (snapshot_name_of cd i))
            :: ESleep snapshot_retry_interval :: pre), resp'.
    auto.
Qed.

(** [retries] only grows, and a waiter that ends at or above the budget saw
    no SUCCESS. *)
Lemma wait_run_exhausted i h r evs r' :
  wait_run i h r evs (Ok r') -> snapshot_max_retries <= r' ->
  forall e, In e evs -> ~ observes_state (snapshot_name_of cd i) "SUCCESS" e.
Proof.
  intros H. remember (Ok r') as res eqn:E.
  induction H; intros Hge e0 Hin; try discriminate.
  - contradiction.
  - injection E as <-. lia.
  - destruct Hin as [<-|[<-|[<-|Hin]]]; simpl; try tauto.
    + intros [_ Hs]. rewrite H1 in Hs. injection Hs as ->.
      destruct H2 as [H2 _]. congruence.
    + eauto.
Qed.

(** A poll that reports FAILED or PARTIAL is the last event of the waiter,
    which raises. *)
Lemma wait_run_failed i h r evs res pre post rp s resp st :
  wait_run i h r evs res ->
  evs = pre ++ EStatus rp s (Ok resp) :: post ->
  status_state resp = Ok st -> failed_state st ->
  post = [] /\ res = Raise (SnapshotFailed i st).
Proof.
  intros H. revert pre.
  induction H; intros pre Hev Hst Hf.
  - destruct pre; discriminate.
  - destruct pre as [|? [|? ?]]; discriminate.
  - destruct pre as [|? [|? ?]]; try discriminate.
    injection Hev as _ _ <- <-. congruence.
  - destruct pre as [|? [|? ?]]; try discriminate.
    injection Hev as _ _ <- <-. rewrite H1 in Hst. injection Hst as <-.
    destruct Hf; discriminate.
  - destruct pre as [|? [|? ?]]; try discriminate.
    injection Hev as _ _ <- <-. rewrite H1 in Hst. injection Hst as <-. auto.
  - destruct pre as [|? [|? [|? ?]]]; try discriminate.
    injection Hev as _ _ <- <-. rewrite H1 in Hst. injection Hst as <-.
    destruct H2 as (_ & F1 & F2). destruct Hf; contradiction.
  - destruct pre as [|? [|? [|? pre]]]; try discriminate.
    + injection Hev as _ _ <- _. rewrite H1 in Hst. injection Hst as <-.
      destruct H2 as (_ & F1 & F2). destruct Hf; contradiction.
    + injection Hev as _ _ _ Hev. eauto.
Qed.

Lemma wait_run_refers i h r evs res e j :
  wait_run i h r evs res -> In e evs -> refers cd j e -> j = i.
Proof.
  intros H Hin Hr. apply wait_run_events in H.
  rewrite Forall_forall in H. apply H in Hin.
  destruct Hin as [[x ->]|[->| ->]]; simpl in Hr;
    try contradiction; symmetry; now apply (snapshot_name_of_inj cd).
Qed.

Lemma wait_run_no_create i h r evs res :
  wait_run i h r evs res -> created_names evs = [].
Proof.
  intros H. apply wait_run_events in H.
  induction H as [|e evs He _ IH]; [reflexivity|].
  unfold created_names in *. cbn [flat_map]. rewrite IH.
  destruct He as [[x ->]|[->| ->]]; reflexivity.
Qed.

Lemma wait_run_no_delete i h r evs res e :
  wait_run i h r evs res -> In e evs -> is_delete e = false.
Proof.
  intros H Hin. apply wait_run_events in H.
  rewrite Forall_forall in H. apply H in Hin.
  destruct Hin as [[x ->]|[->| ->]]; reflexivity.
Qed.

(** An iteration concerns its own index only. *)
Lemma body_run_refers i h evs f e j :
  body_run i h evs f -> In e evs -> refers cd j e -> j = i.
Proof.
  intros H Hin Hr.
  destruct H; unfold created, deleted in Hin;
    repeat (apply in_app_or in Hin as [Hin|Hin]);
    try (eapply wait_run_refers; eassumption);
    simpl in Hin;
    repeat match type of Hin with
      | _ \/ _ => destruct Hin as [Hin|Hin]
      | False => contradiction
      end;
    subst e; try (destruct e0); simpl in Hr; try contradiction; congruence.
Qed.

(** An iteration starts with the snapshot request for its index. *)
Lemma body_run_first i h evs f :
  body_run i h evs f ->
  exists r rest,
    evs = ECreate repository_name (snapshot_name_of cd i) i r :: rest.
Proof. destruct 1; simpl; eauto. Qed.

Lemma created_names_app a b :
  created_names (a ++ b) = created_names a ++ created_names b.
Proof. unfold created_names. apply flat_map_app. Qed.

Lemma body_run_created_names i h evs f :
  body_run i h evs f -> created_names evs = [i].
Proof.
  destruct 1; unfold created, deleted;
    repeat rewrite created_names_app;
    try match goal with
      | Hw : wait_run _ _ _ _ _ |- _ =>
          rewrite (wait_run_no_create _ _ _ _ _ Hw)
      end;
    reflexivity.
Qed.

(** An iteration that asks for the delete has seen its snapshot succeed. *)
Lemma body_run_delete i h evs f j r :
  body_run i h evs f -> In (EDelete j r) evs ->
  j = i /\ exists e, In e evs
                     /\ observes_state (snapshot_name_of cd i) "SUCCESS" e.
Proof.
  intros H Hin.
  split; [eapply body_run_refers; [exact H|exact Hin|reflexivity]|].
  destruct H as [e|evs e Hc Hw|evs r' Hc Hw Hr|evs r' e Hc Hw Hr Hd
                |evs r' e Hc Hw Hr Hd Hq|evs r' q Hc Hw Hr Hd Hq Hg
                |evs r' q Hc Hw Hr Hd Hq Hg];
    try (destruct (wait_run_success _ _ _ _ _ Hw Hr) as (pre & resp & -> & Hs);
         eexists; split;
         [apply in_or_app; right; apply in_or_app; left;
          apply in_or_app; right; left; reflexivity
         |simpl; auto]).
  - exfalso. destruct Hin as [Hin|[Hin|[]]]; [discriminate|].
    destruct e; discriminate.
  - exfalso. unfold created in Hin.
    apply in_app_or in Hin as [Hin|Hin];
      [destruct Hin as [Hin|[Hin|[]]]; discriminate|].
    apply in_app_or in Hin as [Hin|Hin].
    + apply (wait_run_no_delete _ _ _ _ _ _ Hw) in Hin. discriminate.
    + destruct Hin as [Hin|[]]. destruct e; discriminate.
  - exfalso. unfold created in Hin.
    apply in_app_or in Hin as [Hin|Hin];
      [destruct Hin as [Hin|[Hin|[]]]; discriminate|].
    apply in_app_or in Hin as [Hin|Hin].
    + apply (wait_run_no_delete _ _ _ _ _ _ Hw) in Hin. discriminate.
    + destruct Hin as [Hin|[]]. discriminate.
Qed.

(** An iteration that shows a failure goes on to the next index. *)
Lemma body_run_failure_next i h evs f e j :
  body_run i h evs f -> In e evs -> failure_event cd j e -> f = Next.
Proof.
  intros H Hin Hf.
  destruct H as [x|evs x Hc Hw|evs r' Hc Hw Hr|evs r' x Hc Hw Hr Hd
                |evs r' x Hc Hw Hr Hd Hq|evs r' q Hc Hw Hr Hd Hq Hg
                |evs r' q Hc Hw Hr Hd Hq Hg]; try reflexivity.
  exfalso. unfold created, deleted in Hin.
  apply in_app_or in Hin as [Hin|Hin].
  { destruct Hin as [<-|[<-|[]]]; simpl in Hf; contradiction. }
  apply in_app_or in Hin as [Hin|Hin].
  - pose proof (wait_run_events _ _ _ _ _ Hw) as Hev.
    rewrite Forall_forall in Hev. pose proof (Hev _ Hin) as He.
    destruct He as [[[resp|y] ->]|[->| ->]]; simpl in Hf; try contradiction.
    destruct Hf as (_ & st & Hst & Hfs).
    apply in_split in Hin as (pre & post & ->).
    destruct (wait_run_failed _ _ _ _ _ _ _ _ _ _ _ Hw eq_refl Hst Hfs)
      as [_ ?].
    discriminate.
  - simpl in Hin.
    destruct Hin as [<-|[<-|[<-|[<-|[]]]]]; simpl in Hf; contradiction.
Qed.

(** The loop concerns the indices of its list only. *)
Lemma loop_run_refers h l evs f e j :
  loop_run h l evs f -> In e evs -> refers cd j e -> In j (map fst l).
Proof.
  induction 1 as [h|h i d rest evs Hb|h i d rest evs evs' f Hb Hl IH];
    intros Hin Hr.
  - contradiction.
  - left. symmetry. eapply body_run_refers; eassumption.
  - apply in_app_or in Hin as [Hin|Hin].
    + left. symmetry. eapply body_run_refers; eassumption.
    + right. auto.
Qed.

(** The loop over a list, cut at one of its entries. *)
Lemma loop_run_split l1 i d l2 :
  forall h evs f,
    loop_run h (l1 ++ (i, d) :: l2) evs f ->
    (f = Return /\ loop_run h l1 evs Return)
    \/ exists pre bev bf post,
        loop_run h l1 pre Next
        /\ body_run i (h ++ pre) bev bf
        /\ evs = pre ++ bev ++ post
        /\ ((bf = Return /\ post = [] /\ f = Return)
            \/ (bf = Next /\ loop_run (h ++ pre ++ bev) l2 post f)).
Proof.
  induction l1 as [|[j dj] l1 IH]; intros h evs f H.
  - right. cbn [app] in H. inversion H; subst.
    + exists [], evs, Return, []. rewrite app_nil_r.
      split; [constructor|]. split; [assumption|].
      split; [cbn; now rewrite app_nil_r|]. left. auto.
    + exists [], evs0, Next, evs'. rewrite app_nil_r.
      split; [constructor|]. split; [assumption|].
      split; [reflexivity|]. right. split; [reflexivity|assumption].
  - cbn [app] in H. inversion H; subst.
    + left. split; [reflexivity|]. now apply loop_return.
    + match goal with Hl : loop_run _ (l1 ++ _) _ _ |- _ =>
        apply IH in Hl as [[-> Hl]|(pre & bev & bf & post & Hp & Hb & -> & Hc)]
      end.
      * left. split; [reflexivity|]. eapply loop_next; eassumption.
      * right. exists (evs0 ++ pre), bev, bf, post.
        split; [eapply loop_next; eassumption|].
        split; [now rewrite app_assoc|].
        split; [now rewrite <- app_assoc|].
        destruct Hc as [Hc|[-> Hc]]; [left; assumption|right].
        split; [reflexivity|]. now rewrite <- !app_assoc in *.
Qed.

(** Snapshots are requested in the order of the list, for a prefix of it. *)
Lemma loop_run_created_names h l evs f :
  loop_run h l evs f -> exists rest, map fst l = created_names evs ++ rest.
Proof.
  induction 1 as [h|h i d rest evs Hb|h i d rest evs evs' f Hb Hl IH].
  - now exists [].
  - exists (map fst rest). cbn. now rewrite (body_run_created_names _ _ _ _ Hb).
  - destruct IH as [rest' IH]. exists rest'.
    rewrite created_names_app, (body_run_created_names _ _ _ _ Hb).
    cbn. now rewrite IH.
Qed.

(** The iteration of an index of a list without repetition: every event
    of the loop that concerns the index is one of its events. *)
Lemma loop_run_at h l evs f i e :
  loop_run h l evs f -> NoDup (map fst l) ->
  In e evs -> refers cd i e ->
  exists l1 d l2 pre bev bf post,
    l = l1 ++ (i, d) :: l2
    /\ body_run i (h ++ pre) bev bf
    /\ evs = pre ++ bev ++ post
    /\ (forall e', In e' evs -> refers cd i e' -> In e' bev)
    /\ ((bf = Return /\ post = [] /\ f = Return)
        \/ (bf = Next /\ loop_run (h ++ pre ++ bev) l2 post f))
    /\ (forall e', In e' pre -> ~ refers cd i e')
    /\ (forall e', In e' post -> ~ refers cd i e').
Proof.
  intros Hl Hnd Hin Hr.
  pose proof (loop_run_refers _ _ _ _ _ _ Hl Hin Hr) as Hi.
  apply in_map_iff in Hi as [[i' d] [E Hi]]. simpl in E. subst i'.
  apply in_split in Hi as (l1 & l2 & ->).
  rewrite map_app in Hnd. cbn [map fst] in Hnd.
  pose proof (NoDup_remove_2 _ _ _ Hnd) as Hni.
  destruct (loop_run_split _ _ _ _ _ _ _ Hl)
    as [[-> Hl1]|(pre & bev & bf & post & Hp & Hb & -> & Hc)].
  - exfalso. apply Hni. apply in_or_app. left.
    eapply loop_run_refers; eassumption.
  - assert (Hpre : forall e', In e' pre -> ~ refers cd i e').
    { intros e' Hin' Hr'. apply Hni. apply in_or_app. left.
      eapply loop_run_refers; eassumption. }
    assert (Hpost : forall e', In e' post -> ~ refers cd i e').
    { intros e' Hin' Hr'.
      destruct Hc as [(_ & -> & _)|[_ Hl2]]; [contradiction|].
      apply Hni. apply in_or_app. right.
      eapply loop_run_refers; eassumption. }
    exists l1, d, l2, pre, bev, bf, post.
    repeat split; auto.
    intros e' Hin' Hr'.
    apply in_app_or in Hin' as [Hin'|Hin']; [now apply Hpre in Hin'|].
    apply in_app_or in Hin' as [Hin'|Hin']; [assumption|].
    now apply Hpost in Hin'.
Qed.

End RunFacts.

(* ------------------------------------------------------------------ *)
(** * The claims *)

Lemma classified_stale_iff now thr d name info cd :
  In (name, info) (items d) ->
  strptime (rsplit_last name) = Ok cd ->
  (exists old, Ok (stale_list now thr d) = Ok old /\ In name (map fst old))
  <-> days (sub now cd) > thr.
Proof.
  intros Hin Hp. split.
  - intros (old & [= <-] & Hn).
    apply in_stale_names in Hn as [cd' Hn].
    apply in_stale_list in Hn as (_ & Hp' & Hd). congruence.
  - intros Hd. eexists. split; [reflexivity|].
    apply in_map_iff. exists (name, cd). split; [reflexivity|].
    apply in_stale_list. eauto.
Qed.

(** For a clock reading with a valid time of day, the age in days of a date
    parsed by [strptime] is the difference of the calendar days. *)
Lemma age_is_calendar_days now s cd :
  strptime s = Ok cd ->
  0 <= hour now < 24 -> 0 <= minute now < 60 -> 0 <= second now < 60 ->
  0 <= microsecond now < 1000000 ->
  days (sub now cd) = toordinal now - toordinal cd.
Proof.
  intros Hp Hh Hm Hs Hu.
  unfold sub, new_timedelta. cbn [days].
  apply strptime_midnight in Hp as (-> & -> & -> & ->).
  rewrite !Z.sub_0_r. rewrite (Z.div_small (microsecond now)) by lia.
  rewrite Z.div_small by lia. lia.
Qed.

(** C2.  An index of the listing whose date token parses is put in the
    stale list, by either function, exactly when the days of
    [now - creation_date] are strictly more than the threshold: at exactly
    [threshold] days it is not stale, at [threshold + 1] days it is. *)
Theorem C2_stale_iff_strictly_older :
  forall (now : datetime) (threshold : Z) (indices : dict)
         (name : string) (info : index_info) (creation_date : datetime),
    In (name, info) (items indices) ->
    strptime (rsplit_last name) = Ok creation_date ->
    (classified_stale (backup_old_indices now threshold indices) name
     <-> days (sub now creation_date) > threshold)
    /\ (classified_stale (delete_old_indices now threshold indices) name
        <-> days (sub now creation_date) > threshold)
    /\ (sub now creation_date = new_timedelta threshold 0 0 ->
        ~ classified_stale (backup_old_indices now threshold indices) name
        /\ ~ classified_stale (delete_old_indices now threshold indices) name)
    /\ (sub now creation_date = new_timedelta (threshold + 1) 0 0 ->
        classified_stale (backup_old_indices now threshold indices) name
        /\ classified_stale (delete_old_indices now threshold indices) name).
Proof.
  intros now thr d name info cd Hin Hp.
  unfold classified_stale.
  rewrite backup_old_indices_eq, delete_old_indices_eq.
  pose proof (classified_stale_iff now thr d name info cd Hin Hp) as Hiff.
  split; [exact Hiff|]. split; [exact Hiff|]. split.
  - intros E.
    assert (Hd : days (sub now cd) = thr).
    { rewrite E. unfold new_timedelta. cbn [days]. cbn. lia. }
    rewrite Hiff. lia.
  - intros E.
    assert (Hd : days (sub now cd) = thr + 1).
    { rewrite E. unfold new_timedelta. cbn [days]. cbn. lia. }
    rewrite Hiff. lia.
Qed.

Lemma C2_witness :
  In ("logs-2023.10.03", []) (items boundary_dict)
  /\ strptime (rsplit_last "logs-2023.10.03") = Ok (mkdt 2023 10 3 0 0 0 0)
  /\ sub (mkdt 2024 1 1 0 0 0 0) (mkdt 2023 10 3 0 0 0 0) = new_timedelta 90 0 0
  /\ ~ classified_stale
         (backup_old_indices (mkdt 2024 1 1 0 0 0 0) 90 boundary_dict)
         "logs-2023.10.03".
Proof.
  assert (H1 : In ("logs-2023.10.03", []) (items boundary_dict))
    by (left; reflexivity).
  assert (H2 : strptime (rsplit_last "logs-2023.10.03")
               = Ok (mkdt 2023 10 3 0 0 0 0)) by reflexivity.
  assert (H3 : sub (mkdt 2024 1 1 0 0 0 0) (mkdt 2023 10 3 0 0 0 0)
               = new_timedelta 90 0 0) by reflexivity.
  split; [exact H1|]. split; [exact H2|]. split; [exact H3|].
  exact (proj1 (proj1 (proj2 (proj2
           (C2_stale_iff_strictly_older (mkdt 2024 1 1 0 0 0 0) 90 boundary_dict
              "logs-2023.10.03" [] (mkdt 2023 10 3 0 0 0 0) H1 H2))) H3)).
Defined.

(** C9.  On the same listing, clock reading and threshold the two functions
    compute the same ordered stale list. *)
Theorem C9_classifiers_agree :
  forall (now : datetime) (threshold : Z) (indices : dict),
    backup_old_indices now threshold indices
    = delete_old_indices now threshold indices.
Proof.
  intros. now rewrite backup_old_indices_eq, delete_old_indices_eq.
Qed.

(** ** The calls of a whole run *)

Lemma deleted_names_app a b :
  deleted_names (a ++ b) = deleted_names a ++ deleted_names b.
Proof. unfold deleted_names. apply flat_map_app. Qed.

Lemma listing_events_prints days_ l e :
  In e (listing_events days_ l) ->
  e = EPrint (MsgOlderThan days_)
  \/ exists x, In x l /\ e = EPrint (MsgIndex (fst x)).
Proof.
  intros [<-|Hin]; [now left|right].
  apply in_map_iff in Hin as (x & <- & Hx). eauto.
Qed.

Lemma created_names_listing days_ l : created_names (listing_events days_ l) = [].
Proof. unfold listing_events. cbn. induction l; cbn; auto. Qed.

Lemma deleted_names_listing days_ l : deleted_names (listing_events days_ l) = [].
Proof. unfold listing_events. cbn. induction l; cbn; auto. Qed.

Lemma deleted_names_delete_events w l :
  forall h, deleted_names (delete_events w h l) = map fst l.
Proof.
  induction l as [|[i d] l IH]; intros h; [reflexivity|].
  cbn [delete_events]. rewrite deleted_names_app, IH. reflexivity.
Qed.

(** The history of a run of [list_backup_delete_old_indices] whose listing
    call succeeded. *)
Lemma backup_trace_cases w repo days_ thr interval max d :
  get_alias w [] = Ok d ->
  let tr := backup_trace w repo days_ thr interval max in
  let old := stale_list (now w) days_ d in
  (exists e, disk_percent w (at_gate w days_ [] d) = Raise e
             /\ tr = at_gate w days_ [] d ++ [EDisk (Raise e); EPrint (fatal_message e)])
  \/ (exists q, disk_percent w (at_gate w days_ [] d) = Ok q
                /\ Qgtb q (inject_Z thr) = true
                /\ tr = at_gate w days_ [] d ++ [EDisk (Ok q); EPrint (MsgDiskBefore thr)])
  \/ (exists q evs f,
         disk_percent w (at_gate w days_ [] d) = Ok q
         /\ Qgtb q (inject_Z thr) = false
         /\ loop_run w repo thr interval max (now w)
                     (at_gate w days_ [] d ++ [EDisk (Ok q)]) old evs f
         /\ tr = at_gate w days_ [] d ++ EDisk (Ok q) :: evs).
Proof.
  intros Hg tr old. subst tr old. unfold backup_trace.
  destruct (list_backup_delete_old_indices_run w repo thr interval max days_ [])
    as (evs & -> & Hr).
  cbn [fst app]. unfold at_gate. cbn [app].
  inversion Hr as [e He|d' e Hd Hq|d' q Hd Hq Hgt|d' q evs' f Hd Hq Hgt Hl]; subst;
    try congruence;
    rewrite Hg in Hd; injection Hd as <-.
  - left. exists e. split; [assumption|reflexivity].
  - right; left. exists q. repeat split; assumption.
  - right; right. exists q, evs', f. repeat split; assumption.
Qed.

(** C5.  The stale list either function computes is sorted by ascending
    creation date, so an entry of strictly earlier date stands before one
    of later date, and the indices are processed in that order: the
    snapshot requests of the backup mode are a prefix of the list, the
    delete requests of the delete mode are the whole list. *)
Theorem C5_oldest_first :
  forall (w : World) (repository_name : string)
         (days_ threshold interval max_retries : Z)
         (indices : dict) (old_indices : list (string * datetime)),
    backup_old_indices (now w) days_ indices = Ok old_indices
    \/ delete_old_indices (now w) days_ indices = Ok old_indices ->
    (StronglySorted date_le old_indices
     /\ forall A B, In A old_indices -> In B old_indices ->
                    Datetime.ltb (snd A) (snd B) = true ->
                    exists l1 l2 l3, old_indices = l1 ++ A :: l2 ++ B :: l3)
    /\ (get_alias w [] = Ok indices ->
        (exists rest,
            map fst old_indices
            = created_names (backup_trace w repository_name days_ threshold
                                          interval max_retries) ++ rest)
        /\ deleted_names (delete_trace w days_) = map fst old_indices).
Proof.
  intros w repo days_ thr interval max d old Hold.
  assert (E : old = stale_list (now w) days_ d).
  { rewrite backup_old_indices_eq, delete_old_indices_eq in Hold.
    destruct Hold as [[= <-]|[= <-]]; reflexivity. }
  subst old. clear Hold.
  pose proof (sort_by_date_sorted
                (flat_map (stale_entry (now w) days_) (items d))) as Hs.
  fold (stale_list (now w) days_ d) in Hs.
  split; [split; [exact Hs|]|].
  - intros A B HA HB Hlt. now apply sorted_precedes.
  - intros Hg. split.
    + destruct (backup_trace_cases w repo days_ thr interval max d Hg)
        as [(e & _ & ->)|[(q & _ & _ & ->)|(q & evs & f & _ & _ & Hl & ->)]];
        unfold at_gate; cbn [app created_names flat_map];
        fold (created_names); rewrite !created_names_app, created_names_listing.
      * now exists (map fst (stale_list (now w) days_ d)).
      * now exists (map fst (stale_list (now w) days_ d)).
      * cbn. fold (created_names evs).
        exact (loop_run_created_names _ _ _ _ _ _ _ _ _ _ Hl).
    + unfold delete_trace. rewrite list_delete_old_indices_run.
      cbn [fst app]. unfold delete_run_events. rewrite Hg.
      cbn [deleted_names flat_map app]. fold deleted_names.
      rewrite deleted_names_app, deleted_names_listing.
      apply deleted_names_delete_events.
Qed.

Lemma C5_witness :
  (backup_old_indices (now scenario_world) 90 scenario_dict
   = Ok [("logs-2023.01.01", mkdt 2023 1 1 0 0 0 0);
         ("logs-2023.06.01", mkdt 2023 6 1 0 0 0 0)]
   \/ delete_old_indices (now scenario_world) 90 scenario_dict
      = Ok [("logs-2023.01.01", mkdt 2023 1 1 0 0 0 0);
            ("logs-2023.06.01", mkdt 2023 6 1 0 0 0 0)])
  /\ deleted_names (delete_trace scenario_world 90)
     = ["logs-2023.01.01"; "logs-2023.06.01"].
Proof.
  assert (H : backup_old_indices (now scenario_world) 90 scenario_dict
              = Ok [("logs-2023.01.01", mkdt 2023 1 1 0 0 0 0);
                    ("logs-2023.06.01", mkdt 2023 6 1 0 0 0 0)]
              \/ delete_old_indices (now scenario_world) 90 scenario_dict
                 = Ok [("logs-2023.01.01", mkdt 2023 1 1 0 0 0 0);
                       ("logs-2023.06.01", mkdt 2023 6 1 0 0 0 0)])
    by (left; reflexivity).
  split; [exact H|].
  exact (proj2 (proj2 (C5_oldest_first scenario_world "repo" 90 90 5 3
                         scenario_dict _ H) eq_refl)).
Defined.

Lemma fatal_message_refers cd j e : ~ refers cd j (EPrint (fatal_message e)).
Proof. destruct e; simpl; tauto. Qed.

Lemma delete_events_refers w cd j l :
  forall h e, In e (delete_events w h l) -> refers cd j e -> In j (map fst l).
Proof.
  induction l as [|[i d] l IH]; intros h e Hin Hr; [contradiction|].
  cbn [delete_events] in Hin. apply in_app_or in Hin as [Hin|Hin].
  - left. cbn [fst].
    destruct Hin as [<-|[<-|[]]]; simpl in Hr; [assumption|].
    unfold delete_message in Hr.
    destruct (indices_delete w h i) as [|[]]; simpl in Hr; assumption.
  - right. eauto.
Qed.

(** The events of a run of [list_backup_delete_old_indices] concern stale
    indices only. *)
Lemma backup_trace_refers w repo days_ thr interval max j e :
  In e (backup_trace w repo days_ thr interval max) ->
  refers (now w) j e ->
  exists d, get_alias w [] = Ok d
            /\ In j (map fst (stale_list (now w) days_ d)).
Proof.
  intros Hin Hr.
  destruct (get_alias w []) as [d|x] eqn:Hg.
  - exists d. split; [reflexivity|].
    assert (Hgate : forall e', In e' (at_gate w days_ [] d) -> refers (now w) j e' ->
                               In j (map fst (stale_list (now w) days_ d))).
    { unfold at_gate. cbn [app]. intros e' [<-|Hin'] Hr'; [contradiction|].
      apply listing_events_prints in Hin' as [->|(x & Hx & ->)];
        [contradiction|].
      simpl in Hr'. subst j. now apply in_map. }
    destruct (backup_trace_cases w repo days_ thr interval max d Hg)
      as [(x & _ & E)|[(q & _ & _ & E)|(q & evs & f & _ & _ & Hl & E)]];
      rewrite E in Hin; apply in_app_or in Hin as [Hin|Hin]; eauto.
    + destruct Hin as [<-|[<-|[]]]; [contradiction|].
      now apply fatal_message_refers in Hr.
    + destruct Hin as [<-|[<-|[]]]; contradiction.
    + destruct Hin as [<-|Hin]; [contradiction|].
      eapply loop_run_refers; eassumption.
  - exfalso. unfold backup_trace in Hin.
    destruct (list_backup_delete_old_indices_run w repo thr interval max days_ [])
      as (evs & E & Hrun).
    rewrite E in Hin. cbn [fst app] in Hin.
    inversion Hrun; subst; try congruence.
    destruct Hin as [<-|[<-|[]]]; [contradiction|].
    now apply fatal_message_refers in Hr.
Qed.

(** The same for [list_delete_old_indices]. *)
Lemma delete_trace_refers w days_ j e :
  In e (delete_trace w days_) ->
  refers (now w) j e ->
  exists d, get_alias w [] = Ok d
            /\ In j (map fst (stale_list (now w) days_ d)).
Proof.
  unfold delete_trace. rewrite list_delete_old_indices_run.
  cbn [fst app]. unfold delete_run_events.
  destruct (get_alias w []) as [d|x]; intros Hin Hr.
  - exists d. split; [reflexivity|].
    destruct Hin as [<-|Hin]; [contradiction|].
    apply in_app_or in Hin as [Hin|Hin].
    + apply listing_events_prints in Hin as [->|(x & Hx & ->)];
        [contradiction|].
      simpl in Hr. subst j. now apply in_map.
    + eapply delete_events_refers; eassumption.
  - exfalso. destruct Hin as [<-|[<-|[]]]; [contradiction|].
    now apply fatal_message_refers in Hr.
Qed.

(** C8, as stated, fails: the token of [a-2023.1.1] is not a YYYY.MM.DD
    token, yet [strptime] reads it as 2023-01-01; both classifiers keep
    the index, the backup mode requests its snapshot and its delete, and
    the delete mode requests its delete. *)
Lemma C8_counterexample :
  spec_yyyy_mm_dd (rsplit_last "a-2023.1.1") = false
  /\ strptime (rsplit_last "a-2023.1.1") = Ok (mkdt 2023 1 1 0 0 0 0)
  /\ backup_old_indices (now short_date_world) 90 short_date_dict
     = Ok [("a-2023.1.1", mkdt 2023 1 1 0 0 0 0)]
  /\ delete_old_indices (now short_date_world) 90 short_date_dict
     = Ok [("a-2023.1.1", mkdt 2023 1 1 0 0 0 0)]
  /\ created_names (backup_trace short_date_world "repo" 90 90 5 3)
     = ["a-2023.1.1"]
  /\ In (EDelete "a-2023.1.1" (Ok tt))
        (backup_trace short_date_world "repo" 90 90 5 3)
  /\ delete_trace short_date_world 90
     = [EGetAlias (Ok short_date_dict);
        EPrint (MsgOlderThan 90);
        EPrint (MsgIndex "a-2023.1.1");
        EDelete "a-2023.1.1" (Ok tt);
        EPrint (MsgDeleted "a-2023.1.1")].
Proof.
  repeat split; try reflexivity.
  vm_compute. repeat (first [left; reflexivity | right]).
Qed.

(** C8, amended.  An index whose date token [strptime] rejects is left out
    by both classifiers, which do not raise; no call and no printed line
    of a run of either function concerns it. *)
Theorem C8_unparsable_names_are_skipped :
  forall (w : World) (repository_name : string)
         (days_ threshold interval max_retries : Z) (name : string) (e : exn),
    strptime (rsplit_last name) = Raise e ->
    (forall now indices,
        (exists old_indices,
            backup_old_indices now days_ indices = Ok old_indices
            /\ ~ In name (map fst old_indices))
        /\ (exists old_indices,
               delete_old_indices now days_ indices = Ok old_indices
               /\ ~ In name (map fst old_indices)))
    /\ (forall ev,
           In ev (backup_trace w repository_name days_ threshold interval
                               max_retries) ->
           ~ refers (now w) name ev)
    /\ (forall ev, In ev (delete_trace w days_) -> ~ refers (now w) name ev).
Proof.
  intros w repo days_ thr interval max name e Hp.
  assert (Hout : forall now d, ~ In name (map fst (stale_list now days_ d))).
  { intros now d Hin. apply in_stale_names in Hin as [cd Hin].
    apply in_stale_list in Hin as (_ & Hp' & _). congruence. }
  split; [|split].
  - intros now d. rewrite backup_old_indices_eq, delete_old_indices_eq.
    split; eexists; split; try reflexivity; apply Hout.
  - intros ev Hin Hr.
    destruct (backup_trace_refers _ _ _ _ _ _ _ _ Hin Hr) as (d & _ & Hj).
    exact (Hout _ _ Hj).
  - intros ev Hin Hr.
    destruct (delete_trace_refers _ _ _ _ Hin Hr) as (d & _ & Hj).
    exact (Hout _ _ Hj).
Qed.

Lemma C8_witness :
  strptime (rsplit_last "metrics-bad-name") = Raise ValueError
  /\ (exists old_indices,
         backup_old_indices (now scenario_world) 90 scenario_dict = Ok old_indices
         /\ ~ In "metrics-bad-name" (map fst old_indices))
  /\ forall ev, In ev (delete_trace scenario_world 90) ->
                ~ refers (now scenario_world) "metrics-bad-name" ev.
Proof.
  assert (H : strptime (rsplit_last "metrics-bad-name") = Raise ValueError)
    by reflexivity.
  split; [exact H|].
  pose proof (C8_unparsable_names_are_skipped scenario_world "repo" 90 90 5 3
                "metrics-bad-name" ValueError H) as (H1 & _ & H3).
  split; [exact (proj1 (H1 (now scenario_world) scenario_dict))|exact H3].
Defined.

(** ** The gate of line 73 *)

Lemma Qgtb_true (q t : Q) : Qgtb q t = true <-> (t < q)%Q.
Proof.
  unfold Qgtb. rewrite negb_true_iff. split.
  - intros H. apply Qnot_le_lt. intros Hle.
    apply Qle_bool_iff in Hle. congruence.
  - intros H. destruct (Qle_bool q t) eqn:E; [|reflexivity].
    apply Qle_bool_iff in E. exfalso. exact (Qlt_not_le _ _ H E).
Qed.

Lemma backup_result w repo days_ thr interval max :
  list_backup_delete_old_indices w repo days_ thr interval max []
  = (backup_trace w repo days_ thr interval max, Ok tt).
Proof.
  unfold backup_trace.
  destruct (list_backup_delete_old_indices_run w repo thr interval max days_ [])
    as (evs & -> & _).
  reflexivity.
Qed.

Lemma created_names_at_gate w days_ d : created_names (at_gate w days_ [] d) = [].
Proof. unfold at_gate. cbn [app]. apply (created_names_listing days_). Qed.

Lemma deleted_names_at_gate w days_ d : deleted_names (at_gate w days_ [] d) = [].
Proof. unfold at_gate. cbn [app]. apply (deleted_names_listing days_). Qed.

(** C3.  When the sample of line 73 is strictly above the threshold, the
    function prints the warning and returns: its history is the listing,
    the sample and the warning, with no snapshot request and no delete
    request. *)
Theorem C3_disk_gate_before_batch :
  forall (w : World) (repository_name : string)
         (days_ threshold interval max_retries : Z) (indices : dict) (q : Q),
    get_alias w [] = Ok indices ->
    disk_percent w (at_gate w days_ [] indices) = Ok q ->
    (inject_Z threshold < q)%Q ->
    let tr := backup_trace w repository_name days_ threshold interval
                           max_retries in
    list_backup_delete_old_indices w repository_name days_ threshold interval
      max_retries [] = (tr, Ok tt)
    /\ tr = at_gate w days_ [] indices
            ++ [EDisk (Ok q); EPrint (MsgDiskBefore threshold)]
    /\ created_names tr = []
    /\ deleted_names tr = [].
Proof.
  intros w repo days_ thr interval max d q Hg Hq Hlt tr.
  split; [apply backup_result|].
  assert (E : tr = at_gate w days_ [] d ++ [EDisk (Ok q); EPrint (MsgDiskBefore thr)]).
  { subst tr.
    destruct (backup_trace_cases w repo days_ thr interval max d Hg)
      as [(x & Hq' & _)|[(q' & Hq' & _ & E)|(q' & evs & f & Hq' & Hle & _)]].
    - congruence.
    - rewrite Hq in Hq'. injection Hq' as <-. exact E.
    - rewrite Hq in Hq'. injection Hq' as <-.
      apply Qgtb_true in Hlt. congruence. }
  split; [exact E|]. rewrite E.
  rewrite created_names_app, deleted_names_app.
  rewrite created_names_at_gate, deleted_names_at_gate. auto.
Qed.

Lemma C3_witness :
  get_alias full_disk_world [] = Ok scenario_dict
  /\ disk_percent full_disk_world (at_gate full_disk_world 90 [] scenario_dict)
     = Ok (96 # 1)%Q
  /\ (inject_Z 90 < 96 # 1)%Q
  /\ created_names (backup_trace full_disk_world "repo" 90 90 5 3) = []
  /\ deleted_names (backup_trace full_disk_world "repo" 90 90 5 3) = [].
Proof.
  assert (H3 : (inject_Z 90 < 96 # 1)%Q) by reflexivity.
  split; [reflexivity|]. split; [reflexivity|]. split; [exact H3|].
  exact (proj2 (proj2 (C3_disk_gate_before_batch full_disk_world "repo" 90 90 5 3
                         scenario_dict (96 # 1)%Q eq_refl eq_refl H3))).
Defined.

(** ** Exceptions and the caller *)

(** C4, as stated, fails: when the cluster is unreachable the listing call
    raises [ConnectionError], and both functions catch it, print a line and
    return normally. *)
Lemma C4_counterexample :
  get_alias unreachable_world [] = Raise ConnectionError
  /\ list_backup_delete_old_indices unreachable_world "repo" 30 90 5 3 []
     = ([EGetAlias (Raise ConnectionError);
         EPrint (MsgConnectionError ConnectionError)], Ok tt)
  /\ list_delete_old_indices unreachable_world 30 []
     = ([EGetAlias (Raise ConnectionError);
         EPrint (MsgConnectionError ConnectionError)], Ok tt)
  /\ ~ propagates_to_caller
         (list_backup_delete_old_indices unreachable_world "repo" 30 90 5 3 [])
         ConnectionError
  /\ ~ propagates_to_caller (list_delete_old_indices unreachable_world 30 [])
         ConnectionError.
Proof.
  repeat split; try reflexivity; unfold propagates_to_caller; cbn; discriminate.
Qed.

(** C4, amended.  No exception leaves either function: an iteration of
    either loop ends normally whatever the cluster and the disk answer,
    and a failure of the listing call is caught too, the function printing
    one line and returning without any further call. *)
Theorem C4_no_exception_reaches_the_caller :
  forall (w : World) (repository_name : string)
         (days_ threshold interval max_retries : Z),
    snd (list_backup_delete_old_indices w repository_name days_ threshold
           interval max_retries []) = Ok tt
    /\ snd (list_delete_old_indices w days_ []) = Ok tt
    /\ (forall i h, exists h' f,
           process_index w repository_name threshold interval max_retries
                         (now w) i h = (h', Ok f))
    /\ (forall i h, exists h', delete_index w i h = (h', Ok tt))
    /\ (forall e, get_alias w [] = Raise e ->
                  backup_trace w repository_name days_ threshold interval
                               max_retries
                  = [EGetAlias (Raise e); EPrint (fatal_message e)]
                  /\ delete_trace w days_
                     = [EGetAlias (Raise e); EPrint (fatal_message e)]).
Proof.
  intros w repo days_ thr interval max.
  split; [now rewrite backup_result|].
  split; [now rewrite list_delete_old_indices_run|].
  split; [|split].
  - intros i h.
    destruct (process_index_run w repo thr interval max (now w) i h)
      as (evs & f & E & _).
    eauto.
  - intros i h. rewrite delete_index_run. eauto.
  - intros e Hg. split.
    + unfold backup_trace.
      destruct (list_backup_delete_old_indices_run w repo thr interval max days_ [])
        as (evs & -> & Hr).
      cbn [fst app]. inversion Hr; subst; congruence.
    + unfold delete_trace. rewrite list_delete_old_indices_run.
      cbn [fst app]. unfold delete_run_events. now rewrite Hg.
Qed.

Lemma C4_witness :
  get_alias unreachable_world [] = Raise ConnectionError
  /\ backup_trace unreachable_world "repo" 30 90 5 3
     = [EGetAlias (Raise ConnectionError);
        EPrint (fatal_message ConnectionError)].
Proof.
  split; [reflexivity|].
  exact (proj1 (proj2 (proj2 (proj2 (proj2
           (C4_no_exception_reaches_the_caller unreachable_world "repo"
              30 90 5 3)))) ConnectionError eq_refl)).
Defined.

(** ** Where the events of a run come from *)

(** An event of the loop is an event of one of its iterations. *)
Lemma loop_run_in w repo thr interval max cd h l evs f e :
  loop_run w repo thr interval max cd h l evs f -> In e evs ->
  exists i h' bev bf,
    In i (map fst l)
    /\ body_run w repo thr interval max cd i h' bev bf
    /\ In e bev
    /\ (forall e', In e' bev -> In e' evs).
Proof.
  induction 1 as [h|h i d rest evs Hb|h i d rest evs evs' f Hb Hl IH];
    intros Hin.
  - contradiction.
  - exists i, h, evs, Return. cbn. auto.
  - apply in_app_or in Hin as [Hin|Hin].
    + exists i, h, evs, Next. cbn. repeat split; auto.
      intros e' He'. apply in_or_app. now left.
    + destruct (IH Hin) as (j & h' & bev & bf & Hj & Hb' & He & Hincl).
      exists j, h', bev, bf. cbn. repeat split; auto.
      intros e' He'. apply in_or_app. right. auto.
Qed.

(** An event of a run of [list_backup_delete_old_indices] is the listing
    call, a disk sample, one of the lines printed outside the loop, or an
    event of the loop. *)
Lemma backup_trace_inv w repo days_ thr interval max e :
  In e (backup_trace w repo days_ thr interval max) ->
  (exists r, e = EGetAlias r)
  \/ (exists r, e = EDisk r)
  \/ (exists m, e = EPrint m
                /\ (m = MsgOlderThan days_ \/ (exists i, m = MsgIndex i)
                    \/ (exists x, m = fatal_message x)
                    \/ m = MsgDiskBefore thr))
  \/ (exists d h evs f,
         get_alias w [] = Ok d
         /\ loop_run w repo thr interval max (now w) h
                     (stale_list (now w) days_ d) evs f
         /\ In e evs
         /\ (forall e', In e' evs ->
                        In e' (backup_trace w repo days_ thr interval max))).
Proof.
  intros Hin.
  destruct (get_alias w []) as [d|x] eqn:Hg.
  - assert (Hgate : forall e', In e' (at_gate w days_ [] d) ->
              (exists r, e' = EGetAlias r)
              \/ (exists r, e' = EDisk r)
              \/ (exists m, e' = EPrint m
                    /\ (m = MsgOlderThan days_ \/ (exists i, m = MsgIndex i)
                        \/ (exists x, m = fatal_message x)
                        \/ m = MsgDiskBefore thr))
              \/ (exists d0 h evs f,
                     Ok d = Ok d0
                     /\ loop_run w repo thr interval max (now w) h
                                 (stale_list (now w) days_ d0) evs f
                     /\ In e' evs
                     /\ (forall e'', In e'' evs ->
                            In e'' (backup_trace w repo days_ thr interval max)))).
    { unfold at_gate. cbn [app]. intros e' [<-|Hin']; [left; eauto|].
      right; right; left.
      apply listing_events_prints in Hin' as [->|(x & Hx & ->)]; eauto 8. }
    destruct (backup_trace_cases w repo days_ thr interval max d Hg)
      as [(x & _ & E)|[(q & _ & _ & E)|(q & evs & f & _ & _ & Hl & E)]];
      rewrite E in Hin; apply in_app_or in Hin as [Hin|Hin]; auto.
    + destruct Hin as [<-|[<-|[]]]; [right; left; eauto|].
      right; right; left. eauto 8.
    + destruct Hin as [<-|[<-|[]]]; [right; left; eauto|].
      right; right; left. eauto 8.
    + destruct Hin as [<-|Hin]; [right; left; eauto|].
      right; right; right.
      exists d, (at_gate w days_ [] d ++ [EDisk (Ok q)]), evs, f.
      repeat split; auto.
      intros e' He'. rewrite E. apply in_or_app. right. now right.
  - unfold backup_trace in Hin.
    destruct (list_backup_delete_old_indices_run w repo thr interval max days_ [])
      as (evs & E & Hrun).
    rewrite E in Hin. cbn [fst app] in Hin.
    inversion Hrun; subst; try congruence.
    destruct Hin as [<-|[<-|[]]]; [left; eauto|].
    right; right; left. eauto 8.
Qed.

(** With no retry budget an iteration is a rejected snapshot request, or an
    acknowledged one followed by the time-out line. *)
Lemma body_run_no_budget w repo thr interval max cd i h evs f :
  max <= 0 ->
  body_run w repo thr interval max cd i h evs f ->
  f = Next
  /\ ((exists e, evs = [ECreate repo (snapshot_name_of cd i) i (Raise e);
                        EPrint (failure_message i e)])
      \/ evs = created repo cd i ++ [EPrint (MsgTimedOut i)]).
Proof.
  intros Hmax Hb.
  destruct Hb as [x|evs x Hc Hw|evs r' Hc Hw Hr|evs r' x Hc Hw Hr Hd
                 |evs r' x Hc Hw Hr Hd Hq|evs r' q Hc Hw Hr Hd Hq Hg
                 |evs r' q Hc Hw Hr Hd Hq Hg];
    try (destruct (wait_run_no_budget _ _ _ _ _ _ _ _ _ _ Hw Hmax) as [-> E];
         try discriminate; try (injection E as E'; lia)).
  - split; [reflexivity|]. left. eauto.
  - split; [reflexivity|]. right. reflexivity.
Qed.

(** C10.  With [snapshot_max_retries = 0] a run polls no snapshot status
    and requests no delete, whatever the cluster would answer: an iteration
    whose snapshot request is acknowledged prints the time-out line and
    goes on to the next index. *)
Theorem C10_zero_retries_never_delete :
  forall (w : World) (repository_name : string) (days_ threshold interval : Z),
    let tr := backup_trace w repository_name days_ threshold interval 0 in
    (forall e, In e tr -> is_status e = false /\ is_delete e = false)
    /\ (forall s i, In (ECreate repository_name s i (Ok tt)) tr ->
                    In (EPrint (MsgTimedOut i)) tr)
    /\ (forall i h,
           snapshot_create w h repository_name
                           (snapshot_name_of (now w) i) i = Ok tt ->
           process_index w repository_name threshold interval 0 (now w) i h
           = (h ++ [ECreate repository_name (snapshot_name_of (now w) i) i (Ok tt);
                    EPrint (MsgSnapshotCreated i (snapshot_name_of (now w) i));
                    EPrint (MsgTimedOut i)],
              Ok Next)).
Proof.
  intros w repo days_ thr interval tr.
  split; [|split].
  - intros e Hin.
    apply backup_trace_inv in Hin
      as [[r ->]|[[r ->]|[(m & -> & _)|(d & h & evs & f & _ & Hl & Hin & _)]]];
      auto.
    destruct (loop_run_in _ _ _ _ _ _ _ _ _ _ _ Hl Hin)
      as (i & h' & bev & bf & _ & Hb & He & _).
    destruct (body_run_no_budget _ _ _ _ _ _ _ _ _ _ (Z.le_refl 0) Hb)
      as [_ [[x ->]| ->]].
    + destruct He as [<-|[<-|[]]]; auto.
    + destruct He as [<-|[<-|[<-|[]]]]; auto.
  - intros s i Hin.
    apply backup_trace_inv in Hin
      as [[r E]|[[r E]|[(m & E & _)|(d & h & evs & f & _ & Hl & Hin & Hincl)]]];
      try discriminate.
    destruct (loop_run_in _ _ _ _ _ _ _ _ _ _ _ Hl Hin)
      as (j & h' & bev & bf & _ & Hb & He & Hsub).
    destruct (body_run_no_budget _ _ _ _ _ _ _ _ _ _ (Z.le_refl 0) Hb)
      as [_ [[x E]|E]]; rewrite E in He, Hsub.
    + destruct He as [He|[He|[]]]; discriminate.
    + destruct He as [He|[He|[He|[]]]]; try discriminate.
      injection He as _ ->.
      apply Hincl, Hsub. right; right; left. reflexivity.
  - intros i h Hc.
    destruct (process_index_run w repo thr interval 0 (now w) i h)
      as (evs & f & E & Hb).
    rewrite E.
    destruct (body_run_no_budget _ _ _ _ _ _ _ _ _ _ (Z.le_refl 0) Hb)
      as [-> [[x ->]| ->]]; [|reflexivity].
    inversion Hb; congruence.
Qed.

(** A cluster whose snapshots are done at once; with no budget the state is
    never asked for. *)
Lemma C10_witness :
  snapshot_create scenario_world [] "repo"
    (snapshot_name_of (now scenario_world) "logs-2023.01.01") "logs-2023.01.01"
  = Ok tt
  /\ process_index scenario_world "repo" 90 5 0 (now scenario_world)
       "logs-2023.01.01" []
     = ([ECreate "repo" (snapshot_name_of (now scenario_world) "logs-2023.01.01")
                 "logs-2023.01.01" (Ok tt);
         EPrint (MsgSnapshotCreated "logs-2023.01.01"
                   (snapshot_name_of (now scenario_world) "logs-2023.01.01"));
         EPrint (MsgTimedOut "logs-2023.01.01")],
        Ok Next).
Proof.
  split; [reflexivity|].
  exact (proj2 (proj2 (C10_zero_retries_never_delete scenario_world "repo" 90 90 5))
           "logs-2023.01.01" [] eq_refl).
Defined.

(** ** Retention of an index whose snapshot did not succeed *)

(** A run that shows such an event passed the gate of line 73 and entered
    the loop. *)
Lemma backup_trace_processed w repo days_ thr interval max e :
  In e (backup_trace w repo days_ thr interval max) ->
  loop_event e = true ->
  exists d q evs f,
    get_alias w [] = Ok d
    /\ backup_trace w repo days_ thr interval max
       = at_gate w days_ [] d ++ EDisk (Ok q) :: evs
    /\ loop_run w repo thr interval max (now w)
                (at_gate w days_ [] d ++ [EDisk (Ok q)])
                (stale_list (now w) days_ d) evs f
    /\ (forall e', In e' (backup_trace w repo days_ thr interval max) ->
                   loop_event e' = true -> In e' evs).
Proof.
  intros Hin Hle.
  assert (Hgate : forall d e', In e' (at_gate w days_ [] d) -> loop_event e' = false).
  { intros d e'. unfold at_gate. cbn [app]. intros [<-|Hin']; [reflexivity|].
    apply listing_events_prints in Hin' as [->|(x & _ & ->)]; reflexivity. }
  destruct (get_alias w []) as [d|x] eqn:Hg.
  - destruct (backup_trace_cases w repo days_ thr interval max d Hg)
      as [(x & _ & E)|[(q & _ & _ & E)|(q & evs & f & _ & _ & Hl & E)]].
    + exfalso. rewrite E in Hin. apply in_app_or in Hin as [Hin|Hin].
      * apply Hgate in Hin. congruence.
      * destruct Hin as [<-|[<-|[]]]; [discriminate|].
        destruct x; discriminate.
    + exfalso. rewrite E in Hin. apply in_app_or in Hin as [Hin|Hin].
      * apply Hgate in Hin. congruence.
      * destruct Hin as [<-|[<-|[]]]; discriminate.
    + exists d, q, evs, f. repeat split; auto.
      intros e' Hin' Hle'. rewrite E in Hin'.
      apply in_app_or in Hin' as [Hin'|[<-|Hin']]; auto.
      * apply Hgate in Hin'. congruence.
      * discriminate.
  - exfalso. unfold backup_trace in Hin.
    destruct (list_backup_delete_old_indices_run w repo thr interval max days_ [])
      as (evs & E & Hrun).
    rewrite E in Hin. cbn [fst app] in Hin.
    inversion Hrun; subst; try congruence.
    destruct Hin as [<-|[<-|[]]]; [discriminate|].
    match goal with
    | H : loop_event (EPrint (fatal_message ?y)) = true |- _ =>
        destruct y; discriminate H
    end.
Qed.

(** An iteration that shows a rejected snapshot request, a failed snapshot
    or a time-out asks for no delete. *)
Lemma body_run_failure_no_delete w repo thr interval max cd i h evs f e j :
  body_run w repo thr interval max cd i h evs f ->
  In e evs -> failure_event cd j e -> is_delete e = false ->
  forall e', In e' evs -> is_delete e' = false.
Proof.
  intros Hb Hin Hf Hnd e' Hin'.
  destruct (is_delete e') eqn:Hd; [exfalso|reflexivity].
  destruct e' as [| | | | |k r|]; try discriminate. clear Hd.
  pose proof (body_run_delete _ _ _ _ _ _ _ _ _ _ _ _ Hb Hin') as [-> _].
  destruct Hb as [x|evs x Hc Hw|evs r' Hc Hw Hr|evs r' x Hc Hw Hr Hd
                 |evs r' x Hc Hw Hr Hd Hq|evs r' q Hc Hw Hr Hd Hq Hg
                 |evs r' q Hc Hw Hr Hd Hq Hg];
    unfold created, deleted in *.
  - destruct Hin' as [E|[E|[]]]; [discriminate|destruct x; discriminate].
  - apply in_app_or in Hin' as [[E|[E|[]]]|Hin']; try discriminate.
    apply in_app_or in Hin' as [Hin'|[E|[]]].
    + apply (wait_run_no_delete _ _ _ _ _ _ _ _ _ _ _ Hw) in Hin'. discriminate.
    + destruct x; discriminate.
  - apply in_app_or in Hin' as [[E|[E|[]]]|Hin']; try discriminate.
    apply in_app_or in Hin' as [Hin'|[E|[]]]; [|discriminate].
    apply (wait_run_no_delete _ _ _ _ _ _ _ _ _ _ _ Hw) in Hin'. discriminate.
  - (* the failure shown is the rejected delete itself *)
    apply in_app_or in Hin as [[<-|[<-|[]]]|Hin]; try contradiction.
    apply in_app_or in Hin as [Hin|[<-|[<-|[]]]]; try discriminate.
    + pose proof (wait_run_events _ _ _ _ _ _ _ _ _ _ Hw) as Hev.
      rewrite Forall_forall in Hev. pose proof (Hev _ Hin) as He.
      destruct He as [[[resp|y] ->]|[->| ->]]; simpl in Hf; try contradiction.
      destruct Hf as (_ & st & Hst & Hfs).
      apply in_split in Hin as (pre & post & ->).
      destruct (wait_run_failed _ _ _ _ _ _ _ _ _ _ _ _ _ _ _ _ Hw eq_refl Hst Hfs)
        as [_ ?].
      discriminate.
    + destruct x; simpl in Hf; contradiction.
  - apply in_app_or in Hin as [[<-|[<-|[]]]|Hin]; try contradiction.
    apply in_app_or in Hin as [Hin|[<-|[<-|[<-|[<-|[]]]]]];
      try (simpl in Hf; contradiction).
    + pose proof (wait_run_events _ _ _ _ _ _ _ _ _ _ Hw) as Hev.
      rewrite Forall_forall in Hev. pose proof (Hev _ Hin) as He.
      destruct He as [[[resp|y] ->]|[->| ->]]; simpl in Hf; try contradiction.
      destruct Hf as (_ & st & Hst & Hfs).
      apply in_split in Hin as (pre & post & ->).
      destruct (wait_run_failed _ _ _ _ _ _ _ _ _ _ _ _ _ _ _ _ Hw eq_refl Hst Hfs)
        as [_ ?].
      discriminate.
    + destruct x; simpl in Hf; contradiction.
  - pose proof (body_run_failure_next _ _ _ _ _ _ _ _ _ _ _ _
                  (body_disk_exceeded _ _ _ _ _ _ _ _ _ _ _ Hc Hw Hr Hd Hq Hg)
                  Hin Hf).
    discriminate.
  - apply in_app_or in Hin as [[<-|[<-|[]]]|Hin]; try contradiction.
    apply in_app_or in Hin as [Hin|[<-|[<-|[<-|[]]]]];
      try (simpl in Hf; contradiction).
    pose proof (wait_run_events _ _ _ _ _ _ _ _ _ _ Hw) as Hev.
    rewrite Forall_forall in Hev. pose proof (Hev _ Hin) as He.
    destruct He as [[[resp|y] ->]|[->| ->]]; simpl in Hf; try contradiction.
    destruct Hf as (_ & st & Hst & Hfs).
    apply in_split in Hin as (pre & post & ->).
    destruct (wait_run_failed _ _ _ _ _ _ _ _ _ _ _ _ _ _ _ _ Hw eq_refl Hst Hfs)
      as [_ ?].
    discriminate.
Qed.

(** C1.  In an iteration whose snapshot request was acknowledged and whose
    polling loop ends with [retries >= snapshot_max_retries], the time-out
    line is printed, no delete is requested and the loop goes on.  In a
    whole run, an index for which the time-out line was printed, and more
    generally an index whose snapshot was never seen in state SUCCESS, has
    no delete request at all. *)
Theorem C1_timed_out_index_is_retained :
  forall (w : World) (repository_name : string)
         (days_ threshold interval max_retries : Z),
    let tr := backup_trace w repository_name days_ threshold interval
                           max_retries in
    (forall i h h' retries,
        snapshot_create w h repository_name (snapshot_name_of (now w) i) i
        = Ok tt ->
        wait_for_snapshot w repository_name interval max_retries
          (Z.to_nat max_retries) i (snapshot_name_of (now w) i) 0
          (h ++ created repository_name (now w) i) = (h', Ok retries) ->
        max_retries <= retries ->
        process_index w repository_name threshold interval max_retries
                      (now w) i h
        = (h' ++ [EPrint (MsgTimedOut i)], Ok Next)
        /\ exists evs, h' = h ++ created repository_name (now w) i ++ evs
                       /\ forall e, In e evs -> is_delete e = false)
    /\ (forall i, In (EPrint (MsgTimedOut i)) tr ->
                  forall r, ~ In (EDelete i r) tr)
    /\ (forall i,
           (forall e, In e tr ->
                      ~ observes_state (snapshot_name_of (now w) i) "SUCCESS" e) ->
           forall r, ~ In (EDelete i r) tr).
Proof.
  intros w repo days_ thr interval max tr.
  split; [|split].
  - intros i h h' retries Hc Hw Hge.
    split.
    + unfold process_index, try_except.
      unfold bind at 1, snapshot_create_call. rewrite Hc.
      unfold bind at 1, print, emit. unfold bind at 1.
      replace ((h ++ [ECreate repo (snapshot_name_of (now w) i) i (Ok tt)])
                 ++ [EPrint (MsgSnapshotCreated i (snapshot_name_of (now w) i))])
        with (h ++ created repo (now w) i)
        by (unfold created; now norm_hist).
      rewrite Hw.
      assert ((retries >=? max) = true) as ->
          by (rewrite Z.geb_leb; now apply Z.leb_le).
      reflexivity.
    + destruct (wait_for_snapshot_run w repo interval max (now w) i
                  (Z.to_nat max) (h ++ created repo (now w) i) 0)
        as (evs & res & E & Hrun); [lia|].
      rewrite Hw in E. injection E as -> <-.
      exists evs. split; [now rewrite app_assoc|].
      intros e He. eapply wait_run_no_delete; eassumption.
  - intros i Hin r Hdel.
    destruct (backup_trace_processed _ _ _ _ _ _ _ Hin eq_refl)
      as (d & q & evs & f & _ & _ & Hl & Hevs).
    apply Hevs in Hin; [|reflexivity]. apply Hevs in Hdel; [|reflexivity].
    destruct (loop_run_at _ _ _ _ _ _ _ _ _ _ _ _ Hl
                (stale_list_NoDup _ _ _) Hin eq_refl)
      as (l1 & di & l2 & pre & bev & bf & post & _ & Hb & _ & Hall & _).
    pose proof (Hall _ Hin eq_refl) as Hin1.
    pose proof (Hall _ Hdel eq_refl) as Hin2.
    pose proof (body_run_failure_no_delete _ _ _ _ _ _ _ _ _ _ _ i
                  Hb Hin1 eq_refl eq_refl _ Hin2).
    discriminate.
  - intros i Hnever r Hdel.
    destruct (backup_trace_processed _ _ _ _ _ _ _ Hdel eq_refl)
      as (d & q & evs & f & _ & E & Hl & _).
    assert (Hdel' : In (EDelete i r) evs).
    { fold tr in E. rewrite E in Hdel.
      apply in_app_or in Hdel as [Hdel|[Hdel|Hdel]]; [|discriminate|assumption].
      exfalso. unfold at_gate in Hdel. cbn [app] in Hdel.
      destruct Hdel as [Hdel|Hdel]; [discriminate|].
      apply listing_events_prints in Hdel as [Hdel|(x & _ & Hdel)]; discriminate. }
    destruct (loop_run_in _ _ _ _ _ _ _ _ _ _ _ Hl Hdel')
      as (j & h' & bev & bf & _ & Hb & He & Hsub).
    destruct (body_run_delete _ _ _ _ _ _ _ _ _ _ _ _ Hb He)
      as [-> (e & He' & Hobs)].
    apply (Hnever e); [|exact Hobs].
    fold tr in E. rewrite E. apply in_or_app. right. right. auto.
Qed.

Lemma C1_witness :
  In (EPrint (MsgTimedOut "logs-2023.01.01"))
     (backup_trace stuck_world "repo" 90 90 5 2)
  /\ (forall r, ~ In (EDelete "logs-2023.01.01" r)
                     (backup_trace stuck_world "repo" 90 90 5 2))
  /\ deleted_names (backup_trace stuck_world "repo" 90 90 5 2) = [].
Proof.
  assert (H : In (EPrint (MsgTimedOut "logs-2023.01.01"))
                 (backup_trace stuck_world "repo" 90 90 5 2)).
  { vm_compute. repeat (first [left; reflexivity | right]). }
  split; [exact H|].
  split; [|reflexivity].
  exact (proj1 (proj2 (C1_timed_out_index_is_retained stuck_world "repo" 90 90 5 2))
           "logs-2023.01.01" H).
Defined.

(** ** One failure does not stop the batch *)

Lemma failure_event_loop_event cd i e : failure_event cd i e -> loop_event e = true.
Proof.
  destruct e as [| |? ? ? [|]|? ? [|]| |? [|]|[]]; simpl; tauto.
Qed.

(** C7.  Let index [B] come right after index [A] in the stale list.  In
    the backup mode, a run that shows a failure of [A] (snapshot request
    rejected, snapshot FAILED or PARTIAL, polling timed out, delete
    rejected) also shows the snapshot request for [B].  In the delete mode
    the delete requests are the whole list in its order, whatever the
    answers of the cluster. *)
Theorem C7_failure_does_not_abort :
  forall (w : World) (repository_name : string)
         (days_ threshold interval max_retries : Z) (indices : dict)
         (l1 l2 : list (string * datetime)) (A B : string) (dA dB : datetime),
    get_alias w [] = Ok indices ->
    backup_old_indices (now w) days_ indices
    = Ok (l1 ++ (A, dA) :: (B, dB) :: l2) ->
    let tr := backup_trace w repository_name days_ threshold interval
                           max_retries in
    ((exists e, In e tr /\ failure_event (now w) A e) ->
     exists r, In (ECreate repository_name (snapshot_name_of (now w) B) B r) tr)
    /\ delete_old_indices (now w) days_ indices
       = Ok (l1 ++ (A, dA) :: (B, dB) :: l2)
    /\ deleted_names (delete_trace w days_)
       = map fst (l1 ++ (A, dA) :: (B, dB) :: l2).
Proof.
  intros w repo days_ thr interval max d l1 l2 A B dA dB Hg Hold tr.
  rewrite backup_old_indices_eq in Hold. injection Hold as Hold.
  split; [|split].
  - intros (e & Hin & Hf).
    pose proof (failure_event_refers _ _ _ Hf) as Hr.
    destruct (backup_trace_processed _ _ _ _ _ _ _ Hin
                (failure_event_loop_event _ _ _ Hf))
      as (d' & q & evs & f & Hg' & E & Hl & Hevs).
    rewrite Hg in Hg'. injection Hg' as <-.
    apply Hevs in Hin; [|exact (failure_event_loop_event _ _ _ Hf)].
    pose proof (stale_list_NoDup (now w) days_ d) as Hnd.
    rewrite Hold in Hl, Hnd.
    rewrite map_app in Hnd. cbn [map fst] in Hnd.
    pose proof (NoDup_remove_2 _ _ _ Hnd) as Hni.
    assert (Hsub : forall e', In e' evs -> In e' tr).
    { intros e' He'. subst tr. rewrite E. apply in_or_app. right. now right. }
    destruct (loop_run_split _ _ _ _ _ _ _ _ _ _ _ _ _ Hl)
      as [[-> Hl1]|(pre & bev & bf & post & Hp & Hb & -> & Hc)].
    { exfalso. apply Hni. apply in_or_app. left.
      eapply loop_run_refers; eassumption. }
    assert (Hnext : loop_run w repo thr interval max (now w)
                             ((at_gate w days_ [] d ++ [EDisk (Ok q)]) ++ pre ++ bev)
                             ((B, dB) :: l2) post f).
    { apply in_app_or in Hin as [Hin|Hin].
      { exfalso. apply Hni. apply in_or_app. left.
        eapply loop_run_refers; eassumption. }
      apply in_app_or in Hin as [Hin|Hin].
      - pose proof (body_run_failure_next _ _ _ _ _ _ _ _ _ _ _ _ Hb Hin Hf) as ->.
        destruct Hc as [(Hc & _)|[_ Hc]]; [discriminate|exact Hc].
      - destruct Hc as [(_ & -> & _)|[_ Hc]]; [contradiction|exact Hc]. }
    assert (Hfirst : exists bevB bfB rest,
               body_run w repo thr interval max (now w) B
                 ((at_gate w days_ [] d ++ [EDisk (Ok q)]) ++ pre ++ bev) bevB bfB
               /\ post = bevB ++ rest).
    { inversion Hnext; subst.
      - eexists _, _, []. split; [eassumption|now rewrite app_nil_r].
      - eexists _, _, _. split; [eassumption|reflexivity]. }
    destruct Hfirst as (bevB & bfB & rest & HbB & ->).
    destruct (body_run_first _ _ _ _ _ _ _ _ _ _ HbB) as (r & rest' & ->).
    exists r. apply Hsub.
    apply in_or_app. right. apply in_or_app. right. now left.
  - rewrite delete_old_indices_eq. now rewrite Hold.
  - unfold delete_trace. rewrite list_delete_old_indices_run.
    cbn [fst app]. unfold delete_run_events. rewrite Hg.
    cbn [deleted_names flat_map app]. fold deleted_names.
    rewrite deleted_names_app, deleted_names_listing, <- Hold.
    apply deleted_names_delete_events.
Qed.

Lemma C7_witness :
  get_alias stuck_world [] = Ok scenario_dict
  /\ backup_old_indices (now stuck_world) 90 scenario_dict
     = Ok ([] ++ ("logs-2023.01.01", mkdt 2023 1 1 0 0 0 0)
              :: ("logs-2023.06.01", mkdt 2023 6 1 0 0 0 0) :: [])
  /\ (exists e, In e (backup_trace stuck_world "repo" 90 90 5 2)
                /\ failure_event (now stuck_world) "logs-2023.01.01" e)
  /\ exists r, In (ECreate "repo"
                     (snapshot_name_of (now stuck_world) "logs-2023.06.01")
                     "logs-2023.06.01" r)
                  (backup_trace stuck_world "repo" 90 90 5 2).
Proof.
  assert (H : exists e, In e (backup_trace stuck_world "repo" 90 90 5 2)
                        /\ failure_event (now stuck_world) "logs-2023.01.01" e).
  { exists (EPrint (MsgTimedOut "logs-2023.01.01")).
    split; [|reflexivity].
    vm_compute. repeat (first [left; reflexivity | right]). }
  split; [reflexivity|]. split; [reflexivity|]. split; [exact H|].
  exact (proj1 (C7_failure_does_not_abort stuck_world "repo" 90 90 5 2
                  scenario_dict [] [] "logs-2023.01.01" "logs-2023.06.01"
                  (mkdt 2023 1 1 0 0 0 0) (mkdt 2023 6 1 0 0 0 0)
                  eq_refl eq_refl) H).
Defined.

(** ** A snapshot that failed *)

(** In an iteration, a poll that reports FAILED or PARTIAL is followed by
    the error line of the handler and by nothing else. *)
Lemma body_run_failed_poll w repo thr interval max cd i h evs f
      pre rp s resp st post :
  body_run w repo thr interval max cd i h evs f ->
  evs = pre ++ EStatus rp s (Ok resp) :: post ->
  status_state resp = Ok st -> failed_state st ->
  post = [EPrint (MsgErrorProcessing i (SnapshotFailed i st))] /\ f = Next.
Proof.
  intros Hb Hev Hst Hf.
  destruct Hb as [x|evs x Hc Hw|evs r' Hc Hw Hr|evs r' x Hc Hw Hr Hd
                 |evs r' x Hc Hw Hr Hd Hq|evs r' q Hc Hw Hr Hd Hq Hg
                 |evs r' q Hc Hw Hr Hd Hq Hg].
  { destruct pre as [|? [|? [|? ?]]]; discriminate. }
  all: unfold created, deleted in Hev;
    destruct pre as [|a [|b pre']]; [discriminate|discriminate|];
    cbn [app] in Hev; injection Hev as _ _ Hev;
    apply app_eq_app in Hev as [l [[Hw' Ht]|[Hp Ht]]];
    [ destruct l as [|y l']; [discriminate|];
      cbn [app] in Ht; injection Ht as <- ->;
      destruct (wait_run_failed _ _ _ _ _ _ _ _ _ _ _ _ _ _ _ _ Hw Hw' Hst Hf)
        as [-> E]; try discriminate
    | exfalso;
      match type of Ht with
      | ?tail = _ =>
          assert (Hin : In (EStatus rp s (Ok resp)) tail)
            by (rewrite Ht; apply in_elt)
      end;
      simpl in Hin;
      repeat match type of Hin with
        | _ \/ _ => destruct Hin as [Hin|Hin]
        | False => contradiction
        | _ = _ => discriminate
        end ].
  injection E as ->. split; reflexivity.
Qed.

(** The list [a ++ e :: b] is cut at [e] in one way when [e] occurs in
    neither [a] nor [b]. *)
Lemma cut_unique (a b t1 t2 : list event) (e : event) :
  a ++ e :: b = t1 ++ e :: t2 -> ~ In e a -> ~ In e b -> a = t1 /\ b = t2.
Proof.
  revert t1. induction a as [|x a IH]; intros [|y t1] E Ha Hb; cbn in E.
  - injection E as ->. auto.
  - injection E as <- ->. exfalso. apply Hb. apply in_elt.
  - injection E as -> _. exfalso. apply Ha. now left.
  - injection E as -> E. destruct (IH t1 E) as [-> ->]; auto.
    intros H. apply Ha. now right.
Qed.

Lemma at_gate_loop_event w days_ d e :
  In e (at_gate w days_ [] d) -> loop_event e = false.
Proof.
  unfold at_gate. cbn [app]. intros [<-|Hin]; [reflexivity|].
  apply listing_events_prints in Hin as [->|(x & _ & ->)]; reflexivity.
Qed.

(** The polls of an iteration are polls of the snapshot of its index. *)
Lemma body_run_status w repo thr interval max cd i h evs f rp s r :
  body_run w repo thr interval max cd i h evs f ->
  In (EStatus rp s r) evs -> s = snapshot_name_of cd i.
Proof.
  intros Hb Hin.
  destruct Hb as [x|evs x Hc Hw|evs r' Hc Hw Hr|evs r' x Hc Hw Hr Hd
                 |evs r' x Hc Hw Hr Hd Hq|evs r' q Hc Hw Hr Hd Hq Hg
                 |evs r' q Hc Hw Hr Hd Hq Hg];
    unfold created, deleted in Hin;
    repeat (apply in_app_or in Hin as [Hin|Hin]);
    try (pose proof (wait_run_events _ _ _ _ _ _ _ _ _ _ Hw) as Hev;
         rewrite Forall_forall in Hev; apply Hev in Hin;
         destruct Hin as [[y E]|[E|E]]; try discriminate;
         injection E as _ -> _; reflexivity);
    simpl in Hin;
    repeat match type of Hin with
      | _ \/ _ => destruct Hin as [Hin|Hin]
      | False => contradiction
      | _ = _ => discriminate
      end.
Qed.

(** C6.  In an iteration, a status poll that reports FAILED or PARTIAL is
    followed by the error line of the handler and nothing else: no further
    poll, no sleep, no delete, and the loop goes on.  In a whole run, the
    event after such a poll is that error line, nothing later concerns the
    index or its snapshot, and the index has no delete request. *)
Theorem C6_failed_snapshot_ends_the_wait :
  forall (w : World) (repository_name : string)
         (days_ threshold interval max_retries : Z),
    let tr := backup_trace w repository_name days_ threshold interval
                           max_retries in
    (forall i h evs f pre rp s resp st post,
        process_index w repository_name threshold interval max_retries
                      (now w) i h = (h ++ evs, Ok f) ->
        evs = pre ++ EStatus rp s (Ok resp) :: post ->
        status_state resp = Ok st -> failed_state st ->
        post = [EPrint (MsgErrorProcessing i (SnapshotFailed i st))]
        /\ f = Next
        /\ forall e, In e evs -> is_delete e = false)
    /\ (forall i t1 rp resp st t2,
           tr = t1 ++ EStatus rp (snapshot_name_of (now w) i) (Ok resp) :: t2 ->
           status_state resp = Ok st -> failed_state st ->
           (exists t3,
               t2 = EPrint (MsgErrorProcessing i (SnapshotFailed i st)) :: t3
               /\ forall e, In e t3 -> ~ refers (now w) i e)
           /\ forall r, ~ In (EDelete i r) tr).
Proof.
  intros w repo days_ thr interval max tr.
  split.
  - intros i h evs f pre rp s resp st post Hrun Hev Hst Hf.
    destruct (process_index_run w repo thr interval max (now w) i h)
      as (evs0 & f0 & E & Hb).
    rewrite Hrun in E. injection E as E <-.
    apply app_inv_head in E. subst evs0.
    destruct (body_run_failed_poll _ _ _ _ _ _ _ _ _ _ _ _ _ _ _ _ Hb Hev Hst Hf)
      as [-> ->].
    repeat split.
    assert (Hin : In (EStatus rp s (Ok resp)) evs)
      by (rewrite Hev; apply in_elt).
    pose proof (body_run_status _ _ _ _ _ _ _ _ _ _ _ _ _ Hb Hin) as ->.
    apply (body_run_failure_no_delete _ _ _ _ _ _ _ _ _ _ _ i Hb Hin);
      [|reflexivity].
    simpl. eauto.
  - intros i t1 rp resp st t2 Htr Hst Hf.
    set (e := EStatus rp (snapshot_name_of (now w) i) (Ok resp)) in *.
    assert (Hfe : failure_event (now w) i e) by (simpl; eauto).
    assert (Hin : In e tr) by (rewrite Htr; apply in_elt).
    destruct (backup_trace_processed _ _ _ _ _ _ _ Hin eq_refl)
      as (d & q & evs & f & _ & E & Hl & Hevs).
    pose proof (Hevs _ Hin eq_refl) as Hin'.
    destruct (loop_run_at _ _ _ _ _ _ _ _ _ _ _ _ Hl
                (stale_list_NoDup _ _ _) Hin' eq_refl)
      as (l1 & di & l2 & pre & bev & bf & post & _ & Hb & -> & Hall & _ & Hpre & Hpost).
    pose proof (Hall _ Hin' eq_refl) as Hinb.
    split.
    + destruct (in_split _ _ Hinb) as (b1 & b2 & Hbev).
      destruct (body_run_failed_poll _ _ _ _ _ _ _ _ _ _ _ _ _ _ _ _
                  Hb Hbev Hst Hf) as [-> _].
      assert (Hb1 : ~ In e b1).
      { intros Hin1. apply in_split in Hin1 as (c1 & c2 & ->).
        rewrite <- app_assoc in Hbev. cbn [app] in Hbev.
        destruct (body_run_failed_poll _ _ _ _ _ _ _ _ _ _ _ _ _ _ _ _
                    Hb Hbev Hst Hf) as [Hc2 _].
        destruct c2 as [|? [|? ?]]; discriminate. }
      fold tr in E. rewrite Htr, Hbev in E.
      replace (at_gate w days_ [] d
               ++ EDisk (Ok q)
                  :: pre ++ (b1 ++ e
                     :: [EPrint (MsgErrorProcessing i (SnapshotFailed i st))])
                     ++ post)
        with ((at_gate w days_ [] d ++ EDisk (Ok q) :: pre ++ b1)
              ++ e :: EPrint (MsgErrorProcessing i (SnapshotFailed i st)) :: post)
        in E by now norm_hist.
      symmetry in E. apply cut_unique in E as [_ <-].
      * eauto.
      * intros Hx. apply in_app_or in Hx as [Hx|[Hx|Hx]].
        -- apply at_gate_loop_event in Hx. discriminate.
        -- discriminate.
        -- apply in_app_or in Hx as [Hx|Hx]; [|contradiction].
           exact (Hpre _ Hx (failure_event_refers _ _ _ Hfe)).
      * intros [Hx|Hx]; [discriminate|].
        exact (Hpost _ Hx (failure_event_refers _ _ _ Hfe)).
    + intros r Hdel.
      pose proof (Hevs _ Hdel eq_refl) as Hdel'.
      pose proof (Hall _ Hdel' eq_refl) as Hdelb.
      pose proof (body_run_failure_no_delete _ _ _ _ _ _ _ _ _ _ _ i
                    Hb Hinb Hfe eq_refl _ Hdelb).
      discriminate.
Qed.

Lemma C6_witness :
  let i := "logs-2023.01.01" in
  let s := snapshot_name_of (now partial_world) i in
  let resp := mkstatus (Some [mksnap (Some "PARTIAL")]) in
  let pre := [ECreate "repo" s i (Ok tt); EPrint (MsgSnapshotCreated i s)] in
  let post := [EPrint (MsgErrorProcessing i (SnapshotFailed i "PARTIAL"))] in
  process_index partial_world "repo" 90 5 3 (now partial_world) i []
  = ([] ++ (pre ++ EStatus "repo" s (Ok resp) :: post), Ok Next)
  /\ status_state resp = Ok "PARTIAL"
  /\ failed_state "PARTIAL"
  /\ post = [EPrint (MsgErrorProcessing i (SnapshotFailed i "PARTIAL"))]
  /\ Next = Next
  /\ forall e, In e (pre ++ EStatus "repo" s (Ok resp) :: post) ->
               is_delete e = false.
Proof.
  intros i s resp pre post.
  assert (H1 : process_index partial_world "repo" 90 5 3 (now partial_world) i []
               = ([] ++ (pre ++ EStatus "repo" s (Ok resp) :: post), Ok Next))
    by reflexivity.
  assert (H2 : status_state resp = Ok "PARTIAL") by reflexivity.
  assert (H3 : failed_state "PARTIAL") by (right; reflexivity).
  split; [exact H1|]. split; [exact H2|]. split; [exact H3|].
  exact (proj1 (C6_failed_snapshot_ends_the_wait partial_world "repo" 90 90 5 3)
           i [] (pre ++ EStatus "repo" s (Ok resp) :: post) Next
           pre "repo" s resp "PARTIAL" post H1 eq_refl H2 H3).
Defined.

(* ------------------------------------------------------------------ *)
(** * Further properties of the two functions *)

Lemma count_app p a b : count p (a ++ b) = (count p a + count p b)%nat.
Proof.
  unfold count. induction a as [|x a IH]; cbn; [reflexivity|].
  destruct (p x); cbn; now rewrite IH.
Qed.

Lemma slept_app a b : slept (a ++ b) = slept a + slept b.
Proof.
  unfold slept. induction a as [|x a IH]; cbn; [reflexivity|].
  rewrite IH. destruct x; lia.
Qed.

Lemma count_none p t : (forall e, In e t -> p e = false) -> count p t = 0%nat.
Proof.
  unfold count. induction t as [|x t IH]; intros H; cbn; [reflexivity|].
  rewrite (H x (or_introl eq_refl)). apply IH. intros e He. apply H. now right.
Qed.

Lemma created_names_none t :
  (forall e, In e t -> is_create e = false) -> created_names t = [].
Proof.
  unfold created_names. induction t as [|x t IH]; intros H; cbn; [reflexivity|].
  rewrite IH by (intros e He; apply H; now right).
  pose proof (H x (or_introl eq_refl)) as Hx. destruct x; try reflexivity.
  discriminate.
Qed.

Lemma deleted_names_none t :
  (forall e, In e t -> is_delete e = false) -> deleted_names t = [].
Proof.
  unfold deleted_names. induction t as [|x t IH]; intros H; cbn; [reflexivity|].
  rewrite IH by (intros e He; apply H; now right).
  pose proof (H x (or_introl eq_refl)) as Hx. destruct x; try reflexivity.
  discriminate.
Qed.

(** Outside the loop a run makes no call that [loop_event] names. *)
Lemma loop_event_false_calls e :
  loop_event e = false ->
  is_create e = false /\ is_delete e = false /\ is_status e = false
  /\ is_sleep e = false /\ is_deleted e = false.
Proof. destruct e as [| | | | |? [|]|]; cbn; intros H; try discriminate; auto. Qed.

Section Coverage.

Variable w : World.
Variable repository_name : string.
Variables disk_usage_threshold snapshot_retry_interval snapshot_max_retries : Z.
Variable cd : datetime.

Local Abbreviation wait_run := (wait_run w repository_name snapshot_retry_interval
                               snapshot_max_retries cd).
Local Abbreviation body_run := (body_run w repository_name disk_usage_threshold
                               snapshot_retry_interval snapshot_max_retries cd).
Local Abbreviation loop_run := (loop_run w repository_name disk_usage_threshold
                               snapshot_retry_interval snapshot_max_retries cd).

(** The waiter polls at most [max - retries] times, sleeps at most once
    after each poll, each time for the configured interval, and makes no
    other call. *)
Lemma wait_run_counts i h r evs res :
  wait_run i h r evs res ->
  (count is_status evs <= Z.to_nat (snapshot_max_retries - r))%nat
  /\ (count is_sleep evs <= count is_status evs)%nat
  /\ slept evs = snapshot_retry_interval * Z.of_nat (count is_sleep evs)
  /\ count is_disk evs = 0%nat
  /\ count is_deleted evs = 0%nat.
Proof.
  induction 1; cbn;
    try (repeat split; try lia; fail).
  destruct IHwait_run as (I1 & I2 & I3 & I4 & I5).
  repeat split; try assumption; unfold count in *.
  - lia.
  - lia.
  - fold (slept evs). rewrite I3. lia.
Qed.

(** An iteration makes one snapshot request, at most [max] polls, and
    samples the disk exactly when its delete was acknowledged. *)
Lemma body_run_counts i h evs f :
  body_run i h evs f ->
  created_names evs = [i]
  /\ (count is_status evs <= Z.to_nat snapshot_max_retries)%nat
  /\ (count is_sleep evs <= count is_status evs)%nat
  /\ slept evs = snapshot_retry_interval * Z.of_nat (count is_sleep evs)
  /\ count is_disk evs = count is_deleted evs.
Proof.
  intros Hb.
  split; [exact (body_run_created_names _ _ _ _ _ _ _ _ _ _ Hb)|].
  destruct Hb as [x|evs x Hc Hw|evs r' Hc Hw Hr|evs r' x Hc Hw Hr Hd
                 |evs r' x Hc Hw Hr Hd Hq|evs r' q Hc Hw Hr Hd Hq Hg
                 |evs r' q Hc Hw Hr Hd Hq Hg];
    [cbn; repeat split; lia|..];
    destruct (wait_run_counts _ _ _ _ _ Hw) as (I1 & I2 & I3 & I4 & I5);
    rewrite Z.sub_0_r in I1;
    unfold created, deleted;
    rewrite !count_app, !slept_app;
    cbn; repeat split; lia.
Qed.

Lemma body_run_deleted_names i h evs f :
  body_run i h evs f -> deleted_names evs = [] \/ deleted_names evs = [i].
Proof.
  intros Hb.
  destruct Hb as [x|evs x Hc Hw|evs r' Hc Hw Hr|evs r' x Hc Hw Hr Hd
                 |evs r' x Hc Hw Hr Hd Hq|evs r' q Hc Hw Hr Hd Hq Hg
                 |evs r' q Hc Hw Hr Hd Hq Hg];
    [left; reflexivity|..];
    assert (Hn : deleted_names evs = [])
      by (apply deleted_names_none; intros e He;
          eapply wait_run_no_delete; eassumption);
    unfold created, deleted;
    rewrite !deleted_names_app, Hn; cbn; auto.
Qed.

(** Over the whole loop. *)
Lemma loop_run_counts h l evs f :
  loop_run h l evs f ->
  (count is_status evs
   <= Z.to_nat snapshot_max_retries * List.length (created_names evs))%nat
  /\ (count is_sleep evs <= count is_status evs)%nat
  /\ slept evs = snapshot_retry_interval * Z.of_nat (count is_sleep evs)
  /\ count is_disk evs = count is_deleted evs.
Proof.
  induction 1 as [h|h i d rest evs Hb|h i d rest evs evs' f Hb Hl IH].
  - cbn. repeat split; lia.
  - destruct (body_run_counts _ _ _ _ Hb) as (-> & I2 & I3 & I4 & I5).
    cbn [List.length]. repeat split; try assumption. lia.
  - destruct (body_run_counts _ _ _ _ Hb) as (J1 & J2 & J3 & J4 & J5).
    destruct IH as (I2 & I3 & I4 & I5).
    rewrite created_names_app, J1, !count_app, slept_app.
    cbn [List.length app]. repeat split; try lia.
Qed.

(** The snapshot requests and the delete requests of the loop: no index
    twice, and a delete only for an index with a snapshot request. *)
Lemma loop_run_names h l evs f :
  loop_run h l evs f -> NoDup (map fst l) ->
  NoDup (created_names evs) /\ NoDup (deleted_names evs)
  /\ incl (deleted_names evs) (created_names evs)
  /\ incl (created_names evs) (map fst l).
Proof.
  induction 1 as [h|h i d rest evs Hb|h i d rest evs evs' f Hb Hl IH];
    intros Hnd.
  - cbn. repeat split; try constructor; intros x [].
  - rewrite (body_run_created_names _ _ _ _ _ _ _ _ _ _ Hb).
    assert (N1 : NoDup [i]) by (constructor; [intros []|constructor]).
    destruct (body_run_deleted_names _ _ _ _ Hb) as [-> | ->].
    + split; [exact N1|]. split; [constructor|].
      split; [intros x []|intros x [<-|[]]; now left].
    + split; [exact N1|]. split; [exact N1|].
      split; [intros x Hx; exact Hx|intros x [<-|[]]; now left].
  - cbn [map fst] in Hnd. inversion Hnd as [|? ? Hni Hnd']; subst.
    destruct (IH Hnd') as (I1 & I2 & I3 & I4).
    rewrite created_names_app, deleted_names_app,
      (body_run_created_names _ _ _ _ _ _ _ _ _ _ Hb).
    assert (Hi : ~ In i (created_names evs')) by (intros Hin; apply Hni; auto).
    cbn [app]. split; [now constructor|].
    split; [|split].
    + destruct (body_run_deleted_names _ _ _ _ Hb) as [-> | ->]; cbn [app];
        [assumption|].
      constructor; [|assumption]. intros Hin. apply Hi. auto.
    + intros x Hx. apply in_app_or in Hx as [Hx|Hx].
      * destruct (body_run_deleted_names _ _ _ _ Hb) as [E|E];
          rewrite E in Hx; [contradiction|].
        destruct Hx as [<-|[]]. now left.
      * right. auto.
    + intros x [<-|Hx]; [now left|]. right. auto.
Qed.

End Coverage.

Lemma at_gate_events w days_ d e :
  In e (at_gate w days_ [] d) ->
  e = EGetAlias (Ok d) \/ is_print e = true.
Proof.
  unfold at_gate. cbn [app]. intros [<-|Hin]; [now left|right].
  apply listing_events_prints in Hin as [->|(x & _ & ->)]; reflexivity.
Qed.

Lemma backup_trace_listing_failed w repo days_ thr interval max e :
  get_alias w [] = Raise e ->
  backup_trace w repo days_ thr interval max
  = [EGetAlias (Raise e); EPrint (fatal_message e)].
Proof.
  intros Hg. unfold backup_trace.
  destruct (list_backup_delete_old_indices_run w repo thr interval max days_ [])
    as (evs & -> & Hr).
  cbn [fst app]. inversion Hr; subst; congruence.
Qed.

(** A run of [list_backup_delete_old_indices] is the events of the loop
    over a list of distinct names, between events made outside the loop;
    those hold one disk sample when the listing call succeeded, none
    otherwise. *)
Lemma backup_trace_shape w repo days_ thr interval max :
  exists pre l evs f post h,
    backup_trace w repo days_ thr interval max = pre ++ evs ++ post
    /\ loop_run w repo thr interval max (now w) h l evs f
    /\ NoDup (map fst l)
    /\ (forall e, In e (pre ++ post) -> loop_event e = false)
    /\ count is_disk (pre ++ post)
       = match get_alias w [] with Ok _ => 1%nat | Raise _ => 0%nat end.
Proof.
  destruct (get_alias w []) as [d|x] eqn:Hg.
  - assert (Hgd : count is_disk (at_gate w days_ [] d) = 0%nat).
    { apply count_none. intros e He.
      apply at_gate_events in He as [->|He]; [reflexivity|].
      destruct e; try discriminate; reflexivity. }
    destruct (backup_trace_cases w repo days_ thr interval max d Hg)
      as [(e & _ & E)|[(q & _ & _ & E)|(q & evs & f & _ & _ & Hl & E)]].
    + exists (backup_trace w repo days_ thr interval max), [], [], Next, [], [].
      rewrite !app_nil_r. split; [reflexivity|]. split; [constructor|].
      split; [constructor|]. rewrite E. split.
      * intros e0 He. apply in_app_or in He as [He|[<-|[<-|[]]]];
          [now apply at_gate_loop_event in He|reflexivity|now destruct e].
      * rewrite count_app, Hgd. reflexivity.
    + exists (backup_trace w repo days_ thr interval max), [], [], Next, [], [].
      rewrite !app_nil_r. split; [reflexivity|]. split; [constructor|].
      split; [constructor|]. rewrite E. split.
      * intros e0 He. apply in_app_or in He as [He|[<-|[<-|[]]]];
          [now apply at_gate_loop_event in He|reflexivity|reflexivity].
      * rewrite count_app, Hgd. reflexivity.
    + exists (at_gate w days_ [] d ++ [EDisk (Ok q)]),
             (stale_list (now w) days_ d), evs, f, [],
             (at_gate w days_ [] d ++ [EDisk (Ok q)]).
      rewrite !app_nil_r. split; [rewrite E; now norm_hist|].
      split; [assumption|]. split; [apply stale_list_NoDup|]. split.
      * intros e0 He. apply in_app_or in He as [He|[<-|[]]];
          [now apply at_gate_loop_event in He|reflexivity].
      * rewrite count_app, Hgd. reflexivity.
  - exists (backup_trace w repo days_ thr interval max), [], [], Next, [], [].
    rewrite !app_nil_r. split; [reflexivity|]. split; [constructor|].
    split; [constructor|].
    rewrite (backup_trace_listing_failed _ _ _ _ _ _ _ Hg). split.
    + intros e0 [<-|[<-|[]]]; [reflexivity|now destruct x].
    + reflexivity.
Qed.

Lemma slept_none t : (forall e, In e t -> is_sleep e = false) -> slept t = 0.
Proof.
  unfold slept. induction t as [|x t IH]; intros H; cbn; [reflexivity|].
  rewrite IH by (intros e He; apply H; now right).
  pose proof (H x (or_introl eq_refl)) as Hx. destruct x; try reflexivity.
  discriminate.
Qed.

Lemma count_around p (pre evs post : list event) :
  count p (pre ++ evs ++ post) = (count p (pre ++ post) + count p evs)%nat.
Proof. rewrite !count_app. lia. Qed.

Lemma delete_trace_deleted_names w days_ :
  deleted_names (delete_trace w days_)
  = match get_alias w [] with
    | Ok d => map fst (stale_list (now w) days_ d)
    | Raise _ => []
    end.
Proof.
  unfold delete_trace. rewrite list_delete_old_indices_run.
  cbn [fst app]. unfold delete_run_events.
  destruct (get_alias w []) as [d|x]; [|reflexivity].
  cbn [deleted_names flat_map app]. fold deleted_names.
  rewrite deleted_names_app, deleted_names_listing.
  apply deleted_names_delete_events.
Qed.

(** X1.  The waiter is bounded: an iteration polls the snapshot status at
    most [snapshot_max_retries] times and sleeps at most once per poll, so
    a whole run makes at most [snapshot_max_retries] polls for each
    snapshot it requested and sleeps [snapshot_retry_interval] seconds
    each time. *)
Theorem X1_polls_are_bounded :
  forall (w : World) (repository_name : string)
         (days_ threshold interval max_retries : Z),
    let tr := backup_trace w repository_name days_ threshold interval
                           max_retries in
    (count is_status tr
     <= Z.to_nat max_retries * List.length (created_names tr))%nat
    /\ (count is_sleep tr <= count is_status tr)%nat
    /\ slept tr = interval * Z.of_nat (count is_sleep tr)
    /\ (forall i h, exists evs f,
           process_index w repository_name threshold interval max_retries
                         (now w) i h = (h ++ evs, Ok f)
           /\ (count is_status evs <= Z.to_nat max_retries)%nat
           /\ (count is_sleep evs <= count is_status evs)%nat).
Proof.
  intros w repo days_ thr interval max tr.
  destruct (backup_trace_shape w repo days_ thr interval max)
    as (pre & l & evs & f & post & h & E & Hl & _ & Hout & _).
  destruct (loop_run_counts _ _ _ _ _ _ _ _ _ _ Hl) as (I1 & I2 & I3 & _).
  assert (Hpre : forall e, In e pre -> loop_event e = false)
    by (intros e He; apply Hout, in_or_app; now left).
  assert (Hpost : forall e, In e post -> loop_event e = false)
    by (intros e He; apply Hout, in_or_app; now right).
  assert (C : forall p, (forall e, loop_event e = false -> p e = false) ->
                        count p tr = count p evs).
  { intros p Hp. subst tr. rewrite E, !count_app.
    rewrite (count_none p pre), (count_none p post); auto. }
  assert (N : created_names tr = created_names evs).
  { subst tr. rewrite E, !created_names_app.
    rewrite (created_names_none pre), (created_names_none post), app_nil_r;
      [reflexivity| |];
      intros e He; apply loop_event_false_calls; auto. }
  assert (S : slept tr = slept evs).
  { subst tr. rewrite E, !slept_app.
    rewrite (slept_none pre), (slept_none post); [lia| |];
      intros e He; apply loop_event_false_calls; auto. }
  rewrite N, S.
  rewrite (C is_status) by (intros e He; now apply loop_event_false_calls).
  rewrite (C is_sleep) by (intros e He; now apply loop_event_false_calls).
  split; [exact I1|]. split; [exact I2|]. split; [exact I3|].
  intros i h0.
  destruct (process_index_run w repo thr interval max (now w) i h0)
    as (bev & bf & Eb & Hb).
  exists bev, bf. split; [exact Eb|].
  destruct (body_run_counts _ _ _ _ _ _ _ _ _ _ Hb) as (_ & J2 & J3 & _).
  auto.
Qed.

(** X2.  No index is handled twice: in a run of either function the
    snapshot requests and the delete requests name pairwise distinct
    indices, and the backup mode asks for the delete of an index only if it
    asked for its snapshot. *)
Theorem X2_no_index_twice :
  forall (w : World) (repository_name : string)
         (days_ threshold interval max_retries : Z),
    let tr := backup_trace w repository_name days_ threshold interval
                           max_retries in
    NoDup (created_names tr)
    /\ NoDup (deleted_names tr)
    /\ incl (deleted_names tr) (created_names tr)
    /\ NoDup (deleted_names (delete_trace w days_)).
Proof.
  intros w repo days_ thr interval max tr.
  destruct (backup_trace_shape w repo days_ thr interval max)
    as (pre & l & evs & f & post & h & E & Hl & Hnd & Hout & _).
  destruct (loop_run_names _ _ _ _ _ _ _ _ _ _ Hl Hnd) as (I1 & I2 & I3 & _).
  assert (Hpre : forall e, In e pre -> loop_event e = false)
    by (intros e He; apply Hout, in_or_app; now left).
  assert (Hpost : forall e, In e post -> loop_event e = false)
    by (intros e He; apply Hout, in_or_app; now right).
  assert (N : created_names tr = created_names evs).
  { subst tr. rewrite E, !created_names_app.
    rewrite (created_names_none pre), (created_names_none post), app_nil_r;
      [reflexivity| |];
      intros e He; apply loop_event_false_calls; auto. }
  assert (D : deleted_names tr = deleted_names evs).
  { subst tr. rewrite E, !deleted_names_app.
    rewrite (deleted_names_none pre), (deleted_names_none post), app_nil_r;
      [reflexivity| |];
      intros e He; apply loop_event_false_calls; auto. }
  rewrite N, D. repeat split; try assumption.
  rewrite delete_trace_deleted_names.
  destruct (get_alias w []); [apply stale_list_NoDup|constructor].
Qed.

(** X3.  The disk is sampled once before the loop and once after each
    acknowledged delete, and at no other time: when the listing call
    succeeds, the number of samples of a run is one more than the number
    of indices it deleted. *)
Theorem X3_disk_samples :
  forall (w : World) (repository_name : string)
         (days_ threshold interval max_retries : Z) (indices : dict),
    get_alias w [] = Ok indices ->
    let tr := backup_trace w repository_name days_ threshold interval
                           max_retries in
    count is_disk tr = S (count is_deleted tr).
Proof.
  intros w repo days_ thr interval max d Hg tr.
  destruct (backup_trace_shape w repo days_ thr interval max)
    as (pre & l & evs & f & post & h & E & Hl & _ & Hout & Hd).
  destruct (loop_run_counts _ _ _ _ _ _ _ _ _ _ Hl) as (_ & _ & _ & I4).
  rewrite Hg in Hd. subst tr. rewrite E, !count_around, Hd, I4.
  rewrite (count_none is_deleted (pre ++ post)); [reflexivity|].
  intros e He. now apply loop_event_false_calls, Hout.
Qed.

Lemma X3_witness :
  get_alias scenario_world [] = Ok scenario_dict
  /\ count is_disk (backup_trace scenario_world "repo" 90 90 5 3) = 3%nat
  /\ count is_disk (backup_trace scenario_world "repo" 90 90 5 3)
     = S (count is_deleted (backup_trace scenario_world "repo" 90 90 5 3)).
Proof.
  split; [reflexivity|]. split; [reflexivity|].
  exact (X3_disk_samples scenario_world "repo" 90 90 5 3 scenario_dict eq_refl).
Defined.

Section Order.

Variable w : World.
Variable repository_name : string.
Variables disk_usage_threshold snapshot_retry_interval snapshot_max_retries : Z.
Variable cd : datetime.

Local Abbreviation wait_run := (wait_run w repository_name snapshot_retry_interval
                               snapshot_max_retries cd).
Local Abbreviation body_run := (body_run w repository_name disk_usage_threshold
                               snapshot_retry_interval snapshot_max_retries cd).
Local Abbreviation loop_run := (loop_run w repository_name disk_usage_threshold
                               snapshot_retry_interval snapshot_max_retries cd).
Local Abbreviation snap := (snapshot_name_of cd).

Lemma wait_run_event_kinds i h r evs res e :
  wait_run i h r evs res -> In e evs ->
  (exists x, e = EStatus repository_name (snap i) x)
  \/ e = EPrint (MsgWaiting (snap i))
  \/ e = ESleep snapshot_retry_interval.
Proof.
  intros H Hin. apply wait_run_events in H.
  rewrite Forall_forall in H. exact (H _ Hin).
Qed.

(** The event of line 123 is the last of its iteration, which leaves the
    function; it follows an acknowledged delete and a sample above the
    threshold. *)
Lemma body_run_disk_after i h evs f t j :
  body_run i h evs f -> In (EPrint (MsgDiskAfter t j)) evs ->
  f = Return /\ t = disk_usage_threshold /\ j = i
  /\ exists t1 q,
      evs = t1 ++ [EDelete i (Ok tt); EPrint (MsgDeletedAfterSnapshot i);
                   EDisk (Ok q); EPrint (MsgDiskAfter disk_usage_threshold i)]
      /\ Qgtb q (inject_Z disk_usage_threshold) = true.
Proof.
  intros Hb Hin.
  destruct Hb as [x|evs x Hc Hw|evs r' Hc Hw Hr|evs r' x Hc Hw Hr Hd
                 |evs r' x Hc Hw Hr Hd Hq|evs r' q Hc Hw Hr Hd Hq Hg
                 |evs r' q Hc Hw Hr Hd Hq Hg];
    unfold created, deleted in *;
    repeat (apply in_app_or in Hin as [Hin|Hin]);
    try (destruct (wait_run_event_kinds _ _ _ _ _ _ Hw Hin)
           as [[y E]|[E|E]]; discriminate E);
    simpl in Hin;
    repeat match type of Hin with
      | _ \/ _ => destruct Hin as [Hin|Hin]
      | False => contradiction
      end;
    try discriminate Hin;
    try (destruct x; discriminate Hin).
  injection Hin as <- <-.
  repeat split. exists ([ECreate repository_name (snap i) i (Ok tt);
                         EPrint (MsgSnapshotCreated i (snap i))] ++ evs), q.
  split; [now rewrite <- app_assoc|assumption].
Qed.

(** Through the loop: such an event ends the run of the loop, and the
    snapshot requests stop at its index. *)
Lemma loop_run_disk_after h l evs f t j :
  loop_run h l evs f -> In (EPrint (MsgDiskAfter t j)) evs ->
  f = Return /\ t = disk_usage_threshold
  /\ (exists t1 q,
         evs = t1 ++ [EDelete j (Ok tt); EPrint (MsgDeletedAfterSnapshot j);
                      EDisk (Ok q); EPrint (MsgDiskAfter disk_usage_threshold j)]
         /\ Qgtb q (inject_Z disk_usage_threshold) = true)
  /\ exists l1 d l2,
      l = l1 ++ (j, d) :: l2 /\ created_names evs = map fst l1 ++ [j].
Proof.
  induction 1 as [h|h i d rest evs Hb|h i d rest evs evs' f Hb Hl IH];
    intros Hin.
  - contradiction.
  - destruct (body_run_disk_after _ _ _ _ _ _ Hb Hin)
      as (_ & -> & -> & t1 & q & E & Hq).
    repeat split; [eauto|].
    exists [], d, rest. split; [reflexivity|].
    exact (body_run_created_names _ _ _ _ _ _ _ _ _ _ Hb).
  - apply in_app_or in Hin as [Hin|Hin].
    + destruct (body_run_disk_after _ _ _ _ _ _ Hb Hin) as (F & _). discriminate.
    + destruct (IH Hin) as (-> & -> & (t1 & q & -> & Hq) & l1 & dj & l2 & -> & Hn).
      repeat split.
      * exists (evs ++ t1), q. split; [now rewrite <- app_assoc|assumption].
      * exists ((i, d) :: l1), dj, l2. split; [reflexivity|].
        rewrite created_names_app, Hn,
          (body_run_created_names _ _ _ _ _ _ _ _ _ _ Hb).
        reflexivity.
Qed.

(** When no sample is above the threshold the loop requests a snapshot
    for every index of its list. *)
Lemma loop_run_complete h l evs f :
  loop_run h l evs f ->
  (forall q, In (EDisk (Ok q)) evs -> Qgtb q (inject_Z disk_usage_threshold) = false) ->
  f = Next /\ created_names evs = map fst l.
Proof.
  induction 1 as [h|h i d rest evs Hb|h i d rest evs evs' f Hb Hl IH];
    intros Hq.
  - auto.
  - exfalso. inversion Hb as [| | | | |evs0 r q Hc Hw Hr Hd Hs Hg|]; subst.
    rewrite Hq in Hg; [discriminate|].
    unfold created, deleted. apply in_or_app. right.
    apply in_or_app. right. right. right. now left.
  - destruct IH as [-> E].
    { intros q Hin. apply Hq. apply in_or_app. now right. }
    split; [reflexivity|].
    rewrite created_names_app, E,
      (body_run_created_names _ _ _ _ _ _ _ _ _ _ Hb).
    reflexivity.
Qed.

(** An event of the loop, with its place in the loop's events. *)
Lemma loop_run_in_split h l evs f e :
  loop_run h l evs f -> In e evs ->
  exists i h' pre bev bf post,
    evs = pre ++ bev ++ post /\ body_run i h' bev bf /\ In e bev.
Proof.
  induction 1 as [h|h i d rest evs Hb|h i d rest evs evs' f Hb Hl IH];
    intros Hin.
  - contradiction.
  - exists i, h, [], evs, Return, []. rewrite app_nil_r. auto.
  - apply in_app_or in Hin as [Hin|Hin].
    + exists i, h, [], evs, Next, evs'. auto.
    + destruct (IH Hin) as (j & h' & pre & bev & bf & post & -> & Hb' & He).
      exists j, h', (evs ++ pre), bev, bf, post.
      split; [now rewrite <- app_assoc|auto].
Qed.

(** In an iteration the delete request comes right after a poll that
    reported SUCCESS, itself after the acknowledged snapshot request. *)
Lemma body_run_delete_place i h evs f j r :
  body_run i h evs f -> In (EDelete j r) evs ->
  j = i
  /\ exists t2 resp t3,
      evs = ECreate repository_name (snap i) i (Ok tt)
            :: t2 ++ [EStatus repository_name (snap i) (Ok resp); EDelete i r]
            ++ t3
      /\ status_state resp = Ok "SUCCESS".
Proof.
  intros Hb Hin.
  destruct Hb as [x|evs x Hc Hw|evs r' Hc Hw Hr|evs r' x Hc Hw Hr Hd
                 |evs r' x Hc Hw Hr Hd Hq|evs r' q Hc Hw Hr Hd Hq Hg
                 |evs r' q Hc Hw Hr Hd Hq Hg];
    unfold created, deleted in *;
    repeat (apply in_app_or in Hin as [Hin|Hin]);
    try (destruct (wait_run_event_kinds _ _ _ _ _ _ Hw Hin)
           as [[y E]|[E|E]]; discriminate E);
    simpl in Hin;
    repeat match type of Hin with
      | _ \/ _ => destruct Hin as [Hin|Hin]
      | False => contradiction
      end;
    try discriminate Hin;
    try (destruct x; discriminate Hin);
    injection Hin as <- <-;
    (split; [reflexivity|]);
    destruct (wait_run_success _ _ _ _ _ _ _ _ _ _ Hw Hr)
      as (pre & resp & -> & Hs);
    eexists (EPrint (MsgSnapshotCreated i (snap i)) :: pre), resp, _;
    (split; [|exact Hs]);
    cbn [app]; rewrite <- !app_assoc; cbn [app]; reflexivity.
Qed.

(** A poll of an iteration is a poll, in the configured repository, of the
    snapshot whose request the iteration saw acknowledged before. *)
Lemma body_run_status_place i h evs f rp s r :
  body_run i h evs f -> In (EStatus rp s r) evs ->
  rp = repository_name /\ s = snap i
  /\ exists rest,
      evs = ECreate repository_name (snap i) i (Ok tt) :: rest
      /\ In (EStatus rp s r) rest.
Proof.
  intros Hb Hin.
  assert (Hk : rp = repository_name /\ s = snap i).
  { destruct Hb as [x|evs x Hc Hw|evs r' Hc Hw Hr|evs r' x Hc Hw Hr Hd
                   |evs r' x Hc Hw Hr Hd Hq|evs r' q Hc Hw Hr Hd Hq Hg
                   |evs r' q Hc Hw Hr Hd Hq Hg];
      unfold created, deleted in *;
      repeat (apply in_app_or in Hin as [Hin|Hin]);
      try (destruct (wait_run_event_kinds _ _ _ _ _ _ Hw Hin)
             as [[y E]|[E|E]]; try discriminate E;
           injection E as -> -> _; split; reflexivity);
      simpl in Hin;
      repeat match type of Hin with
        | _ \/ _ => destruct Hin as [Hin|Hin]
        | False => contradiction
        end;
      discriminate Hin. }
  destruct Hk as [-> ->]. repeat split.
  destruct Hb as [x|evs x Hc Hw|evs r' Hc Hw Hr|evs r' x Hc Hw Hr Hd
                 |evs r' x Hc Hw Hr Hd Hq|evs r' q Hc Hw Hr Hd Hq Hg
                 |evs r' q Hc Hw Hr Hd Hq Hg];
    unfold created in *; cbn [app] in *;
    (destruct Hin as [Hin|Hin]; [discriminate Hin|]);
    try (eexists; split; [reflexivity|exact Hin]).
  destruct Hin as [Hin|[]]; discriminate Hin.
Qed.

(** The events of an iteration are calls of the loop and printed lines. *)
Lemma body_run_no_listing i h evs f e :
  body_run i h evs f -> In e evs -> is_get_alias e = false.
Proof.
  intros Hb Hin.
  destruct Hb as [x|evs x Hc Hw|evs r' Hc Hw Hr|evs r' x Hc Hw Hr Hd
                 |evs r' x Hc Hw Hr Hd Hq|evs r' q Hc Hw Hr Hd Hq Hg
                 |evs r' q Hc Hw Hr Hd Hq Hg];
    unfold created, deleted in *;
    repeat (apply in_app_or in Hin as [Hin|Hin]);
    try (destruct (wait_run_event_kinds _ _ _ _ _ _ Hw Hin)
           as [[y E]|[E|E]]; subst e; reflexivity);
    simpl in Hin;
    repeat match type of Hin with
      | _ \/ _ => destruct Hin as [Hin|Hin]
      | False => contradiction
      end;
    subst e; reflexivity.
Qed.

End Order.

Lemma Qgtb_false (q t : Q) : Qgtb q t = false <-> (q <= t)%Q.
Proof.
  unfold Qgtb. rewrite negb_false_iff. apply Qle_bool_iff.
Qed.

(** A run that prints the warning of line 123 entered the loop. *)
Lemma backup_trace_disk_after w repo days_ thr interval max t j :
  In (EPrint (MsgDiskAfter t j)) (backup_trace w repo days_ thr interval max) ->
  exists d q evs f,
    get_alias w [] = Ok d
    /\ backup_trace w repo days_ thr interval max
       = at_gate w days_ [] d ++ EDisk (Ok q) :: evs
    /\ loop_run w repo thr interval max (now w)
                (at_gate w days_ [] d ++ [EDisk (Ok q)])
                (stale_list (now w) days_ d) evs f
    /\ In (EPrint (MsgDiskAfter t j)) evs.
Proof.
  intros Hin.
  destruct (get_alias w []) as [d|x] eqn:Hg.
  - assert (Hgate : ~ In (EPrint (MsgDiskAfter t j)) (at_gate w days_ [] d)).
    { unfold at_gate. cbn [app]. intros [H|H]; [discriminate|].
      apply listing_events_prints in H as [H|(x & _ & H)]; discriminate. }
    destruct (backup_trace_cases w repo days_ thr interval max d Hg)
      as [(x & _ & E)|[(q & _ & _ & E)|(q & evs & f & _ & _ & Hl & E)]].
    + exfalso. rewrite E in Hin. apply in_app_or in Hin as [Hin|Hin]; [auto|].
      destruct Hin as [Hin|[Hin|[]]]; [discriminate|destruct x; discriminate].
    + exfalso. rewrite E in Hin. apply in_app_or in Hin as [Hin|Hin]; [auto|].
      destruct Hin as [Hin|[Hin|[]]]; discriminate.
    + exists d, q, evs, f. repeat split; auto.
      rewrite E in Hin. apply in_app_or in Hin as [Hin|[Hin|Hin]];
        [contradiction|discriminate|assumption].
  - exfalso. rewrite (backup_trace_listing_failed _ _ _ _ _ _ _ Hg) in Hin.
    destruct Hin as [Hin|[Hin|[]]]; [discriminate|destruct x; discriminate].
Qed.

(** X4.  The warning of line 123 ends the run: it is the last event, it
    follows the acknowledged delete of its index and a disk sample strictly
    above the threshold, and the stale indices after that one get no
    snapshot request. *)
Theorem X4_disk_abort_ends_the_run :
  forall (w : World) (repository_name : string)
         (days_ threshold interval max_retries : Z) (t : Z) (j : string),
    let tr := backup_trace w repository_name days_ threshold interval
                           max_retries in
    In (EPrint (MsgDiskAfter t j)) tr ->
    t = threshold
    /\ (exists t1 q,
           tr = t1 ++ [EDelete j (Ok tt); EPrint (MsgDeletedAfterSnapshot j);
                       EDisk (Ok q); EPrint (MsgDiskAfter threshold j)]
           /\ (inject_Z threshold < q)%Q)
    /\ exists indices l1 d l2,
        get_alias w [] = Ok indices
        /\ backup_old_indices (now w) days_ indices = Ok (l1 ++ (j, d) :: l2)
        /\ created_names tr = map fst l1 ++ [j].
Proof.
  intros w repo days_ thr interval max t j tr Hin.
  destruct (backup_trace_disk_after _ _ _ _ _ _ _ _ Hin)
    as (d & q0 & evs & f & Hg & E & Hl & Hin').
  destruct (loop_run_disk_after _ _ _ _ _ _ _ _ _ _ _ _ Hl Hin')
    as (_ & -> & (t1 & q & -> & Hq) & l1 & dj & l2 & El & Hn).
  split; [reflexivity|]. split.
  - exists (at_gate w days_ [] d ++ EDisk (Ok q0) :: t1), q.
    split; [|now apply Qgtb_true].
    subst tr. rewrite E. now norm_hist.
  - exists d, l1, dj, l2. split; [exact Hg|].
    split; [rewrite backup_old_indices_eq; now rewrite El|].
    subst tr. rewrite E, created_names_app, created_names_at_gate.
    cbn [app created_names flat_map]. exact Hn.
Qed.

Lemma X4_witness :
  In (EPrint (MsgDiskAfter 90 "logs-2023.01.01"))
     (backup_trace filling_world "repo" 90 90 5 3)
  /\ created_names (backup_trace filling_world "repo" 90 90 5 3)
     = ["logs-2023.01.01"]
  /\ exists t1 q,
      backup_trace filling_world "repo" 90 90 5 3
      = t1 ++ [EDelete "logs-2023.01.01" (Ok tt);
               EPrint (MsgDeletedAfterSnapshot "logs-2023.01.01");
               EDisk (Ok q); EPrint (MsgDiskAfter 90 "logs-2023.01.01")]
      /\ (inject_Z 90 < q)%Q.
Proof.
  assert (H : In (EPrint (MsgDiskAfter 90 "logs-2023.01.01"))
                 (backup_trace filling_world "repo" 90 90 5 3)).
  { vm_compute. repeat (first [left; reflexivity | right]). }
  split; [exact H|]. split; [reflexivity|].
  exact (proj1 (proj2 (X4_disk_abort_ends_the_run filling_world "repo" 90 90 5 3
                         90 "logs-2023.01.01" H))).
Defined.

(** X5.  Only the disk guard cuts the batch short: when the listing call
    succeeds, the sample of line 73 is taken and no sample of the run is
    above the threshold, every stale index gets its snapshot request, in
    the order of the stale list. *)
Theorem X5_batch_is_complete_without_abort :
  forall (w : World) (repository_name : string)
         (days_ threshold interval max_retries : Z)
         (indices : dict) (q0 : Q) (old_indices : list (string * datetime)),
    let tr := backup_trace w repository_name days_ threshold interval
                           max_retries in
    get_alias w [] = Ok indices ->
    disk_percent w (at_gate w days_ [] indices) = Ok q0 ->
    (forall q, In (EDisk (Ok q)) tr -> (q <= inject_Z threshold)%Q) ->
    backup_old_indices (now w) days_ indices = Ok old_indices ->
    created_names tr = map fst old_indices.
Proof.
  intros w repo days_ thr interval max d q0 old tr Hg Hq0 Hall Hold.
  rewrite backup_old_indices_eq in Hold. injection Hold as <-.
  destruct (backup_trace_cases w repo days_ thr interval max d Hg)
    as [(x & Hx & _)|[(q & _ & Hq & E)|(q & evs & f & _ & _ & Hl & E)]].
  - congruence.
  - exfalso. apply Qgtb_true in Hq.
    apply (Qlt_not_le _ _ Hq). apply Hall. subst tr. rewrite E.
    apply in_or_app. right. now left.
  - destruct (loop_run_complete _ _ _ _ _ _ _ _ _ _ Hl) as [_ Hn].
    { intros q' Hin. apply Qgtb_false, Hall. subst tr. rewrite E.
      apply in_or_app. right. now right. }
    subst tr. rewrite E, created_names_app, created_names_at_gate.
    cbn [app created_names flat_map]. exact Hn.
Qed.

Lemma X5_witness :
  get_alias scenario_world [] = Ok scenario_dict
  /\ disk_percent scenario_world (at_gate scenario_world 90 [] scenario_dict)
     = Ok (50 # 1)%Q
  /\ created_names (backup_trace scenario_world "repo" 90 90 5 3)
     = ["logs-2023.01.01"; "logs-2023.06.01"].
Proof.
  split; [reflexivity|]. split; [reflexivity|].
  refine (X5_batch_is_complete_without_abort scenario_world "repo" 90 90 5 3
            scenario_dict (50 # 1)%Q
            [("logs-2023.01.01", mkdt 2023 1 1 0 0 0 0);
             ("logs-2023.06.01", mkdt 2023 6 1 0 0 0 0)]
            eq_refl eq_refl _ eq_refl).
  intros q H. vm_compute in H.
  repeat match type of H with
    | _ \/ _ => destruct H as [H|H]
    | False => contradiction
    end;
    try discriminate H;
    injection H as <-; discriminate.
Defined.

(** X6.  In the backup mode a delete request comes directly after a poll
    of the index's snapshot that reported SUCCESS, which comes after the
    acknowledged snapshot request for that index. *)
Theorem X6_delete_follows_success :
  forall (w : World) (repository_name : string)
         (days_ threshold interval max_retries : Z) (i : string) (r : Res unit),
    let tr := backup_trace w repository_name days_ threshold interval
                           max_retries in
    let s := snapshot_name_of (now w) i in
    In (EDelete i r) tr ->
    exists t1 t2 resp t3,
      tr = t1 ++ ECreate repository_name s i (Ok tt)
              :: t2 ++ [EStatus repository_name s (Ok resp); EDelete i r] ++ t3
      /\ status_state resp = Ok "SUCCESS".
Proof.
  intros w repo days_ thr interval max i r tr s Hin.
  destruct (backup_trace_processed _ _ _ _ _ _ _ Hin eq_refl)
    as (d & q & evs & f & _ & E & Hl & Hevs).
  pose proof (Hevs _ Hin eq_refl) as Hin'.
  destruct (loop_run_in_split _ _ _ _ _ _ _ _ _ _ _ Hl Hin')
    as (j & h' & pre & bev & bf & post & -> & Hb & He).
  destruct (body_run_delete_place _ _ _ _ _ _ _ _ _ _ _ _ Hb He)
    as (<- & t2 & resp & t3 & -> & Hs).
  exists (at_gate w days_ [] d ++ EDisk (Ok q) :: pre), t2, resp, (t3 ++ post).
  split; [|exact Hs].
  subst tr s. rewrite E. now norm_hist.
Qed.

Lemma X6_witness :
  In (EDelete "logs-2023.01.01" (Ok tt))
     (backup_trace scenario_world "repo" 90 90 5 3)
  /\ exists t1 t2 resp t3,
      backup_trace scenario_world "repo" 90 90 5 3
      = t1 ++ ECreate "repo"
                (snapshot_name_of (now scenario_world) "logs-2023.01.01")
                "logs-2023.01.01" (Ok tt)
              :: t2 ++ [EStatus "repo"
                          (snapshot_name_of (now scenario_world) "logs-2023.01.01")
                          (Ok resp);
                        EDelete "logs-2023.01.01" (Ok tt)] ++ t3
      /\ status_state resp = Ok "SUCCESS".
Proof.
  assert (H : In (EDelete "logs-2023.01.01" (Ok tt))
                 (backup_trace scenario_world "repo" 90 90 5 3)).
  { vm_compute. repeat (first [left; reflexivity | right]). }
  split; [exact H|].
  exact (X6_delete_follows_success scenario_world "repo" 90 90 5 3
           "logs-2023.01.01" (Ok tt) H).
Defined.

Lemma delete_events_kinds w l :
  forall h e, In e (delete_events w h l) ->
              is_print e = true \/ is_delete e = true.
Proof.
  induction l as [|[i d] l IH]; intros h e Hin; [contradiction|].
  cbn [delete_events] in Hin. apply in_app_or in Hin as [Hin|Hin]; [|eauto].
  destruct Hin as [<-|[<-|[]]]; auto.
Qed.

Lemma loop_run_no_listing w repo thr interval max cd h l evs f e :
  loop_run w repo thr interval max cd h l evs f -> In e evs ->
  is_get_alias e = false.
Proof.
  intros Hl Hin.
  destruct (loop_run_in _ _ _ _ _ _ _ _ _ _ _ Hl Hin)
    as (i & h' & bev & bf & _ & Hb & He & _).
  exact (body_run_no_listing _ _ _ _ _ _ _ _ _ _ _ Hb He).
Qed.

(** With a client, either function lists the indices once, as its first
    call.  After it [list_delete_old_indices] only prints and requests
    deletes. *)
Lemma listing_call_first :
  forall (w : World) (repository_name : string)
         (days_ threshold interval max_retries : Z),
    (exists r rest,
        delete_trace w days_ = EGetAlias r :: rest
        /\ forall e, In e rest -> is_print e = true \/ is_delete e = true)
    /\ (exists r rest,
           backup_trace w repository_name days_ threshold interval max_retries
           = EGetAlias r :: rest
           /\ forall e, In e rest -> is_get_alias e = false).
Proof.
  intros w repo days_ thr interval max. split.
  - unfold delete_trace. rewrite list_delete_old_indices_run.
    cbn [fst app]. unfold delete_run_events.
    destruct (get_alias w []) as [d|x].
    + eexists _, _. split; [reflexivity|].
      intros e Hin. apply in_app_or in Hin as [Hin|Hin].
      * left. apply listing_events_prints in Hin as [->|(y & _ & ->)];
          reflexivity.
      * eapply delete_events_kinds; eassumption.
    + eexists _, _. split; [reflexivity|].
      intros e [<-|[]]. now left.
  - destruct (get_alias w []) as [d|x] eqn:Hg.
    + assert (Hl : forall e, In e (listing_events days_ (stale_list (now w) days_ d)) ->
                             is_get_alias e = false).
      { intros e Hin.
        apply listing_events_prints in Hin as [->|(y & _ & ->)]; reflexivity. }
      destruct (backup_trace_cases w repo days_ thr interval max d Hg)
        as [(x & _ & E)|[(q & _ & _ & E)|(q & evs & f & _ & _ & Hlr & E)]];
        rewrite E; unfold at_gate; cbn [app];
        (eexists _, _; split; [reflexivity|]);
        intros e Hin; apply in_app_or in Hin as [Hin|Hin]; auto.
      * destruct Hin as [<-|[<-|[]]]; reflexivity.
      * destruct Hin as [<-|[<-|[]]]; reflexivity.
      * destruct Hin as [<-|Hin]; [reflexivity|].
        eapply loop_run_no_listing; eassumption.
    + rewrite (backup_trace_listing_failed _ _ _ _ _ _ _ Hg).
      eexists _, _. split; [reflexivity|].
      intros e [<-|[]]. reflexivity.
Qed.

(** With a client, the functions from their first line are the functions
    run with that client; without one, the handler prints one line. *)
Lemma entry_backup OpenSearch host port username password repo days_ thr
    interval max h :
  Entry.list_backup_delete_old_indices OpenSearch host port username password
    repo days_ thr interval max h
  = match OpenSearch host port username password with
    | Ok client =>
        list_backup_delete_old_indices client repo days_ thr interval max h
    | Raise e => (h ++ [EPrint (fatal_message e)], Ok tt)
    end.
Proof.
  unfold Entry.list_backup_delete_old_indices, list_backup_delete_old_indices,
    try_except.
  unfold bind at 1, lift.
  destruct (OpenSearch host port username password) as [client|e];
    [reflexivity|].
  destruct e; reflexivity.
Qed.

Lemma entry_delete OpenSearch host port username password days_ h :
  Entry.list_delete_old_indices OpenSearch host port username password days_ h
  = match OpenSearch host port username password with
    | Ok client => list_delete_old_indices client days_ h
    | Raise e => (h ++ [EPrint (fatal_message e)], Ok tt)
    end.
Proof.
  unfold Entry.list_delete_old_indices, list_delete_old_indices, try_except.
  unfold bind at 1, lift.
  destruct (OpenSearch host port username password) as [client|e];
    [reflexivity|].
  destruct e; reflexivity.
Qed.

(** X7.  Either function lists the indices at most once, and only with a
    client.  When the construction of the client raises, the function
    prints the line of the handler for that exception, calls nothing and
    returns.  When the client is built, the function runs with it: the
    listing call is its first event and is not repeated, and after it
    [list_delete_old_indices] only prints and requests deletes: it makes
    no snapshot request, polls no status, samples no disk and never
    sleeps. *)
Theorem X7_listing_needs_a_client :
  forall (OpenSearch : client_constructor) (host : string) (port : Z)
         (username password repository_name : string)
         (days_ threshold interval max_retries : Z),
    let backup :=
      Entry.list_backup_delete_old_indices OpenSearch host port username
        password repository_name days_ threshold interval max_retries [] in
    let delete :=
      Entry.list_delete_old_indices OpenSearch host port username password
        days_ [] in
    (count is_get_alias (fst backup) <= 1)%nat
    /\ (count is_get_alias (fst delete) <= 1)%nat
    /\ match OpenSearch host port username password with
       | Raise e =>
           backup = ([EPrint (fatal_message e)], Ok tt)
           /\ delete = ([EPrint (fatal_message e)], Ok tt)
       | Ok client =>
           backup = list_backup_delete_old_indices client repository_name
                      days_ threshold interval max_retries []
           /\ delete = list_delete_old_indices client days_ []
           /\ (exists r rest,
                  fst backup = EGetAlias r :: rest
                  /\ count is_get_alias rest = 0%nat)
           /\ (exists r rest,
                  fst delete = EGetAlias r :: rest
                  /\ forallb (fun e => is_print e || is_delete e) rest = true)
       end.
Proof.
  intros OpenSearch host port username password repo days_ thr interval max
         backup delete.
  subst backup delete. rewrite entry_backup, entry_delete.
  destruct (OpenSearch host port username password) as [client|e].
  - destruct (listing_call_first client repo days_ thr interval max)
      as ((rd & restd & Ed & Hd) & (rb & restb & Eb & Hb)).
    unfold delete_trace in Ed. unfold backup_trace in Eb.
    assert (Cb : count is_get_alias restb = 0%nat) by now apply count_none.
    assert (Cd : count is_get_alias restd = 0%nat).
    { apply count_none. intros e He.
      destruct (Hd e He) as [H|H]; destruct e; cbn in H; try discriminate H;
        reflexivity. }
    rewrite Eb, Ed.
    change (EGetAlias rb :: restb) with ([EGetAlias rb] ++ restb).
    change (EGetAlias rd :: restd) with ([EGetAlias rd] ++ restd).
    rewrite !count_app, Cb, Cd. cbn.
    repeat split; try lia.
    + exists rb, restb. split; [reflexivity|exact Cb].
    + exists rd, restd. split; [reflexivity|].
      apply forallb_forall. intros e He.
      destruct (Hd e He) as [-> | ->]; [reflexivity|apply orb_true_r].
  - cbn. repeat split; lia.
Qed.

(** X8.  The backup mode polls only what it created: every status poll of
    a run is made in the configured repository, for the snapshot of some
    index whose snapshot request was acknowledged earlier in the run. *)
Theorem X8_polls_follow_the_request :
  forall (w : World) (repository_name : string)
         (days_ threshold interval max_retries : Z)
         (rp s : string) (r : Res status_response),
    let tr := backup_trace w repository_name days_ threshold interval
                           max_retries in
    In (EStatus rp s r) tr ->
    rp = repository_name
    /\ exists i t1 t2,
        s = snapshot_name_of (now w) i
        /\ tr = t1 ++ ECreate repository_name s i (Ok tt) :: t2
        /\ In (EStatus rp s r) t2.
Proof.
  intros w repo days_ thr interval max rp s r tr Hin.
  destruct (backup_trace_processed _ _ _ _ _ _ _ Hin eq_refl)
    as (d & q & evs & f & _ & E & Hl & Hevs).
  pose proof (Hevs _ Hin eq_refl) as Hin'.
  destruct (loop_run_in_split _ _ _ _ _ _ _ _ _ _ _ Hl Hin')
    as (j & h' & pre & bev & bf & post & -> & Hb & He).
  destruct (body_run_status_place _ _ _ _ _ _ _ _ _ _ _ _ _ Hb He)
    as (-> & -> & rest & -> & Hr).
  split; [reflexivity|].
  exists j, (at_gate w days_ [] d ++ EDisk (Ok q) :: pre), (rest ++ post).
  split; [reflexivity|]. split.
  - subst tr. rewrite E. now norm_hist.
  - apply in_or_app. now left.
Qed.

Lemma X8_witness :
  let s := snapshot_name_of (now partial_world) "logs-2023.06.01" in
  let r := Ok (mkstatus (Some [mksnap (Some "PARTIAL")])) in
  In (EStatus "repo" s r) (backup_trace partial_world "repo" 90 90 5 3)
  /\ exists i t1 t2,
      s = snapshot_name_of (now partial_world) i
      /\ backup_trace partial_world "repo" 90 90 5 3
         = t1 ++ ECreate "repo" s i (Ok tt) :: t2
      /\ In (EStatus "repo" s r) t2.
Proof.
  intros s r.
  assert (H : In (EStatus "repo" s r) (backup_trace partial_world "repo" 90 90 5 3)).
  { vm_compute. repeat (first [left; reflexivity | right]). }
  split; [exact H|].
  exact (proj2 (X8_polls_follow_the_request partial_world "repo" 90 90 5 3
                  "repo" s r H)).
Defined.

(** ** More on the classifier *)

(** X9.  Raising the retention period never makes more indices stale: for
    [thr1 <= thr2] every entry of the stale list at [thr2] is in the stale
    list at [thr1].  A stale list names keys of the listing only, each
    once, so it is no longer than the listing. *)
Theorem X9_threshold_monotone :
  forall (now : datetime) (thr1 thr2 : Z) (indices : dict),
    thr1 <= thr2 ->
    exists old1 old2,
      backup_old_indices now thr1 indices = Ok old1
      /\ backup_old_indices now thr2 indices = Ok old2
      /\ incl old2 old1
      /\ incl (map fst old1) (map fst (items indices))
      /\ NoDup (map fst old1)
      /\ (List.length old1 <= List.length (items indices))%nat.
Proof.
  intros now thr1 thr2 d Hle.
  exists (stale_list now thr1 d), (stale_list now thr2 d).
  rewrite !backup_old_indices_eq.
  assert (Hincl : incl (map fst (stale_list now thr1 d)) (map fst (items d))).
  { intros n Hn. apply in_stale_names in Hn as [cd Hn].
    apply in_stale_list in Hn as ((info & Hin) & _).
    apply in_map_iff. now exists (n, info). }
  repeat split; auto.
  - intros [n cd] Hin. apply in_stale_list in Hin as (Hk & Hp & Hd).
    apply in_stale_list. repeat split; auto. lia.
  - apply stale_list_NoDup.
  - rewrite <- (length_map fst (stale_list now thr1 d)).
    rewrite <- (length_map fst (items d)).
    apply NoDup_incl_length; [apply stale_list_NoDup|exact Hincl].
Qed.

Lemma X9_witness :
  90 <= 300
  /\ exists old1 old2,
      backup_old_indices (mkdt 2024 1 1 12 0 0 0) 90 scenario_dict = Ok old1
      /\ backup_old_indices (mkdt 2024 1 1 12 0 0 0) 300 scenario_dict = Ok old2
      /\ incl old2 old1.
Proof.
  assert (H : 90 <= 300) by discriminate.
  split; [exact H|].
  destruct (X9_threshold_monotone (mkdt 2024 1 1 12 0 0 0) 90 300 scenario_dict H)
    as (old1 & old2 & H1 & H2 & H3 & _).
  exists old1, old2. auto.
Defined.

Lemma string_of_list_ascii_app (a b : list ascii) :
  string_of_list_ascii (a ++ b)
  = String.append (string_of_list_ascii a) (string_of_list_ascii b).
Proof. induction a as [|c a IH]; cbn; [reflexivity|]. now rewrite IH. Qed.

(** The scan of [rsplit_last]: [acc] is what follows the last hyphen seen. *)
Lemma rsplit_scan (l acc : list ascii) :
  ~ In hyphen acc ->
  let t := fold_left (fun acc c => if Ascii.eqb c hyphen then [] else acc ++ [c])
                     l acc in
  ~ In hyphen t
  /\ ((~ In hyphen l /\ t = acc ++ l)
      \/ exists p, l = p ++ hyphen :: t).
Proof.
  revert acc. induction l as [|c l IH]; intros acc Hacc; cbn.
  - split; [assumption|]. left. split; [tauto|now rewrite app_nil_r].
  - destruct (Ascii.eqb_spec c hyphen) as [->|Hc].
    + destruct (IH [] (fun H => H)) as [Ht [[Hl E]|[p E]]].
      * split; [assumption|]. right. exists []. cbn. now rewrite E at 1.
      * split; [assumption|]. right. exists (hyphen :: p). cbn.
        now rewrite E at 1.
    + assert (Hacc' : ~ In hyphen (acc ++ [c])).
      { intros H. apply in_app_or in H as [H|[H|[]]]; [auto|congruence]. }
      destruct (IH (acc ++ [c]) Hacc') as [Ht [[Hl E]|[p E]]].
      * split; [assumption|]. left. split.
        -- intros [H|H]; [congruence|auto].
        -- rewrite E. now rewrite <- app_assoc.
      * split; [assumption|]. right. exists (c :: p). cbn. now rewrite E at 1.
Qed.

(** A name is in the stale list when it is a key of the listing whose
    token parses to a date older than the threshold. *)
Lemma stale_name_iff now thr d name :
  In name (map fst (stale_list now thr d))
  <-> In name (map fst (items d))
      /\ exists cd, strptime (rsplit_last name) = Ok cd
                    /\ days (sub now cd) > thr.
Proof.
  split.
  - intros H. apply in_stale_names in H as [cd H].
    apply in_stale_list in H as ((info & Hi) & Hp & Hd).
    split; [|eauto].
    apply in_map_iff. exists (name, info). split; [reflexivity|assumption].
  - intros [Hk (cd & Hp & Hd)].
    apply in_map_iff in Hk as ([n info] & E & Hi). cbn [fst] in E. subst n.
    apply in_map_iff. exists (name, cd). split; [reflexivity|].
    apply in_stale_list. eauto.
Qed.

(** X10.  The date token [index_name.rsplit("-", 1)[-1]] holds no hyphen;
    it is the whole name when the name has no hyphen, and otherwise what
    follows a hyphen at the end of the name.  The loops of lines 54-63 and
    157-166 read nothing else of a name: two names of the listing with the
    same token are stale together or not at all. *)
Theorem X10_date_token :
  forall (index_name : string),
    let t := rsplit_last index_name in
    ~ In hyphen (list_ascii_of_string t)
    /\ ((~ In hyphen (list_ascii_of_string index_name) /\ t = index_name)
        \/ exists prefix,
            index_name = String.append prefix (String hyphen t))
    /\ (forall now days_ indices other old,
          In index_name (map fst (items indices)) ->
          In other (map fst (items indices)) ->
          rsplit_last other = t ->
          backup_old_indices now days_ indices = Ok old
          \/ delete_old_indices now days_ indices = Ok old ->
          (In index_name (map fst old) <-> In other (map fst old))).
Proof.
  intros s t.
  assert (Hshape : ~ In hyphen (list_ascii_of_string t)
                   /\ ((~ In hyphen (list_ascii_of_string s) /\ t = s)
                       \/ exists prefix,
                           s = String.append prefix (String hyphen t))).
  { subst t. unfold rsplit_last.
    destruct (rsplit_scan (list_ascii_of_string s) [] (fun H => H))
      as [Ht [[Hl E]|[p E]]];
      rewrite list_ascii_of_string_of_list_ascii.
    - split; [assumption|]. left. split; [assumption|].
      rewrite E. cbn [app]. apply string_of_list_ascii_of_string.
    - split; [assumption|]. right. exists (string_of_list_ascii p).
      rewrite <- (string_of_list_ascii_of_string s) at 1.
      rewrite E at 1. now rewrite string_of_list_ascii_app. }
  destruct Hshape as [H1 H2]. split; [exact H1|]. split; [exact H2|].
  intros now days_ d other old Hs Ho Ht Hold.
  assert (E : old = stale_list now days_ d).
  { rewrite backup_old_indices_eq, delete_old_indices_eq in Hold.
    destruct Hold as [[= <-]|[= <-]]; reflexivity. }
  subst old. rewrite !stale_name_iff. fold t. rewrite Ht.
  split; intros [_ H]; split; assumption.
Qed.

Lemma X10_witness :
  rsplit_last "metrics-2023.01.01" = rsplit_last "logs-2023.01.01"
  /\ (In "logs-2023.01.01"
         (map fst [("logs-2023.01.01", mkdt 2023 1 1 0 0 0 0);
                   ("metrics-2023.01.01", mkdt 2023 1 1 0 0 0 0)])
      <-> In "metrics-2023.01.01"
            (map fst [("logs-2023.01.01", mkdt 2023 1 1 0 0 0 0);
                      ("metrics-2023.01.01", mkdt 2023 1 1 0 0 0 0)])).
Proof.
  split; [reflexivity|].
  exact (proj2 (proj2 (X10_date_token "logs-2023.01.01"))
           (mkdt 2024 1 1 12 0 0 0) 90 same_token_dict "metrics-2023.01.01"
           [("logs-2023.01.01", mkdt 2023 1 1 0 0 0 0);
            ("metrics-2023.01.01", mkdt 2023 1 1 0 0 0 0)]
           (or_introl eq_refl) (or_intror (or_introl eq_refl)) eq_refl
           (or_introl eq_refl)).
Defined.

Lemma make_date_valid y m d t :
  make_date y m d = Ok t ->
  1 <= year t <= 9999 /\ 1 <= month t <= 12
  /\ 1 <= day t <= days_in_month (year t) (month t).
Proof.
  unfold make_date.
  destruct (_ && _) eqn:E; [|discriminate].
  intros [= <-]. cbn [year month day].
  repeat (apply andb_prop in E as [E ?]).
  repeat match goal with H : (_ <=? _) = true |- _ => apply Z.leb_le in H end.
  lia.
Qed.

Lemma strptime_valid s t :
  strptime s = Ok t ->
  1 <= year t <= 9999 /\ 1 <= month t <= 12
  /\ 1 <= day t <= days_in_month (year t) (month t).
Proof.
  unfold strptime.
  destruct (match_Y _) as [[y s1]|]; [|congruence].
  destruct (match_dot s1) as [s2|]; [|congruence].
  destruct (match_m_dot s2) as [[m s3]|]; [|congruence].
  destruct (match_d s3) as [[d [|c s4]]|]; try congruence.
  apply make_date_valid.
Qed.

(** X11.  Every entry of the stale list pairs a key of the listing with
    the date [strptime] read from its token: a day of the calendar, at
    midnight, more than the threshold of days before [now]. *)
Theorem X11_stale_entries_are_dated :
  forall (now : datetime) (threshold : Z) (indices : dict)
         (old_indices : list (string * datetime))
         (name : string) (creation_date : datetime),
    backup_old_indices now threshold indices = Ok old_indices
    \/ delete_old_indices now threshold indices = Ok old_indices ->
    In (name, creation_date) old_indices ->
    (exists info, In (name, info) (items indices))
    /\ strptime (rsplit_last name) = Ok creation_date
    /\ 1 <= year creation_date <= 9999
    /\ 1 <= month creation_date <= 12
    /\ 1 <= day creation_date
         <= days_in_month (year creation_date) (month creation_date)
    /\ (hour creation_date = 0 /\ minute creation_date = 0
        /\ second creation_date = 0 /\ microsecond creation_date = 0)
    /\ days (sub now creation_date) > threshold.
Proof.
  intros now thr d old name cdate Hold Hin.
  assert (E : old = stale_list now thr d).
  { rewrite backup_old_indices_eq, delete_old_indices_eq in Hold.
    destruct Hold as [[= <-]|[= <-]]; reflexivity. }
  subst old. apply in_stale_list in Hin as (Hk & Hp & Hd).
  destruct (strptime_valid _ _ Hp) as (V1 & V2 & V3).
  pose proof (strptime_midnight _ _ Hp) as Hm.
  repeat split; try assumption; lia.
Qed.

Lemma X11_witness :
  (backup_old_indices (mkdt 2024 1 1 12 0 0 0) 90 scenario_dict
   = Ok [("logs-2023.01.01", mkdt 2023 1 1 0 0 0 0);
         ("logs-2023.06.01", mkdt 2023 6 1 0 0 0 0)]
   \/ delete_old_indices (mkdt 2024 1 1 12 0 0 0) 90 scenario_dict
      = Ok [("logs-2023.01.01", mkdt 2023 1 1 0 0 0 0);
            ("logs-2023.06.01", mkdt 2023 6 1 0 0 0 0)])
  /\ In ("logs-2023.06.01", mkdt 2023 6 1 0 0 0 0)
        [("logs-2023.01.01", mkdt 2023 1 1 0 0 0 0);
         ("logs-2023.06.01", mkdt 2023 6 1 0 0 0 0)]
  /\ days (sub (mkdt 2024 1 1 12 0 0 0) (mkdt 2023 6 1 0 0 0 0)) > 90.
Proof.
  assert (H1 : backup_old_indices (mkdt 2024 1 1 12 0 0 0) 90 scenario_dict
               = Ok [("logs-2023.01.01", mkdt 2023 1 1 0 0 0 0);
                     ("logs-2023.06.01", mkdt 2023 6 1 0 0 0 0)]
               \/ delete_old_indices (mkdt 2024 1 1 12 0 0 0) 90 scenario_dict
                  = Ok [("logs-2023.01.01", mkdt 2023 1 1 0 0 0 0);
                        ("logs-2023.06.01", mkdt 2023 6 1 0 0 0 0)])
    by (left; reflexivity).
  assert (H2 : In ("logs-2023.06.01", mkdt 2023 6 1 0 0 0 0)
                  [("logs-2023.01.01", mkdt 2023 1 1 0 0 0 0);
                   ("logs-2023.06.01", mkdt 2023 6 1 0 0 0 0)])
    by (right; left; reflexivity).
  split; [exact H1|]. split; [exact H2|].
  exact (proj2 (proj2 (proj2 (proj2 (proj2 (proj2
           (X11_stale_entries_are_dated (mkdt 2024 1 1 12 0 0 0) 90 scenario_dict
              _ "logs-2023.06.01" (mkdt 2023 6 1 0 0 0 0) H1 H2))))))).
Defined.

(** ** The order of dates and the order of ages *)

Lemma days_before_year_succ y :
  days_before_year (y + 1)
  = days_before_year y + 365 + (if is_leap y then 1 else 0).
Proof.
  unfold days_before_year, is_leap.
  replace (y + 1 - 1) with y by lia.
  destruct (Z.eqb_spec (y mod 4) 0), (Z.eqb_spec (y mod 100) 0),
    (Z.eqb_spec (y mod 400) 0); cbn [negb andb orb];
    Z.div_mod_to_equations; lia.
Qed.

Lemma days_before_year_mono a b :
  a <= b -> days_before_year a <= days_before_year b.
Proof.
  intros H. unfold days_before_year. Z.div_mod_to_equations. lia.
Qed.

Lemma days_in_month_pos y m : 28 <= days_in_month y m <= 31.
Proof.
  unfold days_in_month.
  destruct (m =? 2); [destruct (is_leap y); lia|].
  destruct (_ || _); lia.
Qed.

Lemma days_before_month_aux_mono y k k' :
  (k <= k')%nat -> days_before_month_aux y k <= days_before_month_aux y k'.
Proof.
  induction 1 as [|k' Hle IH]; [lia|].
  cbn [days_before_month_aux].
  pose proof (days_in_month_pos y (Z.of_nat (S k'))). lia.
Qed.

Lemma days_before_month_succ y m :
  1 <= m ->
  days_before_month y (m + 1) = days_before_month y m + days_in_month y m.
Proof.
  intros Hm. unfold days_before_month.
  replace (Z.to_nat (m + 1 - 1)) with (S (Z.to_nat (m - 1))) by lia.
  cbn [days_before_month_aux]. f_equal. f_equal. lia.
Qed.

Lemma days_before_month_mono y m m' :
  m <= m' -> days_before_month y m <= days_before_month y m'.
Proof.
  intros H. unfold days_before_month. apply days_before_month_aux_mono. lia.
Qed.

Lemma days_before_month_13 y :
  days_before_month y 13 = 365 + (if is_leap y then 1 else 0).
Proof.
  unfold days_before_month. change (Z.to_nat (13 - 1)) with 12%nat.
  cbn [days_before_month_aux]. unfold days_in_month.
  change (Z.of_nat 1) with 1. change (Z.of_nat 2) with 2.
  change (Z.of_nat 3) with 3. change (Z.of_nat 4) with 4.
  change (Z.of_nat 5) with 5. change (Z.of_nat 6) with 6.
  change (Z.of_nat 7) with 7. change (Z.of_nat 8) with 8.
  change (Z.of_nat 9) with 9. change (Z.of_nat 10) with 10.
  change (Z.of_nat 11) with 11. change (Z.of_nat 12) with 12.
  cbn [Z.eqb Pos.eqb orb].
  destruct (is_leap y); reflexivity.
Qed.

(** The ordinal of a calendar day grows with the date. *)
Lemma toordinal_lt a b :
  calendar_day a -> calendar_day b ->
  Datetime.ltb a b = true -> toordinal a < toordinal b.
Proof.
  intros (Ma & Da & Ha & Mia & Sa & Ua) (Mb & Db & Hb & Mib & Sb & Ub).
  unfold Datetime.ltb, cmp, to_tuple. cbn [lex_cmp].
  rewrite Ha, Mia, Sa, Ua, Hb, Mib, Sb, Ub. cbn [Z.compare].
  unfold toordinal, ymd2ord. intros H.
  destruct (Z.compare_spec (year a) (year b)) as [Ey|Ly|Gy];
    try discriminate.
  - rewrite Ey in *.
    destruct (Z.compare_spec (month a) (month b)) as [Em|Lm|Gm];
      try discriminate.
    + rewrite Em in *.
      destruct (Z.compare_spec (day a) (day b)); try discriminate. lia.
    + pose proof (days_before_month_succ (year b) (month a) ltac:(lia)).
      pose proof (days_before_month_mono (year b) (month a + 1) (month b)
                    ltac:(lia)).
      lia.
  - pose proof (days_before_month_succ (year a) (month a) ltac:(lia)).
    pose proof (days_before_month_mono (year a) (month a + 1) 13 ltac:(lia)).
    pose proof (days_before_month_13 (year a)).
    pose proof (days_before_year_succ (year a)).
    pose proof (days_before_year_mono (year a + 1) (year b) ltac:(lia)).
    pose proof (days_before_month_mono (year b) 1 (month b) ltac:(lia)).
    assert (days_before_month (year b) 1 = 0) by reflexivity.
    destruct (is_leap (year a)); lia.
Qed.

Lemma ltb_total (a b : datetime) :
  Datetime.ltb a b = false -> Datetime.ltb b a = false -> to_tuple a = to_tuple b.
Proof.
  unfold Datetime.ltb, cmp. rewrite (lex_cmp_antisym (to_tuple a)).
  destruct (lex_cmp (to_tuple a) (to_tuple b)) eqn:E; simpl; try discriminate.
  intros _ _. now apply lex_cmp_eq.
Qed.

Lemma toordinal_le a b :
  calendar_day a -> calendar_day b ->
  Datetime.ltb b a = false -> toordinal a <= toordinal b.
Proof.
  intros Va Vb H.
  destruct (Datetime.ltb a b) eqn:E.
  - pose proof (toordinal_lt a b Va Vb E). lia.
  - pose proof (ltb_total a b E H) as T.
    unfold to_tuple in T. injection T as Ey Em Ed _ _ _ _.
    unfold toordinal. now rewrite Ey, Em, Ed.
Qed.

Lemma strptime_calendar_day s t : strptime s = Ok t -> calendar_day t.
Proof.
  intros H. destruct (strptime_valid _ _ H) as (_ & V2 & V3).
  destruct (strptime_midnight _ _ H) as (M1 & M2 & M3 & M4).
  unfold calendar_day. auto 10.
Qed.

(** The age in days of a calendar day, to a shift that depends on the
    clock reading only. *)
Lemma age_of_calendar_day now t :
  calendar_day t ->
  days (sub now t)
  = toordinal now - toordinal t
    + (second now + minute now * 60 + hour now * 3600
       + microsecond now / 1000000) / 86400.
Proof.
  intros (_ & _ & Hh & Hm & Hs & Hu).
  unfold sub, new_timedelta. cbn [days]. rewrite Hh, Hm, Hs, Hu.
  change (0 + 0 * 60 + 0 * 3600) with 0. rewrite !Z.sub_0_r. reflexivity.
Qed.

(** X12.  Oldest first means longest overdue first: of two entries of the
    stale list, the one that stands first has the earlier or the same
    calendar day and is at least as many days old. *)
Theorem X12_oldest_is_most_overdue :
  forall (now : datetime) (threshold : Z) (indices : dict)
         (l1 l2 l3 : list (string * datetime)) (A B : string * datetime),
    backup_old_indices now threshold indices = Ok (l1 ++ A :: l2 ++ B :: l3)
    \/ delete_old_indices now threshold indices
       = Ok (l1 ++ A :: l2 ++ B :: l3) ->
    toordinal (snd A) <= toordinal (snd B)
    /\ days (sub now (snd A)) >= days (sub now (snd B)).
Proof.
  intros now thr d l1 l2 l3 A B Hold.
  assert (E : stale_list now thr d = l1 ++ A :: l2 ++ B :: l3).
  { rewrite backup_old_indices_eq, delete_old_indices_eq in Hold.
    destruct Hold as [[= <-]|[= <-]]; reflexivity. }
  assert (HA : In A (stale_list now thr d))
    by (rewrite E; apply in_elt).
  assert (HB : In B (stale_list now thr d)).
  { rewrite E. apply in_or_app. right. right. apply in_elt. }
  destruct A as [a da], B as [b db]. cbn [snd].
  apply in_stale_list in HA as (_ & PA & _).
  apply in_stale_list in HB as (_ & PB & _).
  apply strptime_calendar_day in PA, PB.
  pose proof (sort_by_date_sorted
                (flat_map (stale_entry now thr) (items d))) as Hs.
  fold (stale_list now thr d) in Hs. rewrite E in Hs.
  apply sorted_suffix in Hs. apply StronglySorted_inv in Hs as [_ Hall].
  rewrite Forall_forall in Hall.
  assert (Hle : date_le (a, da) (b, db)).
  { apply Hall. apply in_elt. }
  unfold date_le in Hle. cbn [snd] in Hle.
  pose proof (toordinal_le da db PA PB Hle) as Ho.
  split; [exact Ho|].
  rewrite (age_of_calendar_day now da PA), (age_of_calendar_day now db PB).
  lia.
Qed.

Lemma X12_witness :
  (backup_old_indices (mkdt 2024 1 1 12 0 0 0) 90 scenario_dict
   = Ok ([] ++ ("logs-2023.01.01", mkdt 2023 1 1 0 0 0 0)
            :: [] ++ ("logs-2023.06.01", mkdt 2023 6 1 0 0 0 0) :: [])
   \/ delete_old_indices (mkdt 2024 1 1 12 0 0 0) 90 scenario_dict
      = Ok ([] ++ ("logs-2023.01.01", mkdt 2023 1 1 0 0 0 0)
               :: [] ++ ("logs-2023.06.01", mkdt 2023 6 1 0 0 0 0) :: []))
  /\ days (sub (mkdt 2024 1 1 12 0 0 0) (mkdt 2023 1 1 0 0 0 0))
     >= days (sub (mkdt 2024 1 1 12 0 0 0) (mkdt 2023 6 1 0 0 0 0)).
Proof.
  assert (H : backup_old_indices (mkdt 2024 1 1 12 0 0 0) 90 scenario_dict
              = Ok ([] ++ ("logs-2023.01.01", mkdt 2023 1 1 0 0 0 0)
                       :: [] ++ ("logs-2023.06.01", mkdt 2023 6 1 0 0 0 0) :: [])
              \/ delete_old_indices (mkdt 2024 1 1 12 0 0 0) 90 scenario_dict
                 = Ok ([] ++ ("logs-2023.01.01", mkdt 2023 1 1 0 0 0 0)
                          :: [] ++ ("logs-2023.06.01", mkdt 2023 6 1 0 0 0 0)
                          :: []))
    by (left; reflexivity).
  split; [exact H|].
  exact (proj2 (X12_oldest_is_most_overdue (mkdt 2024 1 1 12 0 0 0) 90
                  scenario_dict [] [] []
                  ("logs-2023.01.01", mkdt 2023 1 1 0 0 0 0)
                  ("logs-2023.06.01", mkdt 2023 6 1 0 0 0 0) H)).
Defined.

(** X13.  The time of day of the run does not matter: for a clock reading
    with a valid time of day, an index whose token parses is stale exactly
    when its calendar day is more than [threshold] days before the
    calendar day of the run.  With a threshold of 0 or more an index dated
    today or later is never stale. *)
Theorem X13_staleness_counts_calendar_days :
  forall (now : datetime) (threshold : Z) (indices : dict)
         (name : string) (info : index_info) (creation_date : datetime),
    0 <= hour now < 24 -> 0 <= minute now < 60 -> 0 <= second now < 60 ->
    0 <= microsecond now < 1000000 ->
    In (name, info) (items indices) ->
    strptime (rsplit_last name) = Ok creation_date ->
    (classified_stale (backup_old_indices now threshold indices) name
     <-> toordinal now - toordinal creation_date > threshold)
    /\ (classified_stale (delete_old_indices now threshold indices) name
        <-> toordinal now - toordinal creation_date > threshold)
    /\ (0 <= threshold -> toordinal now <= toordinal creation_date ->
        ~ classified_stale (backup_old_indices now threshold indices) name
        /\ ~ classified_stale (delete_old_indices now threshold indices) name).
Proof.
  intros now thr d name info cdate Hh Hm Hs Hu Hin Hp.
  unfold classified_stale.
  rewrite backup_old_indices_eq, delete_old_indices_eq.
  pose proof (classified_stale_iff now thr d name info cdate Hin Hp) as Hiff.
  rewrite (age_is_calendar_days now _ cdate Hp Hh Hm Hs Hu) in Hiff.
  split; [exact Hiff|]. split; [exact Hiff|].
  intros H0 Hle. rewrite Hiff. lia.
Qed.

Lemma X13_witness :
  0 <= 23 < 24 /\ 0 <= 59 < 60
  /\ In ("logs-2023.10.03", []) (items boundary_dict)
  /\ strptime (rsplit_last "logs-2023.10.03") = Ok (mkdt 2023 10 3 0 0 0 0)
  /\ ~ classified_stale
         (backup_old_indices (mkdt 2024 1 1 23 59 59 999999) 90 boundary_dict)
         "logs-2023.10.03".
Proof.
  assert (Hh : 0 <= 23 < 24) by (split; [discriminate|reflexivity]).
  assert (Hm : 0 <= 59 < 60) by (split; [discriminate|reflexivity]).
  assert (Hu : 0 <= 999999 < 1000000) by (split; [discriminate|reflexivity]).
  assert (H1 : In ("logs-2023.10.03", []) (items boundary_dict))
    by (left; reflexivity).
  assert (H2 : strptime (rsplit_last "logs-2023.10.03")
               = Ok (mkdt 2023 10 3 0 0 0 0)) by reflexivity.
  split; [exact Hh|]. split; [exact Hm|]. split; [exact H1|]. split; [exact H2|].
  intros H.
  apply (proj1 (X13_staleness_counts_calendar_days
                  (mkdt 2024 1 1 23 59 59 999999) 90 boundary_dict
                  "logs-2023.10.03" [] (mkdt 2023 10 3 0 0 0 0)
                  Hh Hm Hm Hu H1 H2)) in H.
  vm_compute in H. discriminate H.
Defined.

(* ------------------------------------------------------------------ *)
(** * Properties of main *)

Lemma read_settings_first_error (s : Startup) :
  (forall e, read_settings s = CRaise e <-> first_error s = Some e)
  /\ ((exists st, read_settings s = COk st) <-> first_error s = None).
Proof.
  unfold read_settings, first_error, setting_reads.
  destruct (config_get s "OpenSearch" "host");
    [|cbn; split; [intros; split; congruence
                  |split; [intros [? ?]|]; discriminate]].
  destruct (config_getint s "OpenSearch" "port");
    [|cbn; split; [intros; split; congruence
                  |split; [intros [? ?]|]; discriminate]].
  destruct (config_get s "OpenSearch" "username");
    [|cbn; split; [intros; split; congruence
                  |split; [intros [? ?]|]; discriminate]].
  destruct (config_get s "OpenSearch" "password");
    [|cbn; split; [intros; split; congruence
                  |split; [intros [? ?]|]; discriminate]].
  destruct (config_get s "OpenSearch" "repository_name");
    [|cbn; split; [intros; split; congruence
                  |split; [intros [? ?]|]; discriminate]].
  destruct (config_getint s "Snapshot" "snapshot_retry_interval");
    [|cbn; split; [intros; split; congruence
                  |split; [intros [? ?]|]; discriminate]].
  destruct (config_getint s "Snapshot" "snapshot_max_retries");
    [|cbn; split; [intros; split; congruence
                  |split; [intros [? ?]|]; discriminate]].
  destruct (config_getint s "Snapshot" "disk_usage_threshold");
    [|cbn; split; [intros; split; congruence
                  |split; [intros [? ?]|]; discriminate]].
  cbn. split; [intros; split; discriminate|].
  split; [reflexivity|]. intros _. eexists. reflexivity.
Qed.

(** When the eight reads succeed, the settings hold what they returned. *)
Lemma read_settings_ok (s : Startup) (st : settings) :
  read_settings s = COk st ->
  config_get s "OpenSearch" "host" = COk (host st)
  /\ config_getint s "OpenSearch" "port" = COk (port st)
  /\ config_get s "OpenSearch" "username" = COk (username st)
  /\ config_get s "OpenSearch" "password" = COk (password st)
  /\ config_get s "OpenSearch" "repository_name" = COk (repository_name st)
  /\ config_getint s "Snapshot" "snapshot_retry_interval"
     = COk (snapshot_retry_interval st)
  /\ config_getint s "Snapshot" "snapshot_max_retries"
     = COk (snapshot_max_retries st)
  /\ config_getint s "Snapshot" "disk_usage_threshold"
     = COk (disk_usage_threshold st).
Proof.
  unfold read_settings.
  destruct (config_get s "OpenSearch" "host"); [|discriminate].
  destruct (config_getint s "OpenSearch" "port"); [|discriminate].
  destruct (config_get s "OpenSearch" "username"); [|discriminate].
  destruct (config_get s "OpenSearch" "password"); [|discriminate].
  destruct (config_get s "OpenSearch" "repository_name"); [|discriminate].
  destruct (config_getint s "Snapshot" "snapshot_retry_interval");
    [|discriminate].
  destruct (config_getint s "Snapshot" "snapshot_max_retries");
    [|discriminate].
  destruct (config_getint s "Snapshot" "disk_usage_threshold");
    [|discriminate].
  cbn. intros [= <-]. cbn. repeat split.
Qed.

(** The handler of lines 262-263 is not reached: the selected function
    returns normally. *)
Lemma perform_action_eq (w : World) (st : settings) (days_ : Z)
    (action : string) :
  perform_action w st days_ action
  = map Core (selected_trace w st days_ action).
Proof.
  unfold perform_action, selected_trace.
  destruct (String.eqb action "backup_delete").
  - now rewrite backup_result.
  - destruct (String.eqb action "delete").
    + unfold delete_trace. rewrite list_delete_old_indices_run. reflexivity.
    + reflexivity.
Qed.

Lemma in_map_core (e : event) (l : history) : In (Core e) (map Core l) -> In e l.
Proof.
  intros H. apply in_map_iff in H as (x & [= ->] & Hx). exact Hx.
Qed.

Lemma selected_trace_action (w : World) (st : settings) (days_ : Z)
    (action : string) (e : event) :
  In e (selected_trace w st days_ action) ->
  action = "backup_delete" \/ action = "delete".
Proof.
  unfold selected_trace.
  destruct (String.eqb action "backup_delete") eqn:E1.
  - intros _. left. now apply String.eqb_eq.
  - destruct (String.eqb action "delete") eqn:E2.
    + intros _. right. now apply String.eqb_eq.
    + intros [].
Qed.

(** The cases of [main]. *)
Lemma main_cases (s : Startup) (w : World) :
  (path_exists s "config.ini" = false
   /\ main s w = ([MPrint MsgBanner; MPrint (MsgConfigNotFound "config.ini")],
                  Returned))
  \/ (path_exists s "config.ini" = true
      /\ exists e, config_read s "config.ini" = CRaise e
                   /\ main s w = ([MPrint MsgBanner], Uncaught e))
  \/ (path_exists s "config.ini" = true
      /\ (exists u, config_read s "config.ini" = COk u)
      /\ exists e, first_error s = Some e
           /\ main s w
              = match e with
                | NoSectionError =>
                    ([MPrint MsgBanner; MPrint MsgConfigurationError],
                     Returned)
                | NoOptionError =>
                    ([MPrint MsgBanner; MPrint MsgMissingOption], Returned)
                | OtherStartupError =>
                    ([MPrint MsgBanner], Uncaught OtherStartupError)
                end)
  \/ (path_exists s "config.ini" = true
      /\ (exists u, config_read s "config.ini" = COk u)
      /\ exists st, read_settings s = COk st
           /\ ((exists status, parse_args s = ArgsExit status
                   /\ main s w = ([MPrint MsgBanner], Exited status))
               \/ (exists days_ action, parse_args s = Args days_ action
                   /\ main s w
                      = (MPrint MsgBanner
                           :: map Core (selected_trace w st days_ action),
                         Returned)))).
Proof.
  unfold main.
  destruct (path_exists s "config.ini"); cbn [negb].
  2:{ left. split; reflexivity. }
  right.
  destruct (config_read s "config.ini") as [u|e].
  2:{ left. split; [reflexivity|]. exists e. split; reflexivity. }
  right.
  destruct (read_settings s) as [st|e] eqn:Hr.
  - right. split; [reflexivity|]. split; [now exists u|].
    exists st. split; [reflexivity|].
    destruct (parse_args s) as [days_ action|status].
    + right. exists days_, action. split; [reflexivity|].
      now rewrite perform_action_eq.
    + left. exists status. split; reflexivity.
  - left. split; [reflexivity|]. split; [now exists u|].
    exists e. split; [now apply read_settings_first_error|].
    destruct e; reflexivity.
Qed.

Lemma first_error_position (l : list (option startup_exn)) (e : startup_exn) :
  fold_right (fun r later => match r with Some e => Some e | None => later end)
             None l = Some e ->
  exists l1 l2, l = l1 ++ Some e :: l2 /\ Forall (fun r => r = None) l1.
Proof.
  induction l as [|[e'|] l IH]; cbn.
  - discriminate.
  - intros [= ->]. exists [], l. split; [reflexivity|constructor].
  - intros H. destruct (IH H) as (l1 & l2 & -> & Hall).
    exists (None :: l1), l2. split; [reflexivity|]. now constructor.
Qed.

(** X14.  main contacts the cluster only after a complete start-up: an
    event of one of the two functions appears in a run of main only if
    config.ini exists, all eight settings could be read (those of the
    [Snapshot] section too, even for the action delete), the command line
    was accepted and its action is backup_delete or delete; the event is
    then one of the selected function, and main returns. *)
Theorem X14_cluster_needs_complete_startup (s : Startup) (w : World)
    (e : event) :
  In (Core e) (fst (main s w)) ->
  path_exists s "config.ini" = true
  /\ (exists u, config_read s "config.ini" = COk u)
  /\ (exists st,
        config_get s "OpenSearch" "host" = COk (host st)
        /\ config_getint s "OpenSearch" "port" = COk (port st)
        /\ config_get s "OpenSearch" "username" = COk (username st)
        /\ config_get s "OpenSearch" "password" = COk (password st)
        /\ config_get s "OpenSearch" "repository_name"
           = COk (repository_name st)
        /\ config_getint s "Snapshot" "snapshot_retry_interval"
           = COk (snapshot_retry_interval st)
        /\ config_getint s "Snapshot" "snapshot_max_retries"
           = COk (snapshot_max_retries st)
        /\ config_getint s "Snapshot" "disk_usage_threshold"
           = COk (disk_usage_threshold st)
        /\ exists days_ action,
             parse_args s = Args days_ action
             /\ (action = "backup_delete" \/ action = "delete")
             /\ In e (selected_trace w st days_ action))
  /\ snd (main s w) = Returned.
Proof.
  intros Hin.
  destruct (main_cases s w)
    as [(_ & E)|[(_ & x & _ & E)|[(_ & _ & x & _ & E)
       |(Hp & Hu & st & Hst & [(c & _ & E)|(days_ & action & Ha & E)])]]];
    rewrite E in Hin; cbn [fst] in Hin.
  - destruct Hin as [H|[H|[]]]; discriminate H.
  - destruct Hin as [H|[]]; discriminate H.
  - destruct x; cbn [fst] in Hin;
      repeat (destruct Hin as [Hin|Hin]; [discriminate Hin|]);
      destruct Hin.
  - destruct Hin as [H|[]]; discriminate H.
  - destruct Hin as [H|Hin]; [discriminate H|].
    apply in_map_core in Hin.
    split; [exact Hp|]. split; [exact Hu|].
    split; [|now rewrite E].
    exists st.
    destruct (read_settings_ok s st Hst)
      as (R1 & R2 & R3 & R4 & R5 & R6 & R7 & R8).
    repeat (split; [assumption|]).
    exists days_, action. split; [exact Ha|].
    split; [|exact Hin].
    exact (selected_trace_action w st days_ action e Hin).
Qed.

Lemma X14_witness :
  In (Core (EGetAlias (Raise ConnectionError)))
     (fst (main delete_startup unreachable_world))
  /\ parse_args delete_startup = Args 90 "delete"
  /\ snd (main delete_startup unreachable_world) = Returned.
Proof.
  assert (Hin : In (Core (EGetAlias (Raise ConnectionError)))
                   (fst (main delete_startup unreachable_world)))
    by (vm_compute; right; left; reflexivity).
  split; [exact Hin|]. split; [reflexivity|].
  exact (proj2 (proj2 (proj2
           (X14_cluster_needs_complete_startup delete_startup
              unreachable_world _ Hin)))).
Defined.




(** X17.  The first of the eight reads that fails decides how main ends,
    before the command line is parsed and without any call to the cluster:
    a missing section gives the configuration error line and a missing
    option the missing option line, main returning in both cases; any
    other exception (a port that is no integer) leaves main uncaught.  The
    reads before the failing one succeeded, the ones after it play no
    part. *)
Theorem X17_first_failing_read_decides (s : Startup) (w : World) (u : unit)
    (e : startup_exn) :
  path_exists s "config.ini" = true ->
  config_read s "config.ini" = COk u ->
  first_error s = Some e ->
  main s w
  = match e with
    | NoSectionError =>
        ([MPrint MsgBanner; MPrint MsgConfigurationError], Returned)
    | NoOptionError =>
        ([MPrint MsgBanner; MPrint MsgMissingOption], Returned)
    | OtherStartupError => ([MPrint MsgBanner], Uncaught OtherStartupError)
    end
  /\ forallb (fun ev => negb (is_core ev)) (fst (main s w)) = true
  /\ exists l1 l2,
       setting_reads s = l1 ++ Some e :: l2
       /\ Forall (fun r => r = None) l1.
Proof.
  intros Hp Hu He.
  assert (E : main s w
              = match e with
                | NoSectionError =>
                    ([MPrint MsgBanner; MPrint MsgConfigurationError],
                     Returned)
                | NoOptionError =>
                    ([MPrint MsgBanner; MPrint MsgMissingOption], Returned)
                | OtherStartupError =>
                    ([MPrint MsgBanner], Uncaught OtherStartupError)
                end).
  { destruct (main_cases s w)
      as [(Hp' & _)|[(_ & x & Hu' & _)|[(_ & _ & x & Hx & E)
         |(_ & _ & st & Hst & _)]]].
    - congruence.
    - congruence.
    - assert (x = e) as -> by congruence. exact E.
    - assert (first_error s = None)
        by (apply read_settings_first_error; now exists st).
      congruence. }
  split; [exact E|]. split.
  - rewrite E. destruct e; reflexivity.
  - now apply first_error_position.
Qed.

Lemma X17_witness :
  first_error bad_port_startup = Some OtherStartupError
  /\ main bad_port_startup scenario_world
     = ([MPrint MsgBanner], Uncaught OtherStartupError).
Proof.
  split; [reflexivity|].
  exact (proj1 (X17_first_failing_read_decides bad_port_startup
                  scenario_world tt OtherStartupError
                  eq_refl eq_refl eq_refl)).
Defined.
